(** * The ACES container reader (libs/aces): header parsing and block geometry

    A shallow embedding of the header reader of [libs/aces]: the byte stream
    behind the read callback, the size-checked attribute readers, the
    attribute dispatch, the header loop with its required-attribute mask,
    the scanline block calculator and the release of a handle.

    Conventions of the embedding.
    - C integers are [Z]; every conversion and wrap-around of the source is
      written out ([wrap32], [to_size_t], [to_uint32]).  The target is LP64
      and little-endian, as the source requires.
    - The stream is the unread remainder of a regular file: a read of [n]
      bytes returns [min n remaining] bytes, as [read(2)] does on the
      descriptor that [default_read_func] wraps.
    - Messages handed to the error callback are recorded by kind together
      with the arguments of their format string; the file-name prefix that
      every message carries is left out.
    - [malloc] is an oracle: whether the k-th request, of a given size,
      succeeds.  Every request is logged. *)

From stdpp Require Import strings list gmap.
From Stdlib Require Import ZArith Strings.Byte Sorted Permutation Lia.

Local Open Scope Z_scope.

(** ** Machine integers and bytes *)

Definition uchar (b : byte) : Z := Z.of_N (Byte.to_N b).

Definition NUL : byte := Byte.x00.

(** Value of a little-endian byte sequence. *)
Fixpoint le_bytes (l : list byte) : Z :=
  match l with
  | [] => 0
  | b :: r => uchar b + 256 * le_bytes r
  end.

(** Conversion to [int32_t] (two's complement wrap-around). *)
Definition wrap32 (x : Z) : Z := (x + 2 ^ 31) mod 2 ^ 32 - 2 ^ 31.

(** Conversion to [uint32_t]. *)
Definition to_uint32 (x : Z) : Z := x mod 2 ^ 32.

(** Conversion to [size_t] (64 bits). *)
Definition to_size_t (x : Z) : Z := x mod 2 ^ 64.

Definition INT_MAX : Z := 2 ^ 31 - 1.

(** The object representation of an [int32_t] / [uint32_t] read from the
    first four bytes of [l]; missing bytes are zero (the destination was
    cleared by [memset]). *)
Definition int32_of (l : list byte) : Z := wrap32 (le_bytes (take 4 l)).
Definition uint32_of (l : list byte) : Z := le_bytes (take 4 l).
Definition uint8_of (l : list byte) : Z := le_bytes (take 1 l).

(** [strcmp] on character arrays: the difference of the first differing
    pair of unsigned characters; the comparison stops at a terminator, and
    the end of the list counts as one. *)
Fixpoint strcmp (a b : list byte) : Z :=
  match a, b with
  | [], [] => 0
  | [], y :: _ => 0 - uchar y
  | x :: _, [] => uchar x
  | x :: a', y :: b' =>
      if uchar x =? uchar y
      then (if uchar x =? 0 then 0 else strcmp a' b')
      else uchar x - uchar y
  end.

(** The C string held by a character array: the bytes before the first
    terminator. *)
Fixpoint c_str (buf : list byte) : list byte :=
  match buf with
  | [] => []
  | b :: r => if uchar b =? 0 then [] else b :: c_str r
  end.

Definition bytes_of (s : string) : list byte := String.list_byte_of_string s.

(** ** Data model (aces.h and the private structures of aces.c) *)

Inductive ACES_ATTRIBUTE_TYPE :=
| ACES_ATTR_UNKNOWN
| ACES_ATTR_BOX2I
| ACES_ATTR_BOX2F
| ACES_ATTR_CHLIST
| ACES_ATTR_CHROMATICITIES
| ACES_ATTR_COMPRESSION
| ACES_ATTR_DOUBLE
| ACES_ATTR_ENVMAP
| ACES_ATTR_FLOAT
| ACES_ATTR_INT
| ACES_ATTR_KEYCODE
| ACES_ATTR_LINEORDER
| ACES_ATTR_M33F
| ACES_ATTR_M44F
| ACES_ATTR_PREVIEW
| ACES_ATTR_RATIONAL
| ACES_ATTR_STRING
| ACES_ATTR_STRING_VECTOR
| ACES_ATTR_TILEDESC
| ACES_ATTR_TIMECODE
| ACES_ATTR_V2I
| ACES_ATTR_V2F
| ACES_ATTR_V3I
| ACES_ATTR_V3F
| ACES_ATTR_USER.

(** The enumerators in declaration order: position [n] is the enumerator
    of value [n]. *)
Definition attribute_types : list ACES_ATTRIBUTE_TYPE :=
  [ ACES_ATTR_UNKNOWN; ACES_ATTR_BOX2I; ACES_ATTR_BOX2F; ACES_ATTR_CHLIST;
    ACES_ATTR_CHROMATICITIES; ACES_ATTR_COMPRESSION; ACES_ATTR_DOUBLE;
    ACES_ATTR_ENVMAP; ACES_ATTR_FLOAT; ACES_ATTR_INT; ACES_ATTR_KEYCODE;
    ACES_ATTR_LINEORDER; ACES_ATTR_M33F; ACES_ATTR_M44F; ACES_ATTR_PREVIEW;
    ACES_ATTR_RATIONAL; ACES_ATTR_STRING; ACES_ATTR_STRING_VECTOR;
    ACES_ATTR_TILEDESC; ACES_ATTR_TIMECODE; ACES_ATTR_V2I; ACES_ATTR_V2F;
    ACES_ATTR_V3I; ACES_ATTR_V3F; ACES_ATTR_USER ].

(** The cast [(ACES_ATTRIBUTE_TYPE)( n )]. *)
Definition attribute_type_of_nat (n : nat) : ACES_ATTRIBUTE_TYPE :=
  nth n attribute_types ACES_ATTR_UNKNOWN.

Inductive ACES_STORAGE_TYPE := ACES_STORAGE_SCANLINE | ACES_STORAGE_TILED.

(** Values of [ACES_COMPRESSION_TYPE]; the header keeps the compression
    as a [uint8_t]. *)
Definition ACES_COMPRESSION_NONE : Z := 0.
Definition ACES_COMPRESSION_RLE : Z := 1.
Definition ACES_COMPRESSION_ZIPS : Z := 2.
Definition ACES_COMPRESSION_ZIP : Z := 3.
Definition ACES_COMPRESSION_PIZ : Z := 4.
Definition ACES_COMPRESSION_PXR24 : Z := 5.
Definition ACES_COMPRESSION_B44 : Z := 6.
Definition ACES_COMPRESSION_B44A : Z := 7.

Record aces_attr_box2i := {
  x_min : Z; y_min : Z; x_max : Z; y_max : Z
}.

(** Floats are kept as their 32-bit patterns: the reader only copies them. *)
Record aces_attr_v2f := { v2f_x : Z; v2f_y : Z }.

Record aces_attr_tiledesc := {
  x_size : Z; y_size : Z; level_type : Z; round_mode : Z
}.

Record aces_attr_chlist_entry := {
  name : list byte;          (* char name[32], as a C string *)
  pixel_type : Z;
  p_linear : Z;
  reserved : list byte;
  x_sampling : Z;
  y_sampling : Z
}.

(** [entries] is the array behind the pointer; [None] is [NULL]. *)
Record aces_attr_chlist := {
  num_channels : Z;
  entries : option (list aces_attr_chlist_entry)
}.

Record aces_attr_string := {
  length_ : Z;                       (* int32_t length *)
  str : option (list byte)
}.

Record aces_attr_userdata := {
  size_ : Z;                         (* size_t size *)
  data : option (list byte)
}.

Record aces_attr_preview := {
  width : Z; height : Z;
  rgba : option (list byte)
}.

(** The anonymous union of [aces_attribute].  The fixed-size members are
    filled by a raw read at the start of the union, so they are kept as
    the bytes read ([u_raw]; the cleared union is [u_raw []]); the members
    that own a buffer are kept as structures. *)
Inductive attr_union :=
| u_raw (image : list byte)
| u_chlist (c : aces_attr_chlist)
| u_preview (p : aces_attr_preview)
| u_string (s : aces_attr_string)
| u_userdata (d : aces_attr_userdata).

Record aces_attribute := {
  type_name : option (list byte);
  type : ACES_ATTRIBUTE_TYPE;
  u : attr_union
}.

(** [memset( attr, 0, sizeof(aces_attribute) )]. *)
Definition zero_attribute : aces_attribute :=
  {| type_name := None; type := ACES_ATTR_UNKNOWN; u := u_raw [] |}.

Record ACES_PRIVATE_FILE := {
  storage_mode : ACES_STORAGE_TYPE;
  channels : aces_attr_chlist;
  compression : Z;
  data_window : aces_attr_box2i;
  display_window : aces_attr_box2i;
  line_order : Z;
  pixel_aspect_ratio : Z;
  screen_window_center : aces_attr_v2f;
  screen_window_width : Z;
  tile_info : aces_attr_tiledesc;
  user_attributes : list (list byte * aces_attribute)
}.

(** Messages given to the error callback, one constructor per
    [print_error] call of the reader. *)
Inductive error_message :=
| InvalidEmptyFilename
| FileStructAllocFailed
| OpenFailed
| EofInName (kind : string) (attrname : list byte)
| NameTooLong (kind : string) (attrname : list byte)
| SizeMismatch (nativesize : Z) (tname : list byte) (given : Z)
| AttrDataEof (tname : list byte)
| StringAllocFailed (ssize : Z)
| StringEof (ssize : Z)
| UserDataAllocFailed (size : Z)
| UserDataEof (size : Z)
| PreviewTooSmall
| PreviewDimsEof
| PreviewAllocFailed (w h : Z)
| PreviewDataEof (nToR : Z)
| ChlistTmpAllocFailed
| ChlistAllocFailed (n : Z)
| AttrSizeEof (attrname : list byte)
| UnknownAttrType (attrname tname : list byte)
| MissingRequiredAttribute (attrname : string)
| MagicVersionEof
| BadMagic (magic : Z)
| UnsupportedVersion (version : Z)
| UnknownCompressionType (c : Z).

(** [__ACES_INTERNAL_FILE_DATA], together with what the callbacks act on:
    [user_file] is the unread remainder of the stream, [errors] what the
    error callback has received and [mallocs] the sizes requested from the
    allocator, both oldest first. *)
Record file_data := {
  user_data : ACES_PRIVATE_FILE;
  given_filename : list byte;
  user_file : list byte;
  fd : Z;
  cur_file_pos : Z;
  errors : list error_message;
  mallocs : list Z
}.

Definition set_user_data (p : ACES_PRIVATE_FILE) (f : file_data) : file_data :=
  {| user_data := p; given_filename := given_filename f;
     user_file := user_file f; fd := fd f; cur_file_pos := cur_file_pos f;
     errors := errors f; mallocs := mallocs f |}.

Definition set_user_file (s : list byte) (f : file_data) : file_data :=
  {| user_data := user_data f; given_filename := given_filename f;
     user_file := s; fd := fd f; cur_file_pos := cur_file_pos f;
     errors := errors f; mallocs := mallocs f |}.

Definition set_cur_file_pos (p : Z) (f : file_data) : file_data :=
  {| user_data := user_data f; given_filename := given_filename f;
     user_file := user_file f; fd := fd f; cur_file_pos := p;
     errors := errors f; mallocs := mallocs f |}.

Definition set_errors (e : list error_message) (f : file_data) : file_data :=
  {| user_data := user_data f; given_filename := given_filename f;
     user_file := user_file f; fd := fd f; cur_file_pos := cur_file_pos f;
     errors := e; mallocs := mallocs f |}.

Definition set_mallocs (m : list Z) (f : file_data) : file_data :=
  {| user_data := user_data f; given_filename := given_filename f;
     user_file := user_file f; fd := fd f; cur_file_pos := cur_file_pos f;
     errors := errors f; mallocs := m |}.

(** ** The state monad of the reader

    Every function of the reader takes the file structure by pointer and
    updates it in place. *)

Definition M (A : Type) : Type := file_data -> A * file_data.

#[global] Instance M_ret : MRet M := fun A (a : A) f => (a, f).

#[global] Instance M_bind : MBind M :=
  fun A B (k : A -> M B) (c : M A) f => let (a, f') := c f in k a f'.

(** [f->readfn( f->user_file, buf, size )] with [default_read_func]:
    the number of bytes read and the bytes themselves. *)
Definition readfn (size : Z) : M (Z * list byte) :=
  fun f =>
    let got := take (Z.to_nat size) (user_file f) in
    ((Z.of_nat (length got), got),
     set_user_file (drop (Z.to_nat size) (user_file f)) f).

(** [f->cur_file_pos += n]. *)
Definition advance (n : Z) : M unit :=
  fun f => (tt, set_cur_file_pos (cur_file_pos f + n) f).

Definition get_user_data : M ACES_PRIVATE_FILE :=
  fun f => (user_data f, f).

(** [print_error( f, fmt, ... )]: the formatted message reaches the error
    callback. *)
Definition print_error (e : error_message) : M unit :=
  fun f => (tt, set_errors (errors f ++ [e]) f).

(** ** Releasing a handle

    [aces_close] is about ownership, so it is modelled over a heap of
    allocated blocks.  A block records what [aces_close] reads of it. *)

Module Memory.

Abbreviation loc := positive.

(** What [release_attribute_memory] looks at in an [aces_attribute]: the
    tag, [type_name], and the pointer member of the union ([chlist.entries],
    [preview.rgba], [string.str] or [userdata.data]). *)
Record attr_pointers := {
  ap_type : ACES_ATTRIBUTE_TYPE;
  ap_type_name : option loc;
  ap_buffer : option loc
}.

Inductive block :=
| file_block (entries : option loc) (user_attributes : option loc) (fd : Z)
| user_attr_block (data : attr_pointers) (next : option loc)
| buffer_block.

(** The allocated blocks and the descriptors given to [close]. *)
Record memory := {
  heap : gmap loc block;
  closed : list Z
}.

Inductive fault :=
| dangling (l : loc)       (* the block at [l] is not allocated (any more) *)
| wrong_block (l : loc).   (* the block at [l] is not of the kind accessed *)

(** [out_of_fuel] is the model's, not the program's: see
    [free_user_attributes_fuel]. *)
Inductive outcome :=
| Done (m : memory)
| Fault (e : fault)
| out_of_fuel.

Definition and_then (r : outcome) (k : memory -> outcome) : outcome :=
  match r with
  | Done m => k m
  | other => other
  end.

(** [free( p )] for a non-null [p]. *)
Definition free (l : loc) (m : memory) : outcome :=
  match heap m !! l with
  | Some _ => Done {| heap := delete l (heap m); closed := closed m |}
  | None => Fault (dangling l)
  end.

(** [if ( p ) free( p )]. *)
Definition free_if_set (p : option loc) (m : memory) : outcome :=
  match p with
  | Some l => free l m
  | None => Done m
  end.

Definition free_file_data_struct (f : option loc) (m : memory) : outcome :=
  free_if_set f m.

Definition release_attribute_memory (attr : attr_pointers) (m : memory)
  : outcome :=
  match ap_type attr with
  | ACES_ATTR_CHLIST => free_if_set (ap_buffer attr) m
  | ACES_ATTR_PREVIEW => free_if_set (ap_buffer attr) m
  | ACES_ATTR_STRING => free_if_set (ap_buffer attr) m
  | ACES_ATTR_USER =>
      and_then (free_if_set (ap_type_name attr) m)
               (free_if_set (ap_buffer attr))
  | _ => Done m
  end.

(** The [while ( cur_ua != NULL )] loop of [aces_close]. *)
Fixpoint free_user_attributes (fuel : nat) (cur_ua : option loc) (m : memory)
  : outcome :=
  match cur_ua with
  | None => Done m
  | Some c =>
      match heap m !! c with
      | Some (user_attr_block data next_ua) =>
          match fuel with
          | O => out_of_fuel
          | S fuel' =>
              and_then (release_attribute_memory data m) (fun m =>
              and_then (free c m) (fun m =>
              free_user_attributes fuel' next_ua m))
          end
      | Some _ => Fault (wrong_block c)
      | None => Fault (dangling c)
      end
  end.

(** [aces_close]; [f] is [None] for a null pointer.  Every turn of the
    loop frees a block, so the size of the heap bounds their number. *)
Definition aces_close (f : option loc) (m : memory) : outcome :=
  match f with
  | None => Done m
  | Some l =>
      match heap m !! l with
      | Some (file_block entries user_attributes fd) =>
          and_then (free_if_set entries m) (fun m =>
          and_then (free_user_attributes (size (heap m)) user_attributes m)
            (fun m =>
          (* pf->user_attributes = NULL *)
          let m := {| heap := <[l := file_block entries None fd]> (heap m);
                      closed := closed m |} in
          let m := if 0 <=? fd
                   then {| heap := heap m; closed := closed m ++ [fd] |}
                   else m in
          free_file_data_struct (Some l) m))
      | Some _ => Fault (wrong_block l)
      | None => Fault (dangling l)
      end
  end.

(** *** Opening a file: the file structure and its descriptor *)

(** [alloc_file_data_struct].  [l] is what [malloc] returns, [None] for a
    null pointer.  The block is cleared by [memset]: its pointers are
    null and its descriptor is 0. *)
Definition alloc_file_data_struct (l : option loc) (m : memory)
  : option loc * memory :=
  match l with
  | None => (None, m)
  | Some l =>
      (Some l, {| heap := <[l := file_block None None 0]> (heap m);
                  closed := closed m |})
  end.

(** [ret->fd = fd]. *)
Definition set_fd (ret : loc) (fd : Z) (m : memory) : memory :=
  match heap m !! ret with
  | Some (file_block entries user_attributes _) =>
      {| heap := <[ret := file_block entries user_attributes fd]> (heap m);
         closed := closed m |}
  | _ => m
  end.

Section Open.

(** What [read_header] does to the heap, given the address of the file
    structure; the reader itself is modelled below, over the content of
    the structure. *)
Variable read_header : loc -> memory -> Z * memory.

(** [aces_start_read] on the heap: the handle it returns and the heap it
    leaves.  [l] is the result of the allocation and [opened] that of
    [open], [None] for -1. *)
Definition aces_start_read (filename : option (list byte)) (l : option loc)
  (opened : option Z) (m : memory) : option loc * outcome :=
  match filename with
  | None | Some [] => (None, Done m)
  | Some _ =>
      match alloc_file_data_struct l m with
      | (None, m) => (None, Done m)
      | (Some ret, m) =>
          match opened with
          | None => (None, aces_close (Some ret) m)
          | Some fd =>
              let m := set_fd ret fd m in
              let (r, m) := read_header ret m in
              if r <? 0 then (None, aces_close (Some ret) m)
              else (Some ret, Done m)
          end
      end
  end.

End Open.

(** *** The blocks of a handle *)

(** The blocks [release_attribute_memory] frees for an attribute, in the
    order it frees them. *)
Definition attr_blocks (a : attr_pointers) : list loc :=
  match ap_type a with
  | ACES_ATTR_CHLIST | ACES_ATTR_PREVIEW | ACES_ATTR_STRING =>
      option_list (ap_buffer a)
  | ACES_ATTR_USER =>
      option_list (ap_type_name a) ++ option_list (ap_buffer a)
  | _ => []
  end.

(** [user_attribute_list h cur nodes]: in the heap [h], the list of user
    attributes that starts at [cur] is made of the nodes [nodes], each
    with the pointers of its attribute. *)
Fixpoint user_attribute_list (h : gmap loc block) (cur : option loc)
  (nodes : list (loc * attr_pointers)) : Prop :=
  match nodes with
  | [] => cur = None
  | (c, a) :: nodes' =>
      cur = Some c
      /\ exists next, h !! c = Some (user_attr_block a next)
                      /\ user_attribute_list h next nodes'
  end.

Definition node_blocks (nodes : list (loc * attr_pointers)) : list loc :=
  concat (map (fun n => attr_blocks (snd n) ++ [fst n]) nodes).

(** All the blocks of a handle: the channel array, the nodes of the user
    attributes with the buffers they own, and the file structure. *)
Definition handle_blocks (l : loc) (entries : option loc)
  (nodes : list (loc * attr_pointers)) : list loc :=
  option_list entries ++ node_blocks nodes ++ [l].

(** [released ls m m']: [m'] is [m] without the blocks [ls]. *)
Definition released (ls : list loc) (m m' : memory) : Prop :=
  forall k, heap m' !! k = if bool_decide (k ∈ ls) then None else heap m !! k.

End Memory.

(** ** The reader *)

Section Reader.

(** The allocator: [malloc_ok k n] tells whether the request number [k]
    (counted from 0), of [n] bytes, succeeds. *)
Variable malloc_ok : nat -> Z -> bool.

Definition malloc (size : Z) : M bool :=
  fun f => (malloc_ok (length (mallocs f)) size,
            set_mallocs (mallocs f ++ [size]) f).

(** An uninitialised [char [32]] local.  Its content is indeterminate in C;
    the embedding starts it cleared.  Only the text of the two name-error
    messages could show the difference. *)
Definition char32 : list byte := replicate 32 NUL.

(** [read_string]: the loop [while ( pos < 32 )], [n] being [32 - pos].
    Returns the C result and the array as the callee leaves it. *)
Fixpoint read_string_loop (n pos : nat) (attrname : list byte) (kind : string)
  : M (Z * list byte) :=
  match n with
  | O =>
      (* pos == 32 *)
      let attrname := <[31%nat := NUL]> attrname in
      print_error (NameTooLong kind (c_str attrname));;
      mret (-1, attrname)
  | S n' =>
      '(rc, got) ← readfn 1;
      advance 1;;
      if negb (rc =? 1) then
        print_error (EofInName kind attrname);;
        mret (-1, attrname)
      else
        let b := default NUL (head got) in
        let attrname := <[pos := b]> attrname in
        if uchar b =? 0 then mret (Z.of_nat pos, attrname)
        else read_string_loop n' (S pos) attrname kind
  end.

Definition read_string (attrname : list byte) (kind : string)
  : M (Z * list byte) :=
  read_string_loop 32 0 attrname kind.

Definition the_predefined_attr_typenames : list string :=
  [ "box2i"; "box2f"; "chlist"; "chromaticities"; "compression"; "double";
    "envmap"; "float"; "int"; "keycode"; "lineOrder"; "m33f"; "m44f";
    "preview"; "rational"; "string"; "stringvector"; "tiledesc"; "timecode";
    "v2i"; "v2f"; "v3i"; "v3f" ]%string.

(** The [for] loop of [attr_name_to_type] over the rest of the table. *)
Fixpoint attr_name_lookup (table : list string) (idx : nat)
  (attrname : list byte) : ACES_ATTRIBUTE_TYPE :=
  match table with
  | [] => ACES_ATTR_USER
  | t :: table' =>
      if strcmp (bytes_of t) attrname =? 0
      then attribute_type_of_nat (idx + 1)
      else attr_name_lookup table' (S idx) attrname
  end.

Definition attr_name_to_type (attrname : list byte) : ACES_ATTRIBUTE_TYPE :=
  match attrname with
  | [] => ACES_ATTR_UNKNOWN
  | _ => attr_name_lookup the_predefined_attr_typenames 0 attrname
  end.

(** [attr_check_size_and_read]: the C result and the bytes stored at
    [data] (none when the size check fails). *)
Definition attr_check_size_and_read (given nativesize : Z) (tname : list byte)
  : M (Z * list byte) :=
  if negb (to_size_t given =? nativesize) then
    print_error (SizeMismatch nativesize tname given);;
    mret (-1, [])
  else
    '(nr, got) ← readfn nativesize;
    advance nr;;
    if negb (to_size_t nr =? nativesize) then
      print_error (AttrDataEof tname);;
      mret (-1, got)
    else mret (1, got).

(** [attr_read_string], with the [#else] branch of its conditional
    compilation: [ssize = size]. *)
Definition attr_read_string (size : Z) : M (Z * aces_attr_string) :=
  let ssize := size in
  ok ← malloc (to_size_t (to_size_t ssize * 1));
  if negb ok then
    print_error (StringAllocFailed ssize);;
    mret (-1, {| length_ := ssize; str := None |})
  else
    '(nr, outstr) ← readfn (to_size_t ssize);
    advance nr;;
    if negb (nr =? ssize) then
      print_error (StringEof ssize);;
      mret (-1, {| length_ := ssize; str := None |})
    else mret (1, {| length_ := ssize; str := Some outstr |}).

Definition attr_read_userdata (size : Z) : M (Z * aces_attr_userdata) :=
  ok ← malloc (to_size_t (to_size_t size * 1));
  if negb ok then
    print_error (UserDataAllocFailed size);;
    mret (-1, {| size_ := to_size_t size; data := None |})
  else
    '(nr, dstdata) ← readfn (to_size_t size);
    advance nr;;
    if negb (nr =? size) then
      print_error (UserDataEof size);;
      mret (-1, {| size_ := to_size_t size; data := None |})
    else mret (1, {| size_ := to_size_t size; data := Some dstdata |}).

Definition attr_read_preview (size : Z) : M (Z * aces_attr_preview) :=
  if size <=? 4 then
    print_error PreviewTooSmall;;
    mret (-1, {| width := 0; height := 0; rgba := None |})
  else
    '(nr, dims) ← readfn (2 * 4);
    advance nr;;
    if negb (to_size_t nr =? 2 * 4) then
      print_error PreviewDimsEof;;
      mret (-1, {| width := 0; height := 0; rgba := None |})
    else
      let dims0 := uint32_of dims in
      let dims1 := uint32_of (drop 4 dims) in
      (* 4 * dims[0] * dims[1] is computed in unsigned int *)
      let nToR := to_size_t (to_uint32 (to_uint32 (4 * dims0) * dims1) * 1) in
      ok ← malloc nToR;
      if negb ok then
        print_error (PreviewAllocFailed dims0 dims1);;
        mret (-1, {| width := dims0; height := dims1; rgba := None |})
      else
        '(nr, rgbaptr) ← readfn nToR;
        advance nr;;
        if negb (to_size_t nr =? nToR) then
          print_error (PreviewDataEof nToR);;
          mret (-1, {| width := dims0; height := dims1; rgba := None |})
        else
          mret (1, {| width := dims0; height := dims1; rgba := Some rgbaptr |}).

(** [sizeof(struct tmp_ch_list)] and [sizeof(aces_attr_chlist_entry)]. *)
Definition sizeof_tmp_ch_list : Z := 56.
Definition sizeof_chlist_entry : Z := 48.

(** The sorted insertion into the temporary list: the new node goes in
    front of the first node whose name is greater than its own. *)
Fixpoint insert_sorted (new_chan : aces_attr_chlist_entry)
  (channel_list : list aces_attr_chlist_entry) : list aces_attr_chlist_entry :=
  match channel_list with
  | [] => [new_chan]
  | cur_chan :: next =>
      if strcmp (name new_chan) (name cur_chan) <? 0
      then new_chan :: channel_list
      else cur_chan :: insert_sorted new_chan next
  end.

(** The five field reads of one channel; [None] when one of them fails. *)
Definition read_chlist_fields (chstr : list byte)
  : M (option aces_attr_chlist_entry) :=
  '(r, pt) ← attr_check_size_and_read 4 4 (bytes_of "channel pixel type");
  if r <? 0 then mret None else
  '(r, pl) ← attr_check_size_and_read 1 1 (bytes_of "channel linear flag");
  if r <? 0 then mret None else
  '(r, rs) ← attr_check_size_and_read (3 * 1) (3 * 1) (bytes_of "channel padding");
  if r <? 0 then mret None else
  '(r, xs) ← attr_check_size_and_read 4 4 (bytes_of "channel x sampling");
  if r <? 0 then mret None else
  '(r, ys) ← attr_check_size_and_read 4 4 (bytes_of "channel y sampling");
  if r <? 0 then mret None else
  mret (Some {| name := c_str chstr; pixel_type := int32_of pt;
                p_linear := uint8_of pl; reserved := rs;
                x_sampling := int32_of xs; y_sampling := int32_of ys |}).

(** The [while ( read_string( f, chstr, "channel" ) )] loop.  The result is
    [ret], [dest->num_channels] and the temporary list; [None] only when
    the fuel runs out. *)
Fixpoint attr_read_chlist_loop (fuel : nat) (chstr : list byte)
  (channel_list : list aces_attr_chlist_entry) (num_channels : Z)
  : M (option (Z * Z * list aces_attr_chlist_entry)) :=
  match fuel with
  | O => mret None
  | S fuel' =>
      '(rs, chstr) ← read_string chstr "channel";
      if rs =? 0 then mret (Some (1, num_channels, channel_list))
      else
        ok ← malloc sizeof_tmp_ch_list;
        if negb ok then
          print_error ChlistTmpAllocFailed;;
          mret (Some (-1, 0, channel_list))
        else
          e ← read_chlist_fields chstr;
          match e with
          | None => mret (Some (-1, 0, channel_list))
          | Some new_chan =>
              attr_read_chlist_loop fuel' chstr
                (insert_sorted new_chan channel_list)
                (wrap32 (num_channels + 1))
          end
  end.

(** [attr_read_chlist].  Every turn of the loop that goes on has consumed
    bytes, so the length of the stream bounds the number of turns
    ([attr_read_chlist_loop_fuel]). *)
Definition attr_read_chlist (size : Z) : M (Z * aces_attr_chlist) :=
  fun f =>
  (r ← attr_read_chlist_loop (S (length (user_file f))) char32 [] 0;
   match r with
   | None =>
       (* not reached: attr_read_chlist_loop_fuel *)
       mret (-1, {| num_channels := 0; entries := None |})
   | Some (ret, n, channel_list) =>
       if n >? 0 then
         ok ← malloc (to_size_t (to_size_t n * sizeof_chlist_entry));
         if negb ok then
           print_error (ChlistAllocFailed n);;
           mret (-1, {| num_channels := n; entries := None |})
         else
           mret (ret, {| num_channels := n;
                         entries := Some (take (Z.to_nat n) channel_list) |})
       else mret (ret, {| num_channels := n; entries := None |})
   end) f.

(** *** Reading an inactive member of the union

    [add_attribute] copies a member chosen by the attribute's name, whatever
    member the reader filled.  The object representation of the union is
    known where it holds integers: the bytes read for a fixed-size member,
    and the leading integer fields of the members that own a buffer.  The
    bytes that hold a pointer are not modelled and read as zero. *)

Definition byte_of_Z (x : Z) : byte :=
  default NUL (Byte.of_N (Z.to_N (x mod 256))).

Fixpoint le_encode (n : nat) (x : Z) : list byte :=
  match n with
  | O => []
  | S n' => byte_of_Z x :: le_encode n' (x / 256)
  end.

Definition union_image (v : attr_union) : list byte :=
  match v with
  | u_raw image => image
  | u_chlist c => le_encode 4 (num_channels c)
  | u_preview p => le_encode 4 (width p) ++ le_encode 4 (height p)
  | u_string s => le_encode 4 (length_ s)
  | u_userdata d => le_encode 8 (size_ d)
  end.

Definition attr_uc (a : aces_attribute) : Z := uint8_of (union_image (u a)).

Definition attr_f (a : aces_attribute) : Z := uint32_of (union_image (u a)).

Definition attr_box2i (a : aces_attribute) : aces_attr_box2i :=
  let d := union_image (u a) in
  {| x_min := int32_of d; y_min := int32_of (drop 4 d);
     x_max := int32_of (drop 8 d); y_max := int32_of (drop 12 d) |}.

Definition attr_v2f (a : aces_attribute) : aces_attr_v2f :=
  let d := union_image (u a) in
  {| v2f_x := uint32_of d; v2f_y := uint32_of (drop 4 d) |}.

Definition attr_tiledesc (a : aces_attribute) : aces_attr_tiledesc :=
  let d := union_image (u a) in
  {| x_size := uint32_of d; y_size := uint32_of (drop 4 d);
     level_type := uint32_of (drop 8 d); round_mode := uint32_of (drop 12 d) |}.

Definition attr_chlist (a : aces_attribute) : aces_attr_chlist :=
  match u a with
  | u_chlist c => c
  | v => {| num_channels := int32_of (union_image v); entries := None |}
  end.

(** *** read_attribute *)

(** One [case] of the fixed-size attribute types: the size-checked read
    into the member of the union. *)
Definition read_fixed (ty : ACES_ATTRIBUTE_TYPE) (asize nativesize : Z)
  (tname : list byte) : M (Z * aces_attribute) :=
  '(r, got) ← attr_check_size_and_read asize nativesize tname;
  mret (r, {| type_name := None; type := ty; u := u_raw got |}).

(** The [switch ( attr->type )] of [read_attribute], for the attribute
    called [attrname], of type name [tname] and declared size [asize]. *)
Definition read_attribute_value (attrname tname : list byte) (asize : Z)
  : M (Z * aces_attribute) :=
  let ty := attr_name_to_type tname in
  match ty with
  | ACES_ATTR_BOX2I => read_fixed ty asize 16 tname
  | ACES_ATTR_BOX2F => read_fixed ty asize 16 tname
  | ACES_ATTR_CHROMATICITIES => read_fixed ty asize 32 tname
  | ACES_ATTR_COMPRESSION => read_fixed ty asize 1 tname
  | ACES_ATTR_DOUBLE => read_fixed ty asize 8 tname
  | ACES_ATTR_ENVMAP => read_fixed ty asize 1 tname
  | ACES_ATTR_FLOAT => read_fixed ty asize 4 tname
  | ACES_ATTR_INT => read_fixed ty asize 4 tname
  | ACES_ATTR_KEYCODE => read_fixed ty asize 28 tname
  | ACES_ATTR_LINEORDER => read_fixed ty asize 1 tname
  | ACES_ATTR_M33F => read_fixed ty asize 36 tname
  | ACES_ATTR_M44F => read_fixed ty asize 64 tname
  | ACES_ATTR_RATIONAL => read_fixed ty asize 8 tname
  | ACES_ATTR_TILEDESC => read_fixed ty asize 16 tname
  | ACES_ATTR_TIMECODE => read_fixed ty asize 8 tname
  | ACES_ATTR_V2I => read_fixed ty asize 8 tname
  | ACES_ATTR_V2F => read_fixed ty asize 8 tname
  | ACES_ATTR_V3I => read_fixed ty asize 12 tname
  | ACES_ATTR_V3F => read_fixed ty asize 12 tname
  | ACES_ATTR_STRING =>
      '(r, s) ← attr_read_string asize;
      mret (r, {| type_name := None; type := ty; u := u_string s |})
  | ACES_ATTR_PREVIEW =>
      '(r, p) ← attr_read_preview asize;
      mret (r, {| type_name := None; type := ty; u := u_preview p |})
  | ACES_ATTR_CHLIST =>
      '(r, c) ← attr_read_chlist asize;
      mret (r, {| type_name := None; type := ty; u := u_chlist c |})
  | ACES_ATTR_USER =>
      (* strdup( type_name ); its result is not checked *)
      ok ← malloc (Z.of_nat (length tname) + 1);
      '(r, d) ← attr_read_userdata asize;
      mret (r, {| type_name := if negb ok then None else Some tname;
                  type := ty; u := u_userdata d |})
  | _ =>
      (* ACES_ATTR_UNKNOWN and default *)
      print_error (UnknownAttrType attrname tname);;
      mret (-1, {| type_name := None; type := ty; u := u_raw [] |})
  end.

(** [read_attribute]: the result, the name array and the attribute as the
    function leaves them. *)
Definition read_attribute (attrname : list byte)
  : M (Z * list byte * aces_attribute) :=
  let attr := zero_attribute in
  '(pos, attrname) ← read_string attrname "attribute";
  if pos <=? 0 then mret (pos, attrname, attr) else
  '(pos, type_name_buf) ← read_string char32 "type";
  if pos <? 0 then mret (-1, attrname, attr) else
  '(rc, got) ← readfn 4;
  advance rc;;
  if negb (rc =? 4) then
    print_error (AttrSizeEof (c_str attrname));;
    mret (-1, attrname, attr)
  else
    let asize := int32_of got in
    '(r, attr) ← read_attribute_value (c_str attrname)
                   (c_str type_name_buf) asize;
    mret (r, attrname, attr).

(** *** add_attribute and the required-attribute mask *)

Definition REQ_CHANNELS_STR : string := "channels".
Definition REQ_COMP_STR : string := "compression".
Definition REQ_DATA_STR : string := "dataWindow".
Definition REQ_DISP_STR : string := "displayWindow".
Definition REQ_LO_STR : string := "lineOrder".
Definition REQ_PAR_STR : string := "pixelAspectRatio".
Definition REQ_SCR_WC_STR : string := "screenWindowCenter".
Definition REQ_SCR_WW_STR : string := "screenWindowWidth".
Definition REQ_TILES_STR : string := "tiles".

Definition REQ_CHANNELS_MASK : Z := 0x0001.
Definition REQ_COMP_MASK : Z := 0x0002.
Definition REQ_DATA_MASK : Z := 0x0004.
Definition REQ_DISP_MASK : Z := 0x0008.
Definition REQ_LO_MASK : Z := 0x0010.
Definition REQ_PAR_MASK : Z := 0x0020.
Definition REQ_SCR_WC_MASK : Z := 0x0040.
Definition REQ_SCR_WW_MASK : Z := 0x0080.
Definition REQ_TILES_MASK : Z := 0x0100.

(** [sizeof(aces_user_attribute_list)]. *)
Definition sizeof_user_attribute : Z := 128.

(** [! strcmp( attrname, s )]. *)
Definition name_is (attrname : list byte) (s : string) : bool :=
  strcmp (c_str attrname) (bytes_of s) =? 0.

Definition add_attribute_to (f : ACES_PRIVATE_FILE) (attrname : list byte)
  (attr : aces_attribute) : Z * ACES_PRIVATE_FILE :=
  let with_user_attribute :=
    (0, {| storage_mode := storage_mode f; channels := channels f;
           compression := compression f; data_window := data_window f;
           display_window := display_window f; line_order := line_order f;
           pixel_aspect_ratio := pixel_aspect_ratio f;
           screen_window_center := screen_window_center f;
           screen_window_width := screen_window_width f;
           tile_info := tile_info f;
           user_attributes :=
             user_attributes f ++ [(c_str attrname, attr)] |}) in
  if name_is attrname REQ_CHANNELS_STR then
    (REQ_CHANNELS_MASK,
     {| storage_mode := storage_mode f; channels := attr_chlist attr;
        compression := compression f; data_window := data_window f;
        display_window := display_window f; line_order := line_order f;
        pixel_aspect_ratio := pixel_aspect_ratio f;
        screen_window_center := screen_window_center f;
        screen_window_width := screen_window_width f;
        tile_info := tile_info f; user_attributes := user_attributes f |})
  else if name_is attrname REQ_COMP_STR then
    (REQ_COMP_MASK,
     {| storage_mode := storage_mode f; channels := channels f;
        compression := attr_uc attr; data_window := data_window f;
        display_window := display_window f; line_order := line_order f;
        pixel_aspect_ratio := pixel_aspect_ratio f;
        screen_window_center := screen_window_center f;
        screen_window_width := screen_window_width f;
        tile_info := tile_info f; user_attributes := user_attributes f |})
  else if name_is attrname REQ_DATA_STR then
    (REQ_DATA_MASK,
     {| storage_mode := storage_mode f; channels := channels f;
        compression := compression f; data_window := attr_box2i attr;
        display_window := display_window f; line_order := line_order f;
        pixel_aspect_ratio := pixel_aspect_ratio f;
        screen_window_center := screen_window_center f;
        screen_window_width := screen_window_width f;
        tile_info := tile_info f; user_attributes := user_attributes f |})
  else if name_is attrname REQ_DISP_STR then
    (REQ_DISP_MASK,
     {| storage_mode := storage_mode f; channels := channels f;
        compression := compression f; data_window := data_window f;
        display_window := attr_box2i attr; line_order := line_order f;
        pixel_aspect_ratio := pixel_aspect_ratio f;
        screen_window_center := screen_window_center f;
        screen_window_width := screen_window_width f;
        tile_info := tile_info f; user_attributes := user_attributes f |})
  else if name_is attrname REQ_LO_STR then
    (REQ_LO_MASK,
     {| storage_mode := storage_mode f; channels := channels f;
        compression := compression f; data_window := data_window f;
        display_window := display_window f; line_order := attr_uc attr;
        pixel_aspect_ratio := pixel_aspect_ratio f;
        screen_window_center := screen_window_center f;
        screen_window_width := screen_window_width f;
        tile_info := tile_info f; user_attributes := user_attributes f |})
  else if name_is attrname REQ_PAR_STR then
    (REQ_PAR_MASK,
     {| storage_mode := storage_mode f; channels := channels f;
        compression := compression f; data_window := data_window f;
        display_window := display_window f; line_order := line_order f;
        pixel_aspect_ratio := attr_f attr;
        screen_window_center := screen_window_center f;
        screen_window_width := screen_window_width f;
        tile_info := tile_info f; user_attributes := user_attributes f |})
  else if name_is attrname REQ_SCR_WC_STR then
    (REQ_SCR_WC_MASK,
     {| storage_mode := storage_mode f; channels := channels f;
        compression := compression f; data_window := data_window f;
        display_window := display_window f; line_order := line_order f;
        pixel_aspect_ratio := pixel_aspect_ratio f;
        screen_window_center := attr_v2f attr;
        screen_window_width := screen_window_width f;
        tile_info := tile_info f; user_attributes := user_attributes f |})
  else if name_is attrname REQ_SCR_WW_STR then
    (REQ_SCR_WW_MASK,
     {| storage_mode := storage_mode f; channels := channels f;
        compression := compression f; data_window := data_window f;
        display_window := display_window f; line_order := line_order f;
        pixel_aspect_ratio := pixel_aspect_ratio f;
        screen_window_center := screen_window_center f;
        screen_window_width := attr_f attr;
        tile_info := tile_info f; user_attributes := user_attributes f |})
  else if name_is attrname REQ_TILES_STR then
    match storage_mode f with
    | ACES_STORAGE_TILED =>
        (REQ_TILES_MASK,
         {| storage_mode := storage_mode f; channels := channels f;
            compression := compression f; data_window := data_window f;
            display_window := display_window f; line_order := line_order f;
            pixel_aspect_ratio := pixel_aspect_ratio f;
            screen_window_center := screen_window_center f;
            screen_window_width := screen_window_width f;
            tile_info := attr_tiledesc attr;
            user_attributes := user_attributes f |})
    | ACES_STORAGE_SCANLINE => with_user_attribute
    end
  else with_user_attribute.

(** [add_attribute].  It returns 0 exactly on the path that appends a
    user attribute.  The node of that path is requested from the allocator
    and used unchecked: a failed request is a null dereference in the
    [memset] that follows, which the embedding does not follow. *)
Definition add_attribute (attrname : list byte) (attr : aces_attribute)
  : M Z :=
  fun f =>
    let (mask, p) := add_attribute_to (user_data f) attrname attr in
    if mask =? 0
    then (mask, set_user_data p (snd (malloc sizeof_user_attribute f)))
    else (mask, set_user_data p f).

Definition check_attr_mask (v mask : Z) (name : string) : M Z :=
  if Z.land v mask =? 0 then
    print_error (MissingRequiredAttribute name);;
    mret 1
  else mret 0.

Definition report_missing_attributes (accumAttrsRead : Z) : M Z :=
  let numMissing := 0 in
  n ← check_attr_mask accumAttrsRead REQ_CHANNELS_MASK REQ_CHANNELS_STR;
  let numMissing := numMissing + n in
  n ← check_attr_mask accumAttrsRead REQ_COMP_MASK REQ_COMP_STR;
  let numMissing := numMissing + n in
  n ← check_attr_mask accumAttrsRead REQ_DATA_MASK REQ_DATA_STR;
  let numMissing := numMissing + n in
  n ← check_attr_mask accumAttrsRead REQ_DISP_MASK REQ_DISP_STR;
  let numMissing := numMissing + n in
  n ← check_attr_mask accumAttrsRead REQ_LO_MASK REQ_LO_STR;
  let numMissing := numMissing + n in
  n ← check_attr_mask accumAttrsRead REQ_PAR_MASK REQ_PAR_STR;
  let numMissing := numMissing + n in
  n ← check_attr_mask accumAttrsRead REQ_SCR_WC_MASK REQ_SCR_WC_STR;
  let numMissing := numMissing + n in
  n ← check_attr_mask accumAttrsRead REQ_SCR_WW_MASK REQ_SCR_WW_STR;
  let numMissing := numMissing + n in
  pf ← get_user_data;
  match storage_mode pf with
  | ACES_STORAGE_TILED =>
      n ← check_attr_mask accumAttrsRead REQ_TILES_MASK REQ_TILES_STR;
      mret (numMissing + n)
  | ACES_STORAGE_SCANLINE => mret numMissing
  end.

(** *** read_header *)

(** Conversion to [uint16_t]. *)
Definition to_uint16 (x : Z) : Z := x mod 2 ^ 16.

Definition set_storage_mode (m : ACES_STORAGE_TYPE) : M unit :=
  fun f =>
    let p := user_data f in
    (tt, set_user_data
           {| storage_mode := m; channels := channels p;
              compression := compression p; data_window := data_window p;
              display_window := display_window p; line_order := line_order p;
              pixel_aspect_ratio := pixel_aspect_ratio p;
              screen_window_center := screen_window_center p;
              screen_window_width := screen_window_width p;
              tile_info := tile_info p;
              user_attributes := user_attributes p |} f).

(** The [do ... while ( rda == 1 )] loop of [read_header]: the last [rda]
    and the accumulated [reqMask]; [None] only when the fuel runs out. *)
Fixpoint read_header_loop (fuel : nat) (attrname : list byte) (reqMask : Z)
  : M (option (Z * Z)) :=
  match fuel with
  | O => mret None
  | S fuel' =>
      '(rda, attrname, curattr) ← read_attribute attrname;
      if rda =? 1 then
        m ← add_attribute attrname curattr;
        read_header_loop fuel' attrname (to_uint16 (Z.lor reqMask m))
      else mret (Some (rda, reqMask))
  end.

(** The loop from the current position.  An attribute that is read takes
    bytes from the stream, so the length of the stream bounds the number
    of turns ([read_header_loop_fuel]). *)
Definition read_header_attributes : M (option (Z * Z)) :=
  fun f => read_header_loop (S (length (user_file f))) char32 0 f.

(** The statements of [read_header] after its loop. *)
Definition read_header_exit (rda reqMask : Z) : M Z :=
  (* EXIT POINT *)
  if rda <? 0 then mret rda
  else
    n ← report_missing_attributes reqMask;
    if negb (n =? 0) then mret (-1) else mret 0.

Definition read_header : M Z :=
  '(nr, magic_version) ← readfn (4 * 2);
  if negb (to_size_t nr =? 4 * 2) then
    print_error MagicVersionEof;;
    mret (-1)
  else
    advance (4 * 2);;
    let magic := int32_of magic_version in
    let version := int32_of (drop 4 magic_version) in
    if negb (magic =? 20000630) then
      print_error (BadMagic magic);;
      mret (-1)
    else if negb (version =? 0x2) && negb (version =? 0x202) then
      print_error (UnsupportedVersion version);;
      mret (-1)
    else
      set_storage_mode (if version =? 0x202 then ACES_STORAGE_TILED
                        else ACES_STORAGE_SCANLINE);;
      r ← read_header_attributes;
      match r with
      | None =>
          (* not reached: read_header_loop_fuel *)
          mret (-1)
      | Some (rda, reqMask) => read_header_exit rda reqMask
      end.

(** *** aces_start_read *)

(** The file system: [os_open name] is the descriptor and the content of
    the file that [open( name, O_RDONLY )] opens, if it opens one. *)
Variable os_open : list byte -> option (Z * list byte).

(** [sizeof(__ACES_INTERNAL_FILE_DATA)]. *)
Definition sizeof_file_data : Z := 416.

(** The structure as [alloc_file_data_struct] clears it. *)
Definition zero_private_file : ACES_PRIVATE_FILE :=
  {| storage_mode := ACES_STORAGE_SCANLINE;
     channels := {| num_channels := 0; entries := None |};
     compression := 0;
     data_window := {| x_min := 0; y_min := 0; x_max := 0; y_max := 0 |};
     display_window := {| x_min := 0; y_min := 0; x_max := 0; y_max := 0 |};
     line_order := 0;
     pixel_aspect_ratio := 0;
     screen_window_center := {| v2f_x := 0; v2f_y := 0 |};
     screen_window_width := 0;
     tile_info := {| x_size := 0; y_size := 0; level_type := 0; round_mode := 0 |};
     user_attributes := [] |}.

(** The structure of [aces_start_read] when it calls [read_header]:
    cleared, then given the callbacks, the descriptor and the name. *)
Definition opened_file_data (filename : list byte) (fd : Z)
  (contents : list byte) : file_data :=
  {| user_data := zero_private_file;
     given_filename := take 255 filename;
     user_file := contents; fd := fd; cur_file_pos := 0;
     errors := []; mallocs := [sizeof_file_data] |}.

(** What the caller of an open operation gets: the handle ([None] is
    [NULL]) and the messages the error function received. *)
Record open_result := {
  handle : option file_data;
  reported : list error_message
}.

(** [aces_start_read].  [filename] is [None] for a null pointer.  On a
    failure after the allocation the structure is released by
    [aces_close] and [NULL] is returned. *)
Definition aces_start_read (filename : option (list byte)) : open_result :=
  match filename with
  | None | Some [] =>
      {| handle := None; reported := [InvalidEmptyFilename] |}
  | Some filename =>
      if negb (malloc_ok 0 sizeof_file_data) then
        {| handle := None; reported := [FileStructAllocFailed] |}
      else
        match os_open filename with
        | None => {| handle := None; reported := [OpenFailed] |}
        | Some (fd, contents) =>
            let ret := opened_file_data filename fd contents in
            let (r, ret) := read_header ret in
            if r <? 0 then {| handle := None; reported := errors ret |}
            else {| handle := Some ret; reported := errors ret |}
        end
  end.

(** *** Block geometry *)

(** [compute_scanline_block_info]: the values stored through [lines_per]
    and [n_blocks].  The division is C's, truncating. *)
Definition compute_scanline_block_info : M (Z * Z) :=
  pf ← get_user_data;
  let c := compression pf in
  lines_per ←
    (if (c =? ACES_COMPRESSION_NONE) || (c =? ACES_COMPRESSION_RLE)
        || (c =? ACES_COMPRESSION_ZIPS) then mret 1
     else if (c =? ACES_COMPRESSION_ZIP) || (c =? ACES_COMPRESSION_PXR24)
     then mret 16
     else if (c =? ACES_COMPRESSION_PIZ) || (c =? ACES_COMPRESSION_B44)
             || (c =? ACES_COMPRESSION_B44A) then mret 32
     else
       print_error (UnknownCompressionType c);;
       mret (-1));
  let n_lines := wrap32 (y_max (data_window pf) - y_min (data_window pf)) in
  if lines_per >? 0 then
    mret (lines_per,
          Z.quot (wrap32 (wrap32 (n_lines + lines_per) - 1)) lines_per)
  else mret (lines_per, 0).

(** *** Reading the image *)

Definition ACES_TILE_ONE_LEVEL : Z := 0.

Definition ACES_LINEORDER_INCREASING_Y : Z := 0.
Definition ACES_LINEORDER_DECREASING_Y : Z := 1.
Definition ACES_LINEORDER_RANDOM_Y : Z := 2.

(** Messages of the functions that read the image, by kind as for
    [error_message]; they are returned with the result of the call. *)
Inductive image_message :=
| NullFileReference
| OpenedForWrite
| UnallocatedDestination
| Pxr24NotAvailable
| B44NotAvailable
| B44ANotAvailable
| UnknownCompressionNotSupported (c : Z)
| MultiLevelTiles
| RandomYNotSupported
| UnknownLineOrder (lo : Z)
| TileReadingNotSupported
| OffsetTableAllocFailed (num_off : Z)
| OffsetTableEof
| PlaneReadingNotImplemented.

(** [read_check_argument].  [f] is [None] for a null handle;
    [readfn_set] and [writefn_set] tell whether the callbacks of the
    structure are set, [dst_set] whether the destination is not null.
    The storage mode is one of the two enumerators, so the test for an
    unknown storage mode cannot fire and is left out. *)
Definition read_check_argument (f : option file_data)
  (readfn_set writefn_set dst_set : bool) : Z * list image_message :=
  match f with
  | None => (-1, [NullFileReference])
  | Some f =>
      let p := user_data f in
      let c := compression p in
      if negb readfn_set && writefn_set then (-1, [OpenedForWrite])
      else if negb dst_set then (-1, [UnallocatedDestination])
      else if (c =? ACES_COMPRESSION_NONE) || (c =? ACES_COMPRESSION_RLE)
              || (c =? ACES_COMPRESSION_ZIPS) || (c =? ACES_COMPRESSION_ZIP)
              || (c =? ACES_COMPRESSION_PIZ) then
        if match storage_mode p with
           | ACES_STORAGE_TILED =>
               negb (level_type (tile_info p) =? ACES_TILE_ONE_LEVEL)
           | ACES_STORAGE_SCANLINE => false
           end
        then (-1, [MultiLevelTiles])
        else if line_order p =? ACES_LINEORDER_RANDOM_Y
        then (-1, [RandomYNotSupported])
        else if negb (line_order p =? ACES_LINEORDER_INCREASING_Y)
                && negb (line_order p =? ACES_LINEORDER_DECREASING_Y)
        then (-1, [UnknownLineOrder (line_order p)])
        else (0, [])
      else if c =? ACES_COMPRESSION_PXR24 then (-1, [Pxr24NotAvailable])
      else if c =? ACES_COMPRESSION_B44 then (-1, [B44NotAvailable])
      else if c =? ACES_COMPRESSION_B44A then (-1, [B44ANotAvailable])
      else (-1, [UnknownCompressionNotSupported c])
  end.

(** [read_offset_table]: the table read, [None] for a null result. *)
Definition read_offset_table (num_off : Z)
  : M (option (list byte) * list image_message) :=
  let nb := to_size_t (4 * to_size_t num_off) in
  ok ← malloc nb;
  if negb ok then mret (None, [OffsetTableAllocFailed num_off])
  else
    '(nr, ret) ← readfn nb;
    advance nr;;
    if negb (to_size_t nr =? nb) then mret (None, [OffsetTableEof])
    else mret (Some ret, []).

(** [read_scanlines_interleaved]; neither the destination nor the order
    is used. *)
Definition read_scanlines_interleaved : M (Z * list image_message) :=
  '(lpb, nb) ← compute_scanline_block_info;
  '(offsetTable, msgs) ← read_offset_table nb;
  match offsetTable with
  | None => mret (-1, msgs)
  | Some _ => mret (0, msgs)
  end.

Definition read_tiles_interleaved : M (Z * list image_message) :=
  mret (-1, [TileReadingNotSupported]).

(** [aces_get_image] and [aces_get_image_rgba], which differ in the order
    they pass on and nothing uses: the result, the messages and the file
    structure after the call. *)
Definition aces_get_image (f : option file_data)
  (readfn_set writefn_set dst_set : bool)
  : Z * list image_message * option file_data :=
  let (r, msgs) := read_check_argument f readfn_set writefn_set dst_set in
  if negb (r =? 0) then (-1, msgs, f)
  else
    match f with
    | None => (-1, msgs, None)  (* not reached: the check fails *)
    | Some f =>
        let (res, f') :=
          match storage_mode (user_data f) with
          | ACES_STORAGE_SCANLINE => read_scanlines_interleaved f
          | ACES_STORAGE_TILED => read_tiles_interleaved f
          end in
        (fst res, snd res, Some f')
    end.

Definition read_scanlines_plane : M (Z * list image_message) :=
  mret (-1, [PlaneReadingNotImplemented]).

Definition read_tiles_plane : M (Z * list image_message) :=
  mret (-1, [TileReadingNotSupported]).

Definition aces_get_plane (f : option file_data)
  (readfn_set writefn_set dst_set : bool)
  : Z * list image_message * option file_data :=
  let (r, msgs) := read_check_argument f readfn_set writefn_set dst_set in
  if negb (r =? 0) then (-1, msgs, f)
  else
    match f with
    | None => (-1, msgs, None)  (* not reached: the check fails *)
    | Some f =>
        let (res, f') :=
          match storage_mode (user_data f) with
          | ACES_STORAGE_SCANLINE => read_scanlines_plane f
          | ACES_STORAGE_TILED => read_tiles_plane f
          end in
        (fst res, snd res, Some f')
    end.

(** *** Sizes of samples, images and planes *)

Definition ACES_PIXEL_UINT : Z := 0.
Definition ACES_PIXEL_HALF : Z := 1.
Definition ACES_PIXEL_FLOAT : Z := 2.

(** Messages of the size functions and of [aces_read_image], by kind. *)
Inductive size_message :=
| UnknownDataType
| NullFilePointer
| PixelTypeLoopNyi
| EmptyPlaneName
| PlaneNotFound (p : list byte)
| MissingPointerArgument.

Definition aces_get_data_size (datatype : Z) : Z * list size_message :=
  if datatype =? ACES_PIXEL_UINT then (4, [])
  else if datatype =? ACES_PIXEL_HALF then (2, [])
  else if datatype =? ACES_PIXEL_FLOAT then (4, [])
  else (0, [UnknownDataType]).

(** [pf->channels.entries[i]]; [None] when the channel list has no array
    or the array has no such entry: the source does not guard the access. *)
Definition nth_entry (ch : aces_attr_chlist) (i : nat)
  : option aces_attr_chlist_entry :=
  match entries ch with
  | Some es => es !! i
  | None => None
  end.

(** [aces_get_image_bytes]: the size and the messages; [None] when the
    access to [entries[0]] is not to an entry. *)
Definition aces_get_image_bytes (f : option file_data)
  : option (Z * list size_message) :=
  match f with
  | None => Some (0, [NullFilePointer])
  | Some f =>
      let pf := user_data f in
      let w := wrap32 (wrap32 (x_max (display_window pf)
                               - x_min (display_window pf)) + 1) in
      let h := wrap32 (wrap32 (y_max (display_window pf)
                               - y_min (display_window pf)) + 1) in
      let c := num_channels (channels pf) in
      match nth_entry (channels pf) 0 with
      | None => None
      | Some e =>
          let (d, msgs) := aces_get_data_size (pixel_type e) in
          Some (to_size_t (wrap32 (wrap32 (wrap32 (w * h) * c) * d)),
                PixelTypeLoopNyi :: msgs)
      end
  end.

(** The loop of [aces_get_plane_bytes] from channel [c], with [n] turns
    left: [cb] and the messages of [aces_get_data_size]. *)
Fixpoint aces_get_plane_bytes_loop (n c : nat) (ch : aces_attr_chlist)
  (p : list byte) : option (Z * list size_message) :=
  match n with
  | O => Some (0, [])
  | S n' =>
      match nth_entry ch c with
      | None => None
      | Some e =>
          if strcmp (name e) p =? 0
          then Some (aces_get_data_size (pixel_type e))
          else aces_get_plane_bytes_loop n' (S c) ch p
      end
  end.

(** [aces_get_plane_bytes]; [p] is [None] for a null pointer. *)
Definition aces_get_plane_bytes (f : option file_data)
  (p : option (list byte)) : option (Z * list size_message) :=
  match f with
  | None => Some (0, [NullFilePointer])
  | Some f =>
      match p with
      | None | Some [] => Some (0, [EmptyPlaneName])
      | Some p =>
          let pf := user_data f in
          let w := wrap32 (wrap32 (x_max (display_window pf)
                                   - x_min (display_window pf)) + 1) in
          let h := wrap32 (wrap32 (y_max (display_window pf)
                                   - y_min (display_window pf)) + 1) in
          match aces_get_plane_bytes_loop
                  (Z.to_nat (num_channels (channels pf))) 0 (channels pf) p
          with
          | None => None
          | Some (cb, msgs) =>
              if cb =? 0 then Some (0, msgs ++ [PlaneNotFound p])
              else Some (to_size_t (wrap32 (wrap32 (w * h) * cb)), msgs)
          end
      end
  end.

(** *** aces_read_image *)

(** A call of [aces_read_image] that returns: the result; what was stored
    through [w], [h], [channels] and [datatype]; the size requested for
    [*data] and whether the request succeeded; the file structure as it
    was given to [aces_close]; and the messages, by the function that
    reports them. *)
Record read_image_run := {
  read_rval : Z;
  read_outputs : option (Z * Z * Z * Z);
  read_data : option (Z * bool);
  read_closed : option file_data;
  read_reported : list error_message;
  read_size_messages : list size_message;
  read_image_messages : list image_message
}.

(** [aces_read_image].  [outputs_set] tells whether the five pointers are
    all set.  [None] when the function reads [entries[0]] of a channel
    list that has no such entry. *)
Definition aces_read_image (filename : option (list byte))
  (outputs_set : bool) : option read_image_run :=
  if negb outputs_set then
    Some {| read_rval := -1; read_outputs := None; read_data := None;
            read_closed := None; read_reported := [];
            read_size_messages := [MissingPointerArgument];
            read_image_messages := [] |}
  else
    let e := aces_start_read filename in
    match handle e with
    | None =>
        Some {| read_rval := -1; read_outputs := None; read_data := None;
                read_closed := None; read_reported := reported e;
                read_size_messages := []; read_image_messages := [] |}
    | Some f =>
        match aces_get_image_bytes (Some f) with
        | None => None
        | Some (bytes, msgs) =>
            let pe := user_data f in
            let w := wrap32 (wrap32 (x_max (display_window pe)
                                     - x_min (display_window pe)) + 1) in
            let h := wrap32 (wrap32 (y_max (display_window pe)
                                     - y_min (display_window pe)) + 1) in
            let c := num_channels (channels pe) in
            match nth_entry (channels pe) 0 with
            | None => None
            | Some e0 =>
                let datatype := pixel_type e0 in
                let (ok, f1) := malloc bytes f in
                let (_, msgs') := aces_get_data_size datatype in
                let '(rval, imsgs, f2) :=
                  aces_get_image (Some f1) true false ok in
                Some {| read_rval := rval;
                        read_outputs := Some (w, h, c, datatype);
                        read_data := Some (bytes, ok);
                        read_closed := f2;
                        read_reported := reported e;
                        read_size_messages :=
                          msgs ++ PixelTypeLoopNyi :: msgs';
                        read_image_messages := imsgs |}
            end
        end
    end.

(** *** Writing *)

Inductive write_message :=
| WriteEmptyFilename
| ZeroSizedImage
| FunctionNotYetImplemented.

(** [aces_start_write]: the handle, [None] for [NULL], and the messages. *)
Definition aces_start_write (width height channels compression : Z)
  (filename : option (list byte)) : option file_data * list write_message :=
  match filename with
  | None | Some [] => (None, [WriteEmptyFilename])
  | Some _ =>
      if (width =? 0) || (height =? 0) || (channels =? 0)
      then (None, [ZeroSizedImage])
      else (None, [])
  end.

Definition aces_set_image_rgba (e : option file_data)
  : Z * list write_message :=
  (-1, [FunctionNotYetImplemented]).

(** [aces_write_image]; the handle, when there is one, is closed after
    the call of [aces_set_image_rgba]. *)
Definition aces_write_image (filename : option (list byte))
  (compression w h channels datatype : Z) : Z * list write_message :=
  let (e, msgs) := aces_start_write w h channels compression filename in
  match e with
  | Some _ =>
      let (rval, msgs') := aces_set_image_rgba e in (rval, msgs ++ msgs')
  | None => (-1, msgs)
  end.

(** *** acesinfo *)

(** What [aces_print_header] writes to the standard output for a handle
    and a verbosity is left open. *)
Variable aces_print_header : file_data -> Z -> list byte.

(** A run of [acesinfo]: its exit status, whether it wrote its usage
    line, the name it gave to [aces_start_read], what it printed of the
    header, and the messages of the library.  A handle that was opened is
    closed before the return. *)
Record acesinfo_run := {
  exit_status : Z;
  usage_shown : bool;
  opened_name : option (list byte);
  printed : option (list byte);
  library_messages : list error_message
}.

(** [main]; [argv] holds the [argc] arguments, as C strings. *)
Definition main (argv : list (list byte)) : acesinfo_run :=
  let usage status :=
    {| exit_status := status; usage_shown := true; opened_name := None;
       printed := None; library_messages := [] |} in
  let info filename verbose :=
    let e := aces_start_read (Some filename) in
    {| exit_status := 0; usage_shown := false;
       opened_name := Some filename;
       printed := match handle e with
                  | Some h => Some (aces_print_header h verbose)
                  | None => None
                  end;
       library_messages := reported e |} in
  match argv with
  | [_; argv1] =>
      if (strcmp argv1 (bytes_of "-h") =? 0)
         || (strcmp argv1 (bytes_of "-?") =? 0)
         || (strcmp argv1 (bytes_of "--help") =? 0)
      then usage 0
      else if match argv1 with
              | c :: _ => uchar c =? 45  (* '-' *)
              | [] => false
              end
      then usage 1
      else info argv1 0
  | [_; argv1; argv2] =>
      if strcmp argv1 (bytes_of "-v") =? 0 then info argv2 1
      else usage 1
  | _ => usage 1
  end.

(** ** Vocabulary of the statements *)

(** A name as it lies in the file: no terminator inside. *)
Definition no_nul (s : list byte) : Prop := Forall (fun b => uchar b <> 0) s.

(** [no_nul], computed. *)
Definition no_nulb (s : list byte) : bool :=
  forallb (fun b => negb (uchar b =? 0)) s.

(** [upd rest d errs allocs f]: the stream is now [rest], the position
    has advanced by [d], the messages [errs] have been reported and the
    sizes [allocs] requested. *)
Definition upd (rest : list byte) (d : Z) (errs : list error_message)
  (allocs : list Z) (f : file_data) : file_data :=
  {| user_data := user_data f; given_filename := given_filename f;
     user_file := rest; fd := fd f; cur_file_pos := cur_file_pos f + d;
     errors := errors f ++ errs; mallocs := mallocs f ++ allocs |}.

(** Storing the bytes of [s] from index [pos] on, as the loop does. *)
Fixpoint fill (pos : nat) (s buf : list byte) : list byte :=
  match s with
  | [] => buf
  | b :: s' => fill (S pos) s' (<[pos := b]> buf)
  end.

(** What every step of the attribute reader preserves: the storage mode
    stays, and the stream only gets shorter. *)
Definition frame (f f' : file_data) : Prop :=
  storage_mode (user_data f') = storage_mode (user_data f)
  /\ (length (user_file f') <= length (user_file f))%nat.

Definition framed {A} (c : M A) : Prop := forall f, frame f (snd (c f)).

(** Every result of the computation [c] satisfies [P]. *)
Definition returns {A} (P : A -> Prop) (c : M A) : Prop :=
  forall f, P (fst (c f)).

(** The result of an attribute reader: failure or success. *)
Definition status (r : Z) : Prop := r = -1 \/ r = 1.

(** The table of the specification: lines per block for the compression
    modes [none], [rle], [zips], [zip] and [piz]. *)
Definition lines_per_block_spec (c : Z) : option Z :=
  if (c =? ACES_COMPRESSION_NONE) || (c =? ACES_COMPRESSION_RLE)
     || (c =? ACES_COMPRESSION_ZIPS) then Some 1
  else if c =? ACES_COMPRESSION_ZIP then Some 16
  else if c =? ACES_COMPRESSION_PIZ then Some 32
  else None.

(** The storage mode that a version word selects. *)
Definition version_mode (version : Z) : option ACES_STORAGE_TYPE :=
  if version =? 0x202 then Some ACES_STORAGE_TILED
  else if version =? 0x2 then Some ACES_STORAGE_SCANLINE
  else None.

(** [w] is a magic word and a version word that [read_header] accepts. *)
Definition header_words (w : list byte) : option ACES_STORAGE_TYPE :=
  if (length w =? 8)%nat && (int32_of w =? 20000630)
  then version_mode (int32_of (drop 4 w))
  else None.

(** The file structure when the two words have been accepted. *)
Definition header_checked (mode : ACES_STORAGE_TYPE) (rest : list byte)
  (f : file_data) : file_data :=
  snd (set_storage_mode mode (upd rest 8 [] [] f)).

(** The native size of the fixed-size attribute types: the [sizeof] that
    [read_attribute] passes to the size-checked read. *)
Definition native_size (ty : ACES_ATTRIBUTE_TYPE) : option Z :=
  match ty with
  | ACES_ATTR_BOX2I | ACES_ATTR_BOX2F | ACES_ATTR_TILEDESC => Some 16
  | ACES_ATTR_CHROMATICITIES => Some 32
  | ACES_ATTR_COMPRESSION | ACES_ATTR_ENVMAP | ACES_ATTR_LINEORDER => Some 1
  | ACES_ATTR_DOUBLE | ACES_ATTR_RATIONAL | ACES_ATTR_TIMECODE
  | ACES_ATTR_V2I | ACES_ATTR_V2F => Some 8
  | ACES_ATTR_FLOAT | ACES_ATTR_INT => Some 4
  | ACES_ATTR_KEYCODE => Some 28
  | ACES_ATTR_M33F => Some 36
  | ACES_ATTR_M44F => Some 64
  | ACES_ATTR_V3I | ACES_ATTR_V3F => Some 12
  | _ => None
  end.

(** The order of channel entries: by name, as [strcmp] compares. *)
Definition name_le (a b : aces_attr_chlist_entry) : Prop :=
  strcmp (name a) (name b) <= 0.

(** One channel as it lies in the file. *)
Record raw_channel := {
  rc_name : list byte;
  rc_pixel_type : list byte;
  rc_p_linear : list byte;
  rc_reserved : list byte;
  rc_x_sampling : list byte;
  rc_y_sampling : list byte
}.

Definition raw_channel_wf (c : raw_channel) : Prop :=
  no_nul (rc_name c) /\ rc_name c <> [] /\ (length (rc_name c) <= 31)%nat
  /\ length (rc_pixel_type c) = 4%nat /\ length (rc_p_linear c) = 1%nat
  /\ length (rc_reserved c) = 3%nat /\ length (rc_x_sampling c) = 4%nat
  /\ length (rc_y_sampling c) = 4%nat.

Definition raw_channel_bytes (c : raw_channel) : list byte :=
  rc_name c ++ NUL :: rc_pixel_type c ++ rc_p_linear c ++ rc_reserved c
    ++ rc_x_sampling c ++ rc_y_sampling c.

(** The payload of a channel list: the channels, then an empty name. *)
Definition chlist_payload (cs : list raw_channel) : list byte :=
  concat (map raw_channel_bytes cs) ++ [NUL].

Definition entry_of_raw (c : raw_channel) : aces_attr_chlist_entry :=
  {| name := rc_name c; pixel_type := int32_of (rc_pixel_type c);
     p_linear := uint8_of (rc_p_linear c); reserved := rc_reserved c;
     x_sampling := int32_of (rc_x_sampling c);
     y_sampling := int32_of (rc_y_sampling c) |}.

(** The channels in the order the reader leaves them: each one inserted,
    in file order, into the sorted list of those before it. *)
Definition sorted_channels (cs : list raw_channel)
  : list aces_attr_chlist_entry :=
  fold_left (fun l c => insert_sorted (entry_of_raw c) l) cs [].

(** The mandatory attributes of a storage mode, in the order
    [report_missing_attributes] checks them, each with its bit. *)
Definition required_attributes (mode : ACES_STORAGE_TYPE)
  : list (Z * string) :=
  [ (REQ_CHANNELS_MASK, REQ_CHANNELS_STR); (REQ_COMP_MASK, REQ_COMP_STR);
    (REQ_DATA_MASK, REQ_DATA_STR); (REQ_DISP_MASK, REQ_DISP_STR);
    (REQ_LO_MASK, REQ_LO_STR); (REQ_PAR_MASK, REQ_PAR_STR);
    (REQ_SCR_WC_MASK, REQ_SCR_WC_STR); (REQ_SCR_WW_MASK, REQ_SCR_WW_STR) ]
  ++ match mode with
     | ACES_STORAGE_TILED => [ (REQ_TILES_MASK, REQ_TILES_STR) ]
     | ACES_STORAGE_SCANLINE => []
     end.

(** The mandatory attributes whose bit is not in the mask [v]. *)
Definition missing_attributes (mode : ACES_STORAGE_TYPE) (v : Z)
  : list string :=
  map snd (List.filter (fun p => Z.land v (fst p) =? 0)
             (required_attributes mode)).

(** The bit of the mandatory attribute called [attrname], 0 when the name
    is not one of the mode's mandatory attributes. *)
Definition required_bit (mode : ACES_STORAGE_TYPE) (attrname : list byte)
  : Z :=
  match List.find (fun p => strcmp attrname (bytes_of (snd p)) =? 0)
          (required_attributes mode) with
  | Some p => fst p
  | None => 0
  end.

(** The mask with the bit of every mandatory attribute. *)
Definition full_mask (mode : ACES_STORAGE_TYPE) : Z :=
  match mode with
  | ACES_STORAGE_SCANLINE => 0x00FF
  | ACES_STORAGE_TILED => 0x01FF
  end.

(** The mask holds bits of mandatory attributes of the mode only. *)
Definition mask_within (mode : ACES_STORAGE_TYPE) (m : Z) : Prop :=
  Z.land m (full_mask mode) = m.

(** The header with one more user attribute at the end of its list. *)
Definition append_user_attribute (attrname : list byte)
  (attr : aces_attribute) (p : ACES_PRIVATE_FILE) : ACES_PRIVATE_FILE :=
  {| storage_mode := storage_mode p; channels := channels p;
     compression := compression p; data_window := data_window p;
     display_window := display_window p; line_order := line_order p;
     pixel_aspect_ratio := pixel_aspect_ratio p;
     screen_window_center := screen_window_center p;
     screen_window_width := screen_window_width p;
     tile_info := tile_info p;
     user_attributes := user_attributes p ++ [(attrname, attr)] |}.

(** The header with another data window. *)
Definition with_data_window (w : aces_attr_box2i) (p : ACES_PRIVATE_FILE)
  : ACES_PRIVATE_FILE :=
  {| storage_mode := storage_mode p; channels := channels p;
     compression := compression p; data_window := w;
     display_window := display_window p; line_order := line_order p;
     pixel_aspect_ratio := pixel_aspect_ratio p;
     screen_window_center := screen_window_center p;
     screen_window_width := screen_window_width p;
     tile_info := tile_info p; user_attributes := user_attributes p |}.

(** A box as it lies in the file: four little-endian 32-bit integers. *)
Definition box2i_bytes (w : aces_attr_box2i) : list byte :=
  le_encode 4 (x_min w) ++ le_encode 4 (y_min w)
    ++ le_encode 4 (x_max w) ++ le_encode 4 (y_max w).

Definition int32_range (x : Z) : Prop := - 2 ^ 31 <= x < 2 ^ 31.

(** The entries called [nm]. *)
Definition same_name (nm : list byte) (e : aces_attr_chlist_entry) : bool :=
  strcmp (name e) nm =? 0.

(** [loud fail c]: the computation [c] only adds messages to the log, and
    it adds at least one when its result satisfies [fail]. *)
Definition loud {A} (fail : A -> bool) (c : M A) : Prop :=
  forall f, exists new,
    errors (snd (c f)) = errors f ++ new
    /\ (fail (fst (c f)) = true -> new <> []).

(** The failure results of the readers. *)
Definition negative {A} (x : Z * A) : bool := fst x <? 0.

Definition no_entry {A} (e : option A) : bool :=
  match e with None => true | Some _ => false end.

Definition failed_loop {A B} (r : option (Z * A * B)) : bool :=
  match r with Some (ret, _, _) => ret <? 0 | None => false end.

Definition failed_header_loop (r : option (Z * Z)) : bool :=
  match r with Some (rda, _) => rda <? 0 | None => false end.

(** The descriptor and the file name of the structure stay. *)
Definition same_file (f f' : file_data) : Prop :=
  fd f' = fd f /\ given_filename f' = given_filename f.

Definition keeps_file {A} (c : M A) : Prop :=
  forall f, same_file f (snd (c f)).

(** [in_step f f']: from [f] to [f'] some bytes have left the front of
    the stream, and the position has advanced by their number. *)
Definition in_step (f f' : file_data) : Prop :=
  exists s, user_file f = s ++ user_file f'
            /\ cur_file_pos f' = cur_file_pos f + Z.of_nat (length s).

(** The computation keeps the position in step with the stream. *)
Definition steady {A} (c : M A) : Prop := forall f, in_step f (snd (c f)).

(** A channel list whose array, when it has one, holds exactly
    [num_channels] entries, at least one, sorted by name. *)
Definition channel_array (c : aces_attr_chlist) : Prop :=
  forall es, entries c = Some es ->
    num_channels c = Z.of_nat (length es) /\ es <> []
    /\ StronglySorted name_le es.

(** The computation leaves the header as it is. *)
Definition keeps_header {A} (c : M A) : Prop :=
  forall f, user_data (snd (c f)) = user_data f.

(** The computation leaves a channel list with the shape above. *)
Definition keeps_channel_array {A} (c : M A) : Prop :=
  forall f, channel_array (channels (user_data f)) ->
            channel_array (channels (user_data (snd (c f)))).

(** The header with another channel list. *)
Definition with_channels (c : aces_attr_chlist) (p : ACES_PRIVATE_FILE)
  : ACES_PRIVATE_FILE :=
  {| storage_mode := storage_mode p; channels := c;
     compression := compression p; data_window := data_window p;
     display_window := display_window p; line_order := line_order p;
     pixel_aspect_ratio := pixel_aspect_ratio p;
     screen_window_center := screen_window_center p;
     screen_window_width := screen_window_width p;
     tile_info := tile_info p; user_attributes := user_attributes p |}.

(** The width and the height that the size functions compute. *)
Definition display_width (p : ACES_PRIVATE_FILE) : Z :=
  wrap32 (wrap32 (x_max (display_window p) - x_min (display_window p)) + 1).

Definition display_height (p : ACES_PRIVATE_FILE) : Z :=
  wrap32 (wrap32 (y_max (display_window p) - y_min (display_window p)) + 1).

(** * Properties *)

(** ** Integers and strings *)

Lemma uchar_range (b : byte) : 0 <= uchar b < 256.
Proof.
  unfold uchar. pose proof (Byte.to_N_bounded b). lia.
Qed.

Lemma wrap32_range (x : Z) : - 2 ^ 31 <= wrap32 x < 2 ^ 31.
Proof.
  unfold wrap32. pose proof (Z.mod_pos_bound (x + 2 ^ 31) (2 ^ 32)). lia.
Qed.

Lemma wrap32_small (x : Z) : - 2 ^ 31 <= x < 2 ^ 31 -> wrap32 x = x.
Proof.
  intros H. unfold wrap32. rewrite Z.mod_small; lia.
Qed.

Lemma int32_of_range (l : list byte) : - 2 ^ 31 <= int32_of l < 2 ^ 31.
Proof. apply wrap32_range. Qed.

(** The test [(size_t)(given) != nativesize] compares the integers
    themselves when [given] is an [int32_t] and the native size is small. *)
Lemma to_size_t_eqb (given nativesize : Z) :
  - 2 ^ 31 <= given < 2 ^ 31 -> 0 <= nativesize < 2 ^ 31 ->
  (to_size_t given =? nativesize) = (given =? nativesize).
Proof.
  intros Hg Hn. unfold to_size_t.
  destruct (Z.eqb_spec given nativesize) as [->|Hne].
  - rewrite Z.mod_small by lia. apply Z.eqb_refl.
  - apply Z.eqb_neq. destruct (Z_lt_le_dec given 0).
    + replace given with (given + 2 ^ 64 + (-1) * 2 ^ 64) by lia.
      rewrite Z.mod_add by lia. rewrite Z.mod_small; lia.
    + rewrite Z.mod_small; lia.
Qed.

Ltac byte_ranges :=
  repeat match goal with
         | b : byte |- _ =>
             lazymatch goal with
             | _ : 0 <= uchar b < 256 |- _ => fail
             | _ => pose proof (uchar_range b)
             end
         end.

Lemma strcmp_antisym (a b : list byte) : strcmp b a = - strcmp a b.
Proof.
  revert b. induction a as [|x a IH]; intros [|y b]; simpl; try lia.
  rewrite (Z.eqb_sym (uchar y) (uchar x)).
  destruct (Z.eqb_spec (uchar x) (uchar y)) as [E|E]; [|lia].
  rewrite E. destruct (uchar y =? 0); [lia|apply IH].
Qed.

Lemma strcmp_refl (a : list byte) : strcmp a a = 0.
Proof.
  induction a as [|x a IH]; simpl; [reflexivity|].
  rewrite Z.eqb_refl. destruct (uchar x =? 0); auto.
Qed.

Lemma strcmp_le_trans (a b c : list byte) :
  strcmp a b <= 0 -> strcmp b c <= 0 -> strcmp a c <= 0.
Proof.
  revert b c. induction a as [|x a IH]; intros [|y b] [|z c]; simpl;
    byte_ranges; try lia;
    repeat match goal with
           | |- context [?v =? ?w] => destruct (Z.eqb_spec v w)
           end; try lia.
  apply IH.
Qed.

Lemma c_str_app_nul (s r : list byte) :
  no_nul s -> c_str (s ++ NUL :: r) = s.
Proof.
  induction 1 as [|b s Hb _ IH]; simpl; [reflexivity|].
  destruct (Z.eqb_spec (uchar b) 0); [contradiction|]. now rewrite IH.
Qed.

Lemma no_nulb_spec (s : list byte) : no_nulb s = true -> no_nul s.
Proof.
  unfold no_nulb, no_nul. rewrite forallb_forall, List.Forall_forall.
  intros H b Hb. specialize (H b Hb).
  destruct (Z.eqb_spec (uchar b) 0); [discriminate|assumption].
Qed.

(** ** The effect of a step on the file structure *)

Lemma upd_upd r1 d1 e1 a1 r2 d2 e2 a2 f :
  upd r2 d2 e2 a2 (upd r1 d1 e1 a1 f) =
  upd r2 (d1 + d2) (e1 ++ e2) (a1 ++ a2) f.
Proof.
  unfold upd; simpl. f_equal; [lia|apply eq_sym, app_assoc..].
Qed.

Lemma upd_id f : upd (user_file f) 0 [] [] f = f.
Proof.
  destruct f; unfold upd; simpl. f_equal; [lia|apply app_nil_r..].
Qed.

Lemma bind_run {A B} (c : M A) (k : A -> M B) f a f' :
  c f = (a, f') -> (c ≫= k) f = k a f'.
Proof. intros H. unfold mbind, M_bind. now rewrite H. Qed.

Lemma readfn_app (n : Z) (got rest : list byte) f :
  user_file f = got ++ rest -> Z.of_nat (length got) = n ->
  readfn n f = ((n, got), upd rest 0 [] [] f).
Proof.
  intros Hs Hn. unfold readfn. rewrite Hs, <- Hn, Nat2Z.id.
  rewrite take_app_length, drop_app_length.
  f_equal. rewrite <- (upd_id f) at 1. unfold upd, set_user_file; simpl.
  reflexivity.
Qed.

(** At the end of the stream a read returns what is left. *)
Lemma readfn_short (n : Z) f :
  Z.of_nat (length (user_file f)) <= n ->
  readfn n f = ((Z.of_nat (length (user_file f)), user_file f),
                upd [] 0 [] [] f).
Proof.
  intros Hn. unfold readfn.
  rewrite take_ge, drop_ge by lia.
  f_equal. rewrite <- (upd_id f) at 1. reflexivity.
Qed.

Lemma advance_upd (n : Z) f : advance n f = (tt, upd (user_file f) n [] [] f).
Proof.
  unfold advance, upd, set_cur_file_pos. now rewrite !app_nil_r.
Qed.

Lemma print_error_upd e f :
  print_error e f = (tt, upd (user_file f) 0 [e] [] f).
Proof.
  unfold print_error, upd, set_errors. rewrite app_nil_r, Z.add_0_r.
  reflexivity.
Qed.

Lemma malloc_upd (size : Z) f :
  malloc size f =
  (malloc_ok (length (mallocs f)) size, upd (user_file f) 0 [] [size] f).
Proof.
  unfold malloc, upd, set_mallocs. rewrite app_nil_r, Z.add_0_r.
  reflexivity.
Qed.

(** ** read_string *)

Lemma fill_length pos s buf : length (fill pos s buf) = length buf.
Proof.
  revert pos buf. induction s as [|b s IH]; intros; simpl; [reflexivity|].
  now rewrite IH, length_insert.
Qed.

Lemma fill_take_drop pos s buf :
  (pos + length s <= length buf)%nat ->
  fill pos s buf = take pos buf ++ s ++ drop (pos + length s) buf.
Proof.
  revert pos buf. induction s as [|b s IH]; intros pos buf H; simpl in *.
  - rewrite Nat.add_0_r. now rewrite take_drop.
  - rewrite IH by (rewrite length_insert; lia).
    rewrite (take_S_r _ _ b) by (apply list_lookup_insert_eq; lia).
    rewrite take_insert_ge by lia.
    rewrite drop_insert_lt by lia.
    rewrite <- app_assoc. simpl.
    repeat f_equal. lia.
Qed.

Lemma c_str_fill (s buf : list byte) :
  no_nul s -> (length s < length buf)%nat ->
  c_str (fill 0 (s ++ [NUL]) buf) = s.
Proof.
  intros Hs Hl. rewrite fill_take_drop by (rewrite length_app; simpl; lia).
  simpl. rewrite <- app_assoc. simpl. now apply c_str_app_nul.
Qed.

(** A name of fewer than [n] characters followed by its terminator is read
    whole: the result is its length, the array holds it, and the stream
    has lost the name and the terminator. *)
Lemma read_string_loop_ok (s : list byte) :
  forall (n pos : nat) (buf : list byte) (kind : string) f rest,
    no_nul s -> (length s < n)%nat ->
    user_file f = s ++ NUL :: rest ->
    read_string_loop n pos buf kind f =
    ((Z.of_nat (pos + length s), fill pos (s ++ [NUL]) buf),
     upd rest (Z.of_nat (length s) + 1) [] [] f).
Proof.
  induction s as [|b s IH]; intros n pos buf kind f rest Hs Hn Hf;
    destruct n as [|n]; simpl in Hn; try lia.
  - cbn [read_string_loop].
    erewrite bind_run by (apply (readfn_app 1 [NUL] rest); [exact Hf|reflexivity]).
    cbv beta iota.
    erewrite bind_run by apply advance_upd.
    simpl. rewrite upd_upd. simpl. now rewrite Nat.add_0_r.
  - cbn [read_string_loop].
    erewrite bind_run
      by (apply (readfn_app 1 [b] (s ++ NUL :: rest)); [exact Hf|reflexivity]).
    cbv beta iota.
    erewrite bind_run by apply advance_upd.
    inversion Hs as [|? ? Hb Hs']; subst.
    replace (negb (1 =? 1)) with false by reflexivity. cbv iota.
    cbn [head from_option id].
    destruct (Z.eqb_spec (uchar b) 0); [contradiction|].
    rewrite (IH n (S pos) _ kind _ rest Hs') by (simpl; try lia; reflexivity).
    rewrite !upd_upd. cbn [app fill length].
    f_equal; [f_equal; lia|f_equal; lia].
Qed.

Lemma read_string_ok (s buf : list byte) (kind : string) f rest :
  no_nul s -> (length s <= 31)%nat -> length buf = 32%nat ->
  user_file f = s ++ NUL :: rest ->
  exists buf',
    read_string buf kind f =
    ((Z.of_nat (length s), buf'),
     upd rest (Z.of_nat (length s) + 1) [] [] f)
    /\ c_str buf' = s /\ length buf' = 32%nat.
Proof.
  intros Hs Hl Hb Hf. exists (fill 0 (s ++ [NUL]) buf). split; [|split].
  - unfold read_string. rewrite (read_string_loop_ok s 32 0 buf kind f rest)
      by (auto; lia). reflexivity.
  - apply c_str_fill; auto. lia.
  - now rewrite fill_length.
Qed.

(** ** What every step of the reader preserves *)

Lemma frame_refl f : frame f f.
Proof. split; [reflexivity|lia]. Qed.

Lemma frame_trans f1 f2 f3 : frame f1 f2 -> frame f2 f3 -> frame f1 f3.
Proof. intros [H1 H2] [H3 H4]. split; [congruence|lia]. Qed.

Lemma bind_unfold {A B} (c : M A) (k : A -> M B) f :
  (c ≫= k) f = let (a, f') := c f in k a f'.
Proof. reflexivity. Qed.

Lemma framed_ret {A} (a : A) : framed (mret a : M A).
Proof. intros f. apply frame_refl. Qed.

Lemma framed_bind {A B} (c : M A) (k : A -> M B) :
  framed c -> (forall a, framed (k a)) -> framed (c ≫= k).
Proof.
  intros Hc Hk f. rewrite bind_unfold. specialize (Hc f).
  destruct (c f) as [a f1]. eapply frame_trans; [exact Hc|apply Hk].
Qed.

Lemma framed_readfn n : framed (readfn n).
Proof.
  intros f. split; simpl; [reflexivity|]. rewrite length_drop. lia.
Qed.

Lemma framed_advance n : framed (advance n).
Proof. intros f. split; simpl; [reflexivity|lia]. Qed.

Lemma framed_print_error e : framed (print_error e).
Proof. intros f. split; simpl; [reflexivity|lia]. Qed.

Lemma framed_malloc n : framed (malloc n).
Proof. intros f. split; simpl; [reflexivity|lia]. Qed.

Lemma framed_get_user_data : framed get_user_data.
Proof. intros f. apply frame_refl. Qed.

Create HintDb framed.
#[local] Hint Resolve framed_readfn framed_advance framed_print_error
  framed_malloc framed_get_user_data : framed.

(** Decomposes a monadic term along its binds and branches. *)
Ltac framed :=
  repeat first
    [ apply framed_ret
    | solve [auto with framed]
    | apply framed_bind; [|intros]
    | match goal with
      | |- framed (let '(_, _) := ?x in _) => destruct x
      | |- framed (if ?b then _ else _) => destruct b
      | |- framed (match ?x with _ => _ end) => destruct x
      end ].

Lemma framed_read_string_loop n :
  forall pos buf kind, framed (read_string_loop n pos buf kind).
Proof.
  induction n as [|n IH]; intros; cbn [read_string_loop]; framed; apply IH.
Qed.

Lemma framed_read_string buf kind : framed (read_string buf kind).
Proof. apply framed_read_string_loop. Qed.

Lemma framed_attr_check_size_and_read g n t :
  framed (attr_check_size_and_read g n t).
Proof. unfold attr_check_size_and_read. framed. Qed.

#[local] Hint Resolve framed_read_string framed_attr_check_size_and_read
  : framed.

Lemma framed_attr_read_string n : framed (attr_read_string n).
Proof. unfold attr_read_string. framed. Qed.

Lemma framed_attr_read_userdata n : framed (attr_read_userdata n).
Proof. unfold attr_read_userdata. framed. Qed.

Lemma framed_attr_read_preview n : framed (attr_read_preview n).
Proof. unfold attr_read_preview. framed. Qed.

Lemma framed_read_chlist_fields buf : framed (read_chlist_fields buf).
Proof. unfold read_chlist_fields. framed. Qed.

#[local] Hint Resolve framed_attr_read_string framed_attr_read_userdata
  framed_attr_read_preview framed_read_chlist_fields : framed.

Lemma framed_attr_read_chlist_loop fuel :
  forall buf l n, framed (attr_read_chlist_loop fuel buf l n).
Proof.
  induction fuel as [|fuel IH]; intros; cbn [attr_read_chlist_loop]; framed; apply IH.
Qed.

Lemma framed_attr_read_chlist n : framed (attr_read_chlist n).
Proof.
  intros f. unfold attr_read_chlist.
  match goal with |- frame f (snd (?c f)) => assert (framed c) as H end;
    [|apply H].
  pose proof framed_attr_read_chlist_loop. framed.
Qed.

#[local] Hint Resolve framed_attr_read_chlist : framed.

Lemma framed_read_fixed ty a n t : framed (read_fixed ty a n t).
Proof. unfold read_fixed. framed. Qed.

#[local] Hint Resolve framed_read_fixed : framed.

Lemma framed_read_attribute_value a t n :
  framed (read_attribute_value a t n).
Proof. unfold read_attribute_value. framed. Qed.

#[local] Hint Resolve framed_read_attribute_value : framed.

Lemma framed_read_attribute buf : framed (read_attribute buf).
Proof. unfold read_attribute. framed. Qed.

Lemma storage_mode_add_attribute_to p buf attr :
  storage_mode (snd (add_attribute_to p buf attr)) = storage_mode p.
Proof.
  unfold add_attribute_to.
  repeat match goal with
         | |- context [if ?b then _ else _] => destruct b
         | |- context [match storage_mode ?x with _ => _ end] =>
             destruct (storage_mode x) eqn:?
         end; simpl; congruence.
Qed.

Lemma framed_add_attribute buf attr : framed (add_attribute buf attr).
Proof.
  intros f. unfold add_attribute.
  pose proof (storage_mode_add_attribute_to (user_data f) buf attr) as H.
  destruct (add_attribute_to (user_data f) buf attr) as [m p].
  simpl in H. destruct (m =? 0); split; simpl; auto.
Qed.

#[local] Hint Resolve framed_read_attribute framed_add_attribute : framed.

Lemma framed_check_attr_mask v m s : framed (check_attr_mask v m s).
Proof. unfold check_attr_mask. framed. Qed.

#[local] Hint Resolve framed_check_attr_mask : framed.

Lemma framed_report_missing_attributes v :
  framed (report_missing_attributes v).
Proof. unfold report_missing_attributes. framed. Qed.

Lemma framed_read_header_loop fuel :
  forall buf m, framed (read_header_loop fuel buf m).
Proof.
  induction fuel as [|fuel IH]; intros; cbn [read_header_loop]; framed; apply IH.
Qed.

(** ** The results of the readers *)

Lemma returns_ret {A} (P : A -> Prop) (a : A) : P a -> returns P (mret a).
Proof. intros H f. exact H. Qed.

Lemma returns_bind {A B} (Q : A -> Prop) (P : B -> Prop)
  (c : M A) (k : A -> M B) :
  returns Q c -> (forall a, Q a -> returns P (k a)) -> returns P (c ≫= k).
Proof.
  intros Hc Hk f. rewrite bind_unfold. specialize (Hc f).
  destruct (c f) as [a f1]. now apply Hk.
Qed.

Lemma returns_any {A} (c : M A) : returns (fun _ => True) c.
Proof. intros f. exact I. Qed.

(** Decomposes a monadic term whose result does not depend on the values
    it binds. *)
Ltac returns :=
  repeat first
    [ apply returns_ret
    | eapply (returns_bind (fun _ => True)); [apply returns_any|intros ? _]
    | match goal with
      | |- returns _ (let '(_, _) := ?x in _) => destruct x
      | |- returns _ (if ?b then _ else _) => destruct b
      | |- returns _ (match ?x with _ => _ end) => destruct x
      end ];
  unfold status; simpl; try lia.

Lemma returns_read_string_loop n :
  forall pos buf kind,
    returns (fun x => -1 <= fst x) (read_string_loop n pos buf kind).
Proof.
  induction n as [|n IH]; intros; cbn [read_string_loop].
  - returns.
  - eapply (returns_bind (fun _ => True)); [apply returns_any|intros [rc got] _].
    eapply (returns_bind (fun _ => True)); [apply returns_any|intros ? _].
    destruct (negb (rc =? 1)); [returns|].
    destruct (uchar _ =? 0); [returns|apply IH].
Qed.

Lemma returns_attr_check_size_and_read g n t :
  returns (fun x => status (fst x)) (attr_check_size_and_read g n t).
Proof. unfold attr_check_size_and_read. returns. Qed.

Lemma returns_attr_read_string n :
  returns (fun x => status (fst x)) (attr_read_string n).
Proof. unfold attr_read_string. returns. Qed.

Lemma returns_attr_read_userdata n :
  returns (fun x => status (fst x)) (attr_read_userdata n).
Proof. unfold attr_read_userdata. returns. Qed.

Lemma returns_attr_read_preview n :
  returns (fun x => status (fst x)) (attr_read_preview n).
Proof. unfold attr_read_preview. returns. Qed.

Lemma returns_attr_read_chlist_loop fuel :
  forall buf l n,
    returns (fun r => match r with
                      | Some (ret, _, _) => status ret
                      | None => True
                      end)
      (attr_read_chlist_loop fuel buf l n).
Proof.
  induction fuel as [|fuel IH]; intros; cbn [attr_read_chlist_loop].
  - now apply returns_ret.
  - eapply (returns_bind (fun _ => True)); [apply returns_any|intros [rs b1] _].
    destruct (rs =? 0); [returns|].
    eapply (returns_bind (fun _ => True)); [apply returns_any|intros ok _].
    destruct (negb ok); [returns|].
    eapply (returns_bind (fun _ => True)); [apply returns_any|intros [e|] _];
      [apply IH|returns].
Qed.

Lemma returns_attr_read_chlist n :
  returns (fun x => status (fst x)) (attr_read_chlist n).
Proof.
  intros f. unfold attr_read_chlist. cbv beta.
  match goal with
  | |- status (fst (fst (?c f))) =>
      assert (returns (fun x => status (fst x)) c) as H
  end; [|exact (H f)].
  eapply returns_bind; [apply returns_attr_read_chlist_loop|].
  intros [[[ret n0] l]|] Hret; [|returns].
  destruct (n0 >? 0); [|now apply returns_ret].
  eapply (returns_bind (fun _ => True)); [apply returns_any|intros ok _].
  destruct (negb ok); [returns|now apply returns_ret].
Qed.

Lemma returns_read_attribute_value a t n :
  returns (fun x => status (fst x)) (read_attribute_value a t n).
Proof.
  unfold read_attribute_value.
  destruct (attr_name_to_type t);
    try (unfold read_fixed;
         eapply returns_bind; [apply returns_attr_check_size_and_read|];
         intros [r got] Hr; now apply returns_ret);
    try (returns; fail).
  - eapply returns_bind; [apply returns_attr_read_chlist|].
    intros [r c] Hr. now apply returns_ret.
  - eapply returns_bind; [apply returns_attr_read_preview|].
    intros [r c] Hr. now apply returns_ret.
  - eapply returns_bind; [apply returns_attr_read_string|].
    intros [r c] Hr. now apply returns_ret.
  - eapply (returns_bind (fun _ => True)); [apply returns_any|intros ok _].
    eapply returns_bind; [apply returns_attr_read_userdata|].
    intros [r c] Hr. now apply returns_ret.
Qed.

(** [read_attribute] returns 1 (an attribute was read), 0 (the empty name
    that ends the list) or -1 (an error). *)
Lemma returns_read_attribute buf :
  returns (fun x => fst (fst x) = -1 \/ fst (fst x) = 0 \/ fst (fst x) = 1)
    (read_attribute buf).
Proof.
  unfold read_attribute.
  eapply returns_bind; [apply returns_read_string_loop|].
  intros [pos b1] Hpos. simpl in Hpos.
  destruct (Z.leb_spec pos 0); [apply returns_ret; simpl; lia|].
  eapply (returns_bind (fun _ => True)); [apply returns_any|intros [p2 tb] _].
  destruct (p2 <? 0); [returns|].
  eapply (returns_bind (fun _ => True)); [apply returns_any|intros [rc got] _].
  eapply (returns_bind (fun _ => True)); [apply returns_any|intros ? _].
  destruct (negb (rc =? 4)); [returns|].
  eapply returns_bind; [apply returns_read_attribute_value|].
  intros [r attr] Hr. apply returns_ret. unfold status in Hr. simpl in *. lia.
Qed.

(** The loop of [read_header] ends on 0 or -1. *)
Lemma read_header_loop_result fuel :
  forall buf m f rda m' f',
    read_header_loop fuel buf m f = (Some (rda, m'), f') ->
    rda = 0 \/ rda = -1.
Proof.
  induction fuel as [|fuel IH]; intros buf m f rda m' f' H;
    cbn [read_header_loop] in H; [discriminate|].
  rewrite bind_unfold in H.
  pose proof (returns_read_attribute buf f) as Hr.
  destruct (read_attribute buf f) as [[[r b1] attr] f1].
  cbv beta iota in H. simpl in Hr.
  destruct (Z.eqb_spec r 1) as [E|E].
  - rewrite bind_unfold in H. destruct (add_attribute b1 attr f1) as [b f2].
    eapply IH; exact H.
  - inversion H; subst. lia.
Qed.

(** ** Termination of the two unbounded loops *)

(** A name that is read has left the stream. *)
Lemma read_string_loop_consumes n :
  forall pos buf kind f r buf' f',
    read_string_loop n pos buf kind f = ((r, buf'), f') -> 0 <= r ->
    (length (user_file f') < length (user_file f))%nat.
Proof.
  induction n as [|n IH]; intros pos buf kind f r buf' f' H Hr;
    cbn [read_string_loop] in H.
  - rewrite bind_unfold in H. simpl in H. inversion H; subst. lia.
  - destruct (user_file f) as [|x s] eqn:Hs.
    + erewrite bind_run in H by (apply readfn_short; rewrite Hs; simpl; lia).
      rewrite Hs in H. cbv beta iota in H.
      erewrite bind_run in H by apply advance_upd.
      simpl in H. inversion H; subst. lia.
    + erewrite bind_run in H
        by (apply (readfn_app 1 [x] s); [exact Hs|reflexivity]).
      cbv beta iota in H.
      erewrite bind_run in H by apply advance_upd.
      replace (negb (1 =? 1)) with false in H by reflexivity. cbv iota in H.
      cbn [head from_option id] in H.
      destruct (uchar x =? 0).
      * inversion H; subst. simpl. lia.
      * apply IH in H; [|exact Hr]. simpl in H. simpl. lia.
Qed.

Lemma read_string_consumes buf kind f r buf' f' :
  read_string buf kind f = ((r, buf'), f') -> 0 <= r ->
  (length (user_file f') < length (user_file f))%nat.
Proof. apply read_string_loop_consumes. Qed.

(** [read_attribute] returns 1 only after it has read a name. *)
Lemma read_attribute_consumes buf f r buf' attr f' :
  read_attribute buf f = ((r, buf', attr), f') -> r = 1 ->
  (length (user_file f') < length (user_file f))%nat.
Proof.
  intros H Hr. unfold read_attribute in H. rewrite bind_unfold in H.
  destruct (read_string buf "attribute" f) as [[pos b1] f1] eqn:E1.
  cbv beta iota in H.
  destruct (Z.leb_spec pos 0) as [Hp|Hp].
  - inversion H; subst. lia.
  - apply read_string_consumes in E1; [|lia].
    match type of H with
    | ?c f1 = _ => assert (framed c) as Hc by framed
    end.
    specialize (Hc f1). rewrite H in Hc. destruct Hc as [_ Hc].
    simpl in Hc. lia.
Qed.

Lemma read_header_loop_fuel fuel :
  forall buf m f,
    (length (user_file f) < fuel)%nat ->
    fst (read_header_loop fuel buf m f) <> None.
Proof.
  induction fuel as [|fuel IH]; intros buf m f Hf; [lia|].
  cbn [read_header_loop]. rewrite bind_unfold.
  destruct (read_attribute buf f) as [[[rda b1] attr] f1] eqn:E1.
  cbv beta iota. destruct (Z.eqb_spec rda 1) as [Hr|Hr]; [|discriminate].
  apply read_attribute_consumes in E1; [|exact Hr].
  rewrite bind_unfold.
  pose proof (framed_add_attribute b1 attr f1) as [_ Ha].
  destruct (add_attribute b1 attr f1) as [m1 f2]. simpl in Ha.
  apply IH. lia.
Qed.

Lemma read_header_attributes_total f :
  exists rda reqMask f',
    read_header_attributes f = (Some (rda, reqMask), f').
Proof.
  unfold read_header_attributes.
  pose proof (read_header_loop_fuel (S (length (user_file f))) char32 0 f) as H.
  destruct (read_header_loop _ _ _ f) as [[[rda m]|] f'].
  - eauto.
  - exfalso. apply H; [lia|reflexivity].
Qed.

(** A size-checked read that succeeds has taken its bytes. *)
Lemma attr_check_size_and_read_consumes g n t f r got f' :
  attr_check_size_and_read g n t f = ((r, got), f') -> 0 < n -> 0 <= r ->
  (length (user_file f') < length (user_file f))%nat.
Proof.
  unfold attr_check_size_and_read. intros H Hn Hr.
  destruct (to_size_t g =? n).
  - simpl in H. rewrite bind_unfold in H. unfold readfn in H.
    cbv beta iota in H. rewrite bind_unfold in H. simpl in H.
    destruct (Z.eqb_spec
                (to_size_t (Z.of_nat (length (take (Z.to_nat n) (user_file f)))))
                n) as [E|E]; simpl in H; inversion H; subst; try lia.
    simpl. rewrite length_drop. rewrite length_take in E.
    unfold to_size_t in E.
    pose proof (Z.mod_pos_bound
                  (Z.of_nat (Z.to_nat n `min` length (user_file f))) (2 ^ 64)).
    rewrite Z.mod_small in E by lia. lia.
  - simpl in H. rewrite bind_unfold in H. simpl in H. inversion H; subst. lia.
Qed.

Lemma read_chlist_fields_consumes buf f e f' :
  read_chlist_fields buf f = (Some e, f') ->
  (length (user_file f') < length (user_file f))%nat.
Proof.
  intros H. unfold read_chlist_fields in H. rewrite bind_unfold in H.
  destruct (attr_check_size_and_read 4 4 _ f) as [[r pt] f1] eqn:E1.
  cbv beta iota in H. destruct (Z.ltb_spec r 0) as [Hr|Hr].
  - inversion H.
  - apply attr_check_size_and_read_consumes in E1; [|lia..].
    match type of H with
    | ?c f1 = _ => assert (framed c) as Hc by framed
    end.
    specialize (Hc f1). rewrite H in Hc. destruct Hc as [_ Hc].
    simpl in Hc. lia.
Qed.

Lemma attr_read_chlist_loop_fuel fuel :
  forall buf l n f,
    (length (user_file f) < fuel)%nat ->
    fst (attr_read_chlist_loop fuel buf l n f) <> None.
Proof.
  induction fuel as [|fuel IH]; intros buf l n f Hf; [lia|].
  cbn [attr_read_chlist_loop]. rewrite bind_unfold.
  pose proof (framed_read_string buf "channel" f) as [_ H1].
  destruct (read_string buf "channel" f) as [[rs b1] f1].
  cbv beta iota. simpl in H1.
  destruct (rs =? 0); [discriminate|].
  rewrite bind_unfold.
  pose proof (framed_malloc sizeof_tmp_ch_list f1) as [_ H2].
  destruct (malloc sizeof_tmp_ch_list f1) as [ok f2]. simpl in H2.
  destruct ok; cbn [negb]; cbv iota.
  - rewrite bind_unfold.
    destruct (read_chlist_fields b1 f2) as [[e|] f3] eqn:E3.
    + apply read_chlist_fields_consumes in E3. apply IH. lia.
    + discriminate.
  - rewrite bind_unfold. simpl. discriminate.
Qed.

(** ** Block geometry *)

Lemma quot_ceiling (h lp : Z) :
  0 <= h -> 0 < lp ->
  lp * (Z.quot (h + lp - 1) lp - 1) < h <= lp * Z.quot (h + lp - 1) lp.
Proof.
  intros Hh Hlp. rewrite Z.quot_div_nonneg by lia.
  pose proof (Z.div_mod (h + lp - 1) lp ltac:(lia)).
  pose proof (Z.mod_pos_bound (h + lp - 1) lp ltac:(lia)).
  nia.
Qed.


(** ** Running the reader on a stream *)

Lemma user_file_upd r d e a f : user_file (upd r d e a f) = r.
Proof. reflexivity. Qed.

Lemma attr_check_size_and_read_mismatch given n t f :
  to_size_t given <> n ->
  attr_check_size_and_read given n t f =
  ((-1, []), upd (user_file f) 0 [SizeMismatch n t given] [] f).
Proof.
  intros H. unfold attr_check_size_and_read.
  destruct (Z.eqb_spec (to_size_t given) n); [contradiction|].
  cbn [negb]. cbv iota.
  erewrite bind_run by apply print_error_upd. reflexivity.
Qed.

Lemma attr_check_size_and_read_ok given n t f got rest :
  to_size_t given = n -> user_file f = got ++ rest ->
  Z.of_nat (length got) = n ->
  attr_check_size_and_read given n t f = ((1, got), upd rest n [] [] f).
Proof.
  intros Hg Hf Hn. unfold attr_check_size_and_read.
  rewrite Hg, Z.eqb_refl. cbn [negb]. cbv iota.
  erewrite bind_run by (eapply readfn_app; eauto).
  cbv beta iota. erewrite bind_run by apply advance_upd.
  assert (to_size_t n = n) as ->.
  { unfold to_size_t in *. rewrite <- Hg. apply Z.mod_mod. lia. }
  rewrite Z.eqb_refl. cbn [negb]. cbv iota.
  rewrite upd_upd. reflexivity.
Qed.

(** An attribute record -- name, type name and declared size -- brings
    [read_attribute] to its [switch], with the stream at the payload. *)
Lemma read_attribute_record buf f aname tname sz rest :
  no_nul aname -> aname <> [] -> (length aname <= 31)%nat ->
  no_nul tname -> (length tname <= 31)%nat ->
  length sz = 4%nat -> length buf = 32%nat ->
  user_file f = aname ++ NUL :: tname ++ NUL :: sz ++ rest ->
  exists buf',
    c_str buf' = aname /\ length buf' = 32%nat /\
    read_attribute buf f =
    let '((r, attr), f') :=
      read_attribute_value aname tname (int32_of sz)
        (upd rest (Z.of_nat (length aname + length tname) + 6) [] [] f) in
    ((r, buf', attr), f').
Proof.
  intros Ha Hne Hla Ht Hlt Hsz Hb Hf.
  destruct (read_string_ok aname buf "attribute" f
              (tname ++ NUL :: sz ++ rest) Ha Hla Hb Hf)
    as (buf' & E1 & Hc & Hl).
  exists buf'. split; [exact Hc|]. split; [exact Hl|].
  unfold read_attribute. erewrite bind_run by exact E1. cbv beta iota.
  destruct (Z.leb_spec (Z.of_nat (length aname)) 0) as [Hz|Hz].
  { destruct aname; [contradiction|simpl in Hz; lia]. }
  edestruct (read_string_ok tname char32 "type") as (tbuf & E2 & Hc2 & _);
    [exact Ht|exact Hlt|reflexivity|apply user_file_upd|].
  erewrite bind_run by exact E2. cbv beta iota.
  destruct (Z.ltb_spec (Z.of_nat (length tname)) 0) as [Hz2|Hz2]; [lia|].
  erewrite bind_run
    by (apply (readfn_app 4 sz rest); [apply user_file_upd|lia]).
  cbv beta iota. erewrite bind_run by apply advance_upd.
  replace (negb (4 =? 4)) with false by reflexivity. cbv iota.
  rewrite bind_unfold. rewrite Hc, Hc2. rewrite !upd_upd, !user_file_upd.
  cbn [app].
  match goal with
  | |- (let (_, _) := read_attribute_value _ _ _ ?s in _) = _ =>
      replace s
        with (upd rest (Z.of_nat (length aname + length tname) + 6) [] [] f)
        by (f_equal; lia)
  end.
  destruct (read_attribute_value aname tname (int32_of sz) _) as [[r attr] f'].
  reflexivity.
Qed.

(** The loop of [read_header] stops at the first attribute that is not
    read, with the result of [read_attribute] and the mask so far. *)
Lemma read_header_loop_stop fuel buf mask f rda buf' attr f' :
  read_attribute buf f = ((rda, buf', attr), f') -> rda <> 1 ->
  read_header_loop (S fuel) buf mask f = (Some (rda, mask), f').
Proof.
  intros H Hr. cbn [read_header_loop]. erewrite bind_run by exact H.
  cbv beta iota. destruct (Z.eqb_spec rda 1); [contradiction|reflexivity].
Qed.

Lemma read_header_loop_step fuel buf mask f buf' attr f' m f'' :
  read_attribute buf f = ((1, buf', attr), f') ->
  add_attribute buf' attr f' = (m, f'') ->
  read_header_loop (S fuel) buf mask f =
  read_header_loop fuel buf' (to_uint16 (Z.lor mask m)) f''.
Proof.
  intros H Ha. cbn [read_header_loop]. erewrite bind_run by exact H.
  cbv beta iota. cbn [Z.eqb Pos.eqb]. erewrite bind_run by exact Ha.
  reflexivity.
Qed.

(** *** The two header words *)

Lemma read_header_words f w rest mode :
  user_file f = w ++ rest -> header_words w = Some mode ->
  read_header f =
  (r ← read_header_attributes;
   match r with
   | None => mret (-1)
   | Some (rda, reqMask) => read_header_exit rda reqMask
   end) (header_checked mode rest f).
Proof.
  intros Hf Hw. unfold header_words in Hw.
  destruct (Nat.eqb_spec (length w) 8) as [Hl|]; [|discriminate].
  destruct (Z.eqb_spec (int32_of w) 20000630) as [Hm|]; [|discriminate].
  simpl in Hw. unfold version_mode in Hw.
  unfold read_header.
  erewrite bind_run by (apply (readfn_app (4 * 2) w rest); [exact Hf|lia]).
  cbv beta iota. replace (negb (to_size_t (4 * 2) =? 4 * 2)) with false
    by reflexivity.
  cbv iota. erewrite bind_run by apply advance_upd.
  rewrite Hm. replace (negb (20000630 =? 20000630)) with false by reflexivity.
  cbv iota. rewrite upd_upd, user_file_upd. cbn [app Z.add].
  unfold header_checked.
  destruct (Z.eqb_spec (int32_of (drop 4 w)) 0x202) as [E|E].
  - inversion Hw; subst mode. rewrite andb_false_r. cbv iota.
    rewrite (bind_unfold (set_storage_mode _)).
    destruct (set_storage_mode ACES_STORAGE_TILED _) as [[] f0]. reflexivity.
  - destruct (Z.eqb_spec (int32_of (drop 4 w)) 2) as [E2|E2]; [|discriminate].
    inversion Hw; subst mode. cbn [negb andb]. cbv iota.
    rewrite (bind_unfold (set_storage_mode _)).
    destruct (set_storage_mode ACES_STORAGE_SCANLINE _) as [[] f0].
    reflexivity.
Qed.

Lemma read_header_first_attribute_fails f w rest mode rda buf attr f1 :
  user_file f = w ++ rest -> header_words w = Some mode ->
  read_attribute char32 (header_checked mode rest f) = ((rda, buf, attr), f1) ->
  rda < 0 ->
  read_header f = (rda, f1).
Proof.
  intros Hf Hw Hr Hneg. rewrite (read_header_words f w rest mode Hf Hw).
  unfold read_header_attributes at 1. rewrite bind_unfold.
  erewrite read_header_loop_stop by (try exact Hr; lia).
  unfold read_header_exit.
  destruct (Z.ltb_spec rda 0); [reflexivity|lia].
Qed.

Lemma aces_start_read_opened filename fd0 contents :
  filename <> [] -> malloc_ok 0 sizeof_file_data = true ->
  os_open filename = Some (fd0, contents) ->
  aces_start_read (Some filename) =
  let (r, ret) := read_header (opened_file_data filename fd0 contents) in
  if r <? 0 then {| handle := None; reported := errors ret |}
  else {| handle := Some ret; reported := errors ret |}.
Proof.
  intros Hn Hm Ho. unfold aces_start_read.
  destruct filename as [|c filename]; [contradiction|].
  rewrite Hm, Ho. reflexivity.
Qed.

Lemma failing_attribute_aborts_open filename fd0 w mode stream rda buf attr f1 :
  filename <> [] -> malloc_ok 0 sizeof_file_data = true ->
  os_open filename = Some (fd0, w ++ stream) ->
  header_words w = Some mode ->
  read_attribute char32
    (header_checked mode stream (opened_file_data filename fd0 (w ++ stream)))
  = ((rda, buf, attr), f1) ->
  rda < 0 ->
  aces_start_read (Some filename) =
  {| handle := None; reported := errors f1 |}.
Proof.
  intros Hn Hm Ho Hw Hr Hneg.
  rewrite (aces_start_read_opened filename fd0 (w ++ stream) Hn Hm Ho).
  erewrite read_header_first_attribute_fails; eauto.
  destruct (Z.ltb_spec rda 0); [reflexivity|lia].
Qed.

(** ** Fixed-size attributes (C5) *)

Lemma native_size_range ty n : native_size ty = Some n -> 0 < n < 2 ^ 31.
Proof. destruct ty; simpl; intros H; inversion H; lia. Qed.

Lemma read_attribute_value_fixed aname tname asize n :
  native_size (attr_name_to_type tname) = Some n ->
  read_attribute_value aname tname asize =
  read_fixed (attr_name_to_type tname) asize n tname.
Proof.
  unfold read_attribute_value.
  destruct (attr_name_to_type tname); simpl; intros H; inversion H;
    reflexivity.
Qed.

(** C5.  A record of a fixed-size type whose declared size is not the
    native size of the type: [read_attribute] fails on the size check of
    [attr_check_size_and_read], which reports the mismatch and issues no
    read -- the stream stays at the first payload byte and the position
    counts the name, the type name and the size only; the header loop
    stops with that failure, whatever came before; and an open of a file
    where the record follows the two header words returns no handle. *)
Theorem size_mismatch_rejected
  (buf aname tname sz rest : list byte) (native : Z) :
  no_nul aname -> aname <> [] -> (length aname <= 31)%nat ->
  no_nul tname -> (length tname <= 31)%nat ->
  length sz = 4%nat -> length buf = 32%nat ->
  native_size (attr_name_to_type tname) = Some native ->
  int32_of sz <> native ->
  let record := aname ++ NUL :: tname ++ NUL :: sz ++ rest in
  let failed f :=
    upd rest (Z.of_nat (length aname + length tname) + 6)
      [SizeMismatch native tname (int32_of sz)] [] f in
  (forall t f,
      attr_check_size_and_read (int32_of sz) native t f =
      ((-1, []), upd (user_file f) 0
                   [SizeMismatch native t (int32_of sz)] [] f))
  /\ (forall f, user_file f = record ->
        exists buf' attr,
          read_attribute buf f = ((-1, buf', attr), failed f))
  /\ (forall f fuel mask, user_file f = record ->
        read_header_loop (S fuel) buf mask f = (Some (-1, mask), failed f))
  /\ (forall filename fd0 w mode,
        filename <> [] -> malloc_ok 0 sizeof_file_data = true ->
        header_words w = Some mode ->
        os_open filename = Some (fd0, w ++ record) ->
        aces_start_read (Some filename) =
        {| handle := None;
           reported := [SizeMismatch native tname (int32_of sz)] |}).
Proof.
  intros Ha Hne Hla Ht Hlt Hsz Hb Hnat Hdiff record failed.
  pose proof (native_size_range _ _ Hnat) as Hrange.
  assert (Hmis : to_size_t (int32_of sz) <> native).
  { intros E. apply Z.eqb_eq in E.
    rewrite to_size_t_eqb in E by (try apply int32_of_range; lia).
    apply Z.eqb_eq in E. contradiction. }
  assert (Hread : forall b f, length b = 32%nat -> user_file f = record ->
                    exists buf' attr,
                      read_attribute b f = ((-1, buf', attr), failed f)).
  { intros b f Hlb Hf.
    destruct (read_attribute_record b f aname tname sz rest)
      as (buf' & _ & _ & E); auto.
    rewrite E, (read_attribute_value_fixed _ _ _ native Hnat).
    unfold read_fixed.
    erewrite bind_run by (apply attr_check_size_and_read_mismatch; exact Hmis).
    cbv beta iota. unfold mret, M_ret. rewrite upd_upd, user_file_upd.
    eexists _, _. unfold failed. f_equal. f_equal. lia. }
  split; [|split; [|split]].
  - intros t f. now apply attr_check_size_and_read_mismatch.
  - intros f Hf. now apply Hread.
  - intros f fuel mask Hf. destruct (Hread buf f Hb Hf) as (b' & attr & E).
    eapply read_header_loop_stop; [exact E|lia].
  - intros filename fd0 w mode Hn Hm Hw Ho.
    edestruct (Hread char32) as (b' & attr & E);
      [reflexivity| |
       erewrite failing_attribute_aborts_open; eauto; [reflexivity|lia]].
    reflexivity.
Qed.

(** ** The empty type name (C10) *)

(** C10.  A record with a name and an empty type name: the type resolves
    to [ACES_ATTR_UNKNOWN], not to [ACES_ATTR_USER]; [read_attribute] does
    not take the empty string for the end of the list but reads the size
    and fails with the unknown-type message; the header loop stops with
    that failure and an open of such a file returns no handle. *)
Theorem empty_type_name_rejected (buf aname sz rest : list byte) :
  no_nul aname -> aname <> [] -> (length aname <= 31)%nat ->
  length sz = 4%nat -> length buf = 32%nat ->
  let record := aname ++ NUL :: NUL :: sz ++ rest in
  let failed f :=
    upd rest (Z.of_nat (length aname) + 6) [UnknownAttrType aname []] [] f in
  attr_name_to_type [] = ACES_ATTR_UNKNOWN
  /\ (forall f, user_file f = record ->
        exists buf' attr,
          read_attribute buf f = ((-1, buf', attr), failed f)
          /\ type attr = ACES_ATTR_UNKNOWN)
  /\ (forall f fuel mask, user_file f = record ->
        read_header_loop (S fuel) buf mask f = (Some (-1, mask), failed f))
  /\ (forall filename fd0 w mode,
        filename <> [] -> malloc_ok 0 sizeof_file_data = true ->
        header_words w = Some mode ->
        os_open filename = Some (fd0, w ++ record) ->
        aces_start_read (Some filename) =
        {| handle := None; reported := [UnknownAttrType aname []] |}).
Proof.
  intros Ha Hne Hla Hsz Hb record failed.
  assert (Hread : forall b f, length b = 32%nat -> user_file f = record ->
                    exists buf' attr,
                      read_attribute b f = ((-1, buf', attr), failed f)
                      /\ type attr = ACES_ATTR_UNKNOWN).
  { intros b f Hlb Hf.
    destruct (read_attribute_record b f aname [] sz rest)
      as (buf' & _ & _ & E); auto; [constructor|simpl; lia|].
    rewrite E. unfold read_attribute_value. cbn [attr_name_to_type].
    erewrite bind_run by apply print_error_upd.
    unfold mret, M_ret. rewrite upd_upd, user_file_upd.
    eexists _, _. split.
    - unfold failed. f_equal. f_equal. simpl. lia.
    - reflexivity. }
  split; [reflexivity|split; [|split]].
  - intros f Hf. now apply Hread.
  - intros f fuel mask Hf.
    destruct (Hread buf f Hb Hf) as (b' & attr & E & _).
    eapply read_header_loop_stop; [exact E|lia].
  - intros filename fd0 w mode Hn Hm Hw Ho.
    edestruct (Hread char32) as (b' & attr & E & _);
      [reflexivity| |
       erewrite failing_attribute_aborts_open; eauto; [reflexivity|lia]].
    reflexivity.
Qed.

(** ** Magic and version (C6, C7) *)

Lemma framed_read_header_attributes : framed read_header_attributes.
Proof. intros f. apply framed_read_header_loop. Qed.

Lemma framed_read_header_exit rda m : framed (read_header_exit rda m).
Proof.
  unfold read_header_exit. pose proof framed_report_missing_attributes.
  framed.
Qed.

Lemma read_header_storage_mode f w rest mode :
  user_file f = w ++ rest -> header_words w = Some mode ->
  storage_mode (user_data (snd (read_header f))) = mode.
Proof.
  intros Hf Hw. rewrite (read_header_words f w rest mode Hf Hw).
  match goal with
  | |- storage_mode (user_data (snd (?c ?s))) = _ =>
      assert (framed c) as Hc
  end.
  { pose proof framed_read_header_attributes.
    pose proof framed_read_header_exit. framed. }
  destruct (Hc (header_checked mode rest f)) as [-> _]. reflexivity.
Qed.

(** C6.  A file whose first 32-bit word is not 20000630 is not opened:
    [read_header] fails and [aces_start_read] returns a null handle.  When
    the file holds the two header words the failure is the bad-magic one,
    reported when those eight bytes and nothing else have been read: the
    stream is at the ninth byte, no attribute has been read, nothing has
    been stored or allocated.  (A file too short for the two words fails
    before, at their read.) *)
Theorem bad_magic_rejected (contents : list byte) :
  int32_of contents <> 20000630 ->
  (forall f, user_file f = contents -> (8 <= length contents)%nat ->
     read_header f =
     (-1, upd (drop 8 contents) 8 [BadMagic (int32_of contents)] [] f))
  /\ (forall f, user_file f = contents -> (length contents < 8)%nat ->
        read_header f = (-1, upd [] 0 [MagicVersionEof] [] f))
  /\ (forall filename fd0,
        filename <> [] -> malloc_ok 0 sizeof_file_data = true ->
        os_open filename = Some (fd0, contents) ->
        handle (aces_start_read (Some filename)) = None
        /\ ((8 <= length contents)%nat ->
            reported (aces_start_read (Some filename))
            = [BadMagic (int32_of contents)])).
Proof.
  intros Hm.
  assert (Hlong : forall f, user_file f = contents ->
                    (8 <= length contents)%nat ->
                    read_header f =
                    (-1, upd (drop 8 contents) 8
                           [BadMagic (int32_of contents)] [] f)).
  { intros f Hf Hl. unfold read_header.
    erewrite bind_run
      by (apply (readfn_app (4 * 2) (take 8 contents) (drop 8 contents));
          [now rewrite take_drop|rewrite length_take; lia]).
    cbv beta iota.
    replace (negb (to_size_t (4 * 2) =? 4 * 2)) with false by reflexivity.
    cbv iota. erewrite bind_run by apply advance_upd.
    assert (int32_of (take 8 contents) = int32_of contents) as ->.
    { unfold int32_of. now rewrite take_take. }
    destruct (Z.eqb_spec (int32_of contents) 20000630); [contradiction|].
    cbn [negb]. cbv iota. erewrite bind_run by apply print_error_upd.
    unfold mret, M_ret. rewrite !upd_upd, !user_file_upd. reflexivity. }
  assert (Hshort : forall f, user_file f = contents ->
                     (length contents < 8)%nat ->
                     read_header f = (-1, upd [] 0 [MagicVersionEof] [] f)).
  { intros f Hf Hl. unfold read_header.
    erewrite bind_run by (apply readfn_short; rewrite Hf; lia).
    cbv beta iota. rewrite Hf.
    destruct (Z.eqb_spec (to_size_t (Z.of_nat (length contents))) (4 * 2))
      as [E|E].
    { unfold to_size_t in E. rewrite Z.mod_small in E by lia. lia. }
    cbn [negb]. cbv iota. erewrite bind_run by apply print_error_upd.
    unfold mret, M_ret. rewrite !upd_upd, !user_file_upd. reflexivity. }
  split; [exact Hlong|split; [exact Hshort|]].
  intros filename fd0 Hn Hok Ho.
  rewrite (aces_start_read_opened filename fd0 contents Hn Hok Ho).
  destruct (le_lt_dec 8 (length contents)) as [Hl|Hl].
  - rewrite Hlong by (auto; reflexivity). split; [reflexivity|].
    intros _. reflexivity.
  - rewrite Hshort by (auto; reflexivity). split; [reflexivity|]. lia.
Qed.

(** C7.  After an accepted magic word, the version word decides: 0x2 sets
    the storage mode to scanline and 0x202 to tiled, for the rest of the
    parse and in the handle an open returns; any other word makes
    [read_header] fail with the unsupported-version message, having read
    the eight bytes only, and the open returns a null handle. *)
Theorem version_word_selects_storage_mode (w rest : list byte) :
  length w = 8%nat -> int32_of w = 20000630 ->
  let version := int32_of (drop 4 w) in
  let opens_as mode :=
    (forall f, user_file f = w ++ rest ->
       storage_mode (user_data (header_checked mode rest f)) = mode
       /\ storage_mode (user_data (snd (read_header f))) = mode)
    /\ (forall filename fd0 ret,
          filename <> [] -> malloc_ok 0 sizeof_file_data = true ->
          os_open filename = Some (fd0, w ++ rest) ->
          handle (aces_start_read (Some filename)) = Some ret ->
          storage_mode (user_data ret) = mode) in
  (version = 0x2 -> opens_as ACES_STORAGE_SCANLINE)
  /\ (version = 0x202 -> opens_as ACES_STORAGE_TILED)
  /\ (version <> 0x2 -> version <> 0x202 ->
      (forall f, user_file f = w ++ rest ->
         read_header f = (-1, upd rest 8 [UnsupportedVersion version] [] f))
      /\ (forall filename fd0,
            filename <> [] -> malloc_ok 0 sizeof_file_data = true ->
            os_open filename = Some (fd0, w ++ rest) ->
            aces_start_read (Some filename) =
            {| handle := None; reported := [UnsupportedVersion version] |})).
Proof.
  intros Hl Hm version opens_as.
  assert (Hmode : forall mode, header_words w = Some mode -> opens_as mode).
  { intros mode Hw. split.
    - intros f Hf. split; [reflexivity|].
      now apply (read_header_storage_mode f w rest).
    - intros filename fd0 ret Hn Hok Ho.
      rewrite (aces_start_read_opened filename fd0 (w ++ rest) Hn Hok Ho).
      pose proof (read_header_storage_mode
                    (opened_file_data filename fd0 (w ++ rest)) w rest mode
                    eq_refl Hw) as Hs.
      destruct (read_header _) as [r f1]. simpl in Hs.
      destruct (r <? 0); simpl; intros E; [discriminate|].
      injection E as <-. exact Hs. }
  assert (Hwords : forall v, version = v ->
                     header_words w = version_mode v).
  { intros v <-. unfold header_words. rewrite Hl, Hm. reflexivity. }
  split; [|split].
  - intros Hv. apply Hmode. now rewrite (Hwords _ Hv).
  - intros Hv. apply Hmode. now rewrite (Hwords _ Hv).
  - intros H2 H202.
    assert (Hrun : forall f, user_file f = w ++ rest ->
              read_header f = (-1, upd rest 8 [UnsupportedVersion version] [] f)).
    { intros f Hf. unfold read_header.
      erewrite bind_run by (apply (readfn_app (4 * 2) w rest); [exact Hf|lia]).
      cbv beta iota.
      replace (negb (to_size_t (4 * 2) =? 4 * 2)) with false by reflexivity.
      cbv iota. erewrite bind_run by apply advance_upd.
      rewrite Hm.
      replace (negb (20000630 =? 20000630)) with false by reflexivity.
      cbv iota. fold version.
      destruct (Z.eqb_spec version 2); [contradiction|].
      destruct (Z.eqb_spec version 0x202); [contradiction|].
      cbn [negb andb]. cbv iota.
      erewrite bind_run by apply print_error_upd.
      unfold mret, M_ret. rewrite !upd_upd, !user_file_upd. reflexivity. }
    split; [exact Hrun|].
    intros filename fd0 Hn Hok Ho.
    rewrite (aces_start_read_opened filename fd0 (w ++ rest) Hn Hok Ho).
    rewrite Hrun by reflexivity. reflexivity.
Qed.

(** ** String attributes (C4) *)

(** C4.  An attribute of type [string] is read by [attr_read_string]
    with the declared size of the attribute.  For a declared size [size]
    (not negative) whose allocation succeeds, [attr_read_string] requests
    exactly [size] bytes from the allocator and takes the next [size]
    bytes of the stream as the string, whatever they are -- no length
    prefix is read and no terminator is looked for; the string has length
    [size].  When the stream holds fewer bytes the read fails and the
    attribute is left without a string.  Declared size 5 over the bytes
    of [hello] gives the string [hello] of length 5. *)
Theorem string_attribute_is_declared_size (size : Z) (f : file_data) :
  0 <= size < 2 ^ 31 ->
  malloc_ok (length (mallocs f)) size = true ->
  (forall aname,
      read_attribute_value aname (bytes_of "string") size =
      ('(r, s) ← attr_read_string size;
       mret (r, {| type_name := None; type := ACES_ATTR_STRING;
                   u := u_string s |})))
  /\ (forall s rest,
      user_file f = s ++ rest -> Z.of_nat (length s) = size ->
      attr_read_string size f =
      ((1, {| length_ := size; str := Some s |}),
       upd rest size [] [size] f))
  /\ (Z.of_nat (length (user_file f)) < size ->
      attr_read_string size f =
      ((-1, {| length_ := size; str := None |}),
       upd [] (Z.of_nat (length (user_file f))) [StringEof size] [size] f))
  /\ (size = 5 ->
      forall rest, user_file f = bytes_of "hello" ++ rest ->
      attr_read_string size f =
      ((1, {| length_ := 5; str := Some (bytes_of "hello") |}),
       upd rest 5 [] [5] f)).
Proof.
  intros Hsz Hok.
  assert (Hsize : to_size_t (to_size_t size * 1) = size).
  { unfold to_size_t. rewrite Z.mul_1_r, Z.mod_mod by lia.
    apply Z.mod_small. lia. }
  assert (Hsize' : to_size_t size = size).
  { unfold to_size_t. apply Z.mod_small. lia. }
  assert (Hread : forall s rest,
             user_file f = s ++ rest -> Z.of_nat (length s) = size ->
             attr_read_string size f =
             ((1, {| length_ := size; str := Some s |}),
              upd rest size [] [size] f)).
  { intros s rest Hf Hl. unfold attr_read_string. rewrite Hsize, Hsize'.
    erewrite bind_run by apply malloc_upd. rewrite Hok. cbn [negb]. cbv iota.
    erewrite bind_run
      by (apply (readfn_app size s rest); [rewrite user_file_upd|]; eauto).
    cbv beta iota. erewrite bind_run by apply advance_upd.
    rewrite Z.eqb_refl. cbn [negb]. cbv iota.
    unfold mret, M_ret. rewrite !upd_upd, !user_file_upd. reflexivity. }
  split; [reflexivity|]. split; [exact Hread|split].
  - intros Hshort. unfold attr_read_string. rewrite Hsize, Hsize'.
    erewrite bind_run by apply malloc_upd. rewrite Hok. cbn [negb]. cbv iota.
    erewrite bind_run by (apply readfn_short; rewrite user_file_upd; lia).
    cbv beta iota. erewrite bind_run by apply advance_upd.
    rewrite !user_file_upd.
    destruct (Z.eqb_spec (Z.of_nat (length (user_file f))) size); [lia|].
    cbn [negb]. cbv iota. erewrite bind_run by apply print_error_upd.
    unfold mret, M_ret. rewrite !upd_upd, !user_file_upd. cbn [app].
    f_equal. f_equal. lia.
  - intros -> rest Hf. now apply Hread.
Qed.

(** ** Preview attributes (C8) *)

(** What [attr_read_preview] does with the declared size: at most 4, the
    attribute is rejected before any read; above 4, the width and height
    are read, also when fewer than the eight bytes of the pair are
    declared. *)
Lemma attr_read_preview_guard (size : Z) (f : file_data) :
  (size <= 4 ->
   attr_read_preview size f =
   ((-1, {| width := 0; height := 0; rgba := None |}),
    upd (user_file f) 0 [PreviewTooSmall] [] f))
  /\ (4 < size ->
      forall dims rest,
        user_file f = dims ++ rest -> length dims = 8%nat ->
        exists r p f',
          attr_read_preview size f = ((r, p), f')
          /\ width p = uint32_of dims /\ height p = uint32_of (drop 4 dims)
          /\ (length (user_file f') <= length rest)%nat).
Proof.
  split.
  - intros H. unfold attr_read_preview.
    destruct (Z.leb_spec size 4); [|lia].
    erewrite bind_run by apply print_error_upd. reflexivity.
  - intros H dims rest Hf Hl. unfold attr_read_preview.
    destruct (Z.leb_spec size 4); [lia|].
    erewrite bind_run
      by (apply (readfn_app (2 * 4) dims rest); [exact Hf|lia]).
    cbv beta iota. erewrite bind_run by apply advance_upd.
    replace (negb (to_size_t (2 * 4) =? 2 * 4)) with false by reflexivity.
    cbv iota. rewrite upd_upd, user_file_upd.
    erewrite bind_run by apply malloc_upd.
    rewrite upd_upd, user_file_upd.
    destruct (malloc_ok _ _); cbn [negb]; cbv iota.
    + rewrite bind_unfold. unfold readfn at 1. cbv beta iota.
      erewrite bind_run by apply advance_upd.
      destruct (negb _).
      * erewrite bind_run by apply print_error_upd.
        eexists _, _, _. split; [reflexivity|]. simpl.
        rewrite length_drop. repeat split; lia.
      * eexists _, _, _. split; [reflexivity|]. simpl.
        rewrite length_drop. repeat split; lia.
    + erewrite bind_run by apply print_error_upd.
      eexists _, _, _. split; [reflexivity|]. simpl. repeat split; lia.
Qed.

(** ** Channel lists (C3) *)

Lemma name_le_trans : Transitive name_le.
Proof. intros a b c. unfold name_le. apply strcmp_le_trans. Qed.

Lemma insert_sorted_HdRel a x l :
  name_le a x -> HdRel name_le a l -> HdRel name_le a (insert_sorted x l).
Proof.
  intros Hax Hl. destruct l as [|b l]; simpl.
  - now constructor.
  - destruct (strcmp (name x) (name b) <? 0); constructor; auto.
    now inversion Hl.
Qed.

Lemma insert_sorted_Sorted x l :
  Sorted name_le l -> Sorted name_le (insert_sorted x l).
Proof.
  induction 1 as [|a l Hs IH Hhd]; simpl.
  - repeat constructor.
  - destruct (Z.ltb_spec (strcmp (name x) (name a)) 0) as [Hlt|Hge].
    + constructor; [now constructor|]. constructor. unfold name_le. lia.
    + constructor; [exact IH|]. apply insert_sorted_HdRel; [|exact Hhd].
      unfold name_le. rewrite strcmp_antisym. lia.
Qed.

Lemma insert_sorted_Permutation x l : Permutation (x :: l) (insert_sorted x l).
Proof.
  induction l as [|a l IH]; simpl; [reflexivity|].
  destruct (strcmp (name x) (name a) <? 0); [reflexivity|].
  rewrite perm_swap. now constructor.
Qed.

Lemma StronglySorted_take {A} (R : A -> A -> Prop) n l :
  StronglySorted R l -> StronglySorted R (take n l).
Proof.
  intros H. revert n. induction H as [|a l Hs IH Hall]; intros [|n]; simpl;
    try constructor; auto.
  apply Forall_take. exact Hall.
Qed.

(** The temporary list stays sorted through the loop. *)
Lemma attr_read_chlist_loop_sorted fuel :
  forall buf l n f r n' l' f',
    attr_read_chlist_loop fuel buf l n f = (Some (r, n', l'), f') ->
    Sorted name_le l -> Sorted name_le l'.
Proof.
  induction fuel as [|fuel IH]; intros buf l n f r n' l' f' H Hl;
    cbn [attr_read_chlist_loop] in H; [discriminate|].
  rewrite bind_unfold in H.
  destruct (read_string buf "channel" f) as [[rs b1] f1].
  cbv beta iota in H. destruct (rs =? 0).
  { inversion H; subst; exact Hl. }
  rewrite bind_unfold in H.
  destruct (malloc sizeof_tmp_ch_list f1) as [ok f2].
  destruct ok; cbn [negb] in H; cbv iota in H.
  - rewrite bind_unfold in H.
    destruct (read_chlist_fields b1 f2) as [[e|] f3].
    + eapply IH; [exact H|]. now apply insert_sorted_Sorted.
    + inversion H; subst; exact Hl.
  - rewrite bind_unfold in H. simpl in H. inversion H; subst; exact Hl.
Qed.

(** *** A well-formed payload *)

Lemma read_chlist_fields_ok buf f pt pl rs xs ys rest :
  length pt = 4%nat -> length pl = 1%nat -> length rs = 3%nat ->
  length xs = 4%nat -> length ys = 4%nat ->
  user_file f = pt ++ pl ++ rs ++ xs ++ ys ++ rest ->
  read_chlist_fields buf f =
  (Some {| name := c_str buf; pixel_type := int32_of pt;
           p_linear := uint8_of pl; reserved := rs;
           x_sampling := int32_of xs; y_sampling := int32_of ys |},
   upd rest 16 [] [] f).
Proof.
  intros H1 H2 H3 H4 H5 Hf. unfold read_chlist_fields.
  erewrite bind_run
    by (eapply (attr_check_size_and_read_ok 4 4 _ _ pt);
        [reflexivity|exact Hf|lia]).
  cbv beta iota. change (1 <? 0) with false. cbv iota.
  erewrite bind_run
    by (eapply (attr_check_size_and_read_ok 1 1 _ _ pl);
        [reflexivity|apply user_file_upd|lia]).
  cbv beta iota. change (1 <? 0) with false. cbv iota.
  erewrite bind_run
    by (eapply (attr_check_size_and_read_ok (3 * 1) (3 * 1) _ _ rs);
        [reflexivity|apply user_file_upd|lia]).
  cbv beta iota. change (1 <? 0) with false. cbv iota.
  erewrite bind_run
    by (eapply (attr_check_size_and_read_ok 4 4 _ _ xs);
        [reflexivity|apply user_file_upd|lia]).
  cbv beta iota. change (1 <? 0) with false. cbv iota.
  erewrite bind_run
    by (eapply (attr_check_size_and_read_ok 4 4 _ _ ys);
        [reflexivity|apply user_file_upd|lia]).
  cbv beta iota. change (1 <? 0) with false. cbv iota.
  unfold mret, M_ret. rewrite !upd_upd. reflexivity.
Qed.

Lemma attr_read_chlist_loop_payload (cs : list raw_channel) :
  (forall k n, malloc_ok k n = true) ->
  forall fuel buf l n f rest,
    Forall raw_channel_wf cs -> length buf = 32%nat ->
    (length cs < fuel)%nat ->
    0 <= n -> n + Z.of_nat (length cs) < 2 ^ 31 ->
    user_file f = chlist_payload cs ++ rest ->
    attr_read_chlist_loop fuel buf l n f =
    (Some (1, n + Z.of_nat (length cs),
           fold_left (fun l c => insert_sorted (entry_of_raw c) l) cs l),
     upd rest (Z.of_nat (length (chlist_payload cs))) []
       (replicate (length cs) sizeof_tmp_ch_list) f).
Proof.
  intros Hok. induction cs as [|c cs IH];
    intros fuel buf l n f rest Hwf Hb Hfuel Hn Hmax Hf;
    (destruct fuel as [|fuel]; [simpl in Hfuel; lia|]);
    cbn [attr_read_chlist_loop].
  - edestruct (read_string_ok [] buf "channel" f rest) as (b1 & E1 & _ & _);
      [constructor|simpl; lia|exact Hb|exact Hf|].
    erewrite bind_run by exact E1. cbv beta iota. cbn [length Z.of_nat Z.eqb].
    unfold mret, M_ret. rewrite Z.add_0_r. reflexivity.
  - inversion Hwf as [|? ? Hc Hcs]; subst.
    destruct Hc as (Hnn & Hne & Hln & H1 & H2 & H3 & H4 & H5).
    unfold chlist_payload in Hf. cbn [map concat] in Hf.
    unfold raw_channel_bytes at 1 in Hf.
    repeat rewrite <- app_assoc in Hf. cbn [app] in Hf.
    repeat rewrite <- app_assoc in Hf.
    edestruct (read_string_ok (rc_name c) buf "channel" f)
      as (b1 & E1 & Hc1 & Hl1); [exact Hnn|exact Hln|exact Hb|exact Hf|].
    erewrite bind_run by exact E1. cbv beta iota.
    destruct (Z.eqb_spec (Z.of_nat (length (rc_name c))) 0) as [Hz|Hz].
    { destruct (rc_name c); [contradiction|simpl in Hz; lia]. }
    erewrite bind_run by apply malloc_upd. rewrite Hok. cbn [negb]. cbv iota.
    erewrite bind_run
      by (eapply read_chlist_fields_ok;
          [exact H1|exact H2|exact H3|exact H4|exact H5|
            rewrite !user_file_upd; reflexivity]).
    rewrite Hc1.
    erewrite (IH fuel b1 _ (wrap32 (n + 1)) _ rest);
      [|exact Hcs|exact Hl1|simpl in Hfuel; lia
       |rewrite wrap32_small; simpl in Hmax; lia
       |rewrite wrap32_small; simpl in Hmax; simpl length; lia
       |rewrite !user_file_upd; unfold chlist_payload;
        now rewrite <- app_assoc].
    rewrite !upd_upd. cbn [fold_left].
    rewrite wrap32_small by (simpl in Hmax; lia).
    apply pair_equal_spec. split; [do 3 f_equal; simpl length; lia|].
    cbn [app replicate length]. f_equal.
    unfold chlist_payload. cbn [map concat].
    unfold raw_channel_bytes at 2.
    repeat (rewrite ?length_app; cbn [length]).
    rewrite H1, H2, H3, H4, H5. lia.
Qed.

Lemma sorted_channels_Permutation cs :
  forall l,
    Permutation (map entry_of_raw cs ++ l)
      (fold_left (fun l c => insert_sorted (entry_of_raw c) l) cs l).
Proof.
  induction cs as [|c cs IH]; intros l; cbn [map fold_left app];
    [reflexivity|].
  rewrite <- IH. rewrite <- insert_sorted_Permutation.
  apply Permutation_middle.
Qed.

Lemma sorted_channels_Sorted cs :
  forall l,
    Sorted name_le l ->
    Sorted name_le
      (fold_left (fun l c => insert_sorted (entry_of_raw c) l) cs l).
Proof.
  induction cs as [|c cs IH]; intros l Hl; cbn [fold_left]; [exact Hl|].
  apply IH. now apply insert_sorted_Sorted.
Qed.

Lemma chlist_payload_length cs :
  (length cs < length (chlist_payload cs))%nat.
Proof.
  unfold chlist_payload. rewrite length_app. cbn [length].
  induction cs as [|c cs IH]; cbn [map concat length]; [lia|].
  rewrite length_app. unfold raw_channel_bytes at 1.
  rewrite length_app. cbn [length]. lia.
Qed.

(** C3.  The loop of [attr_read_chlist] ends, and the array of entries it
    produces, however the parse went, is sorted by name in ascending
    [strcmp] order: each entry's name is at most the name of every later
    entry.  On a well-formed payload the parse succeeds and the array
    holds the channels of the file, rearranged in that order, whatever
    their order in the file; channels G, R, B, A come out as A, B, G, R. *)
Theorem channel_list_sorted (size : Z) (f : file_data) :
  (exists r n l f1,
      attr_read_chlist_loop (S (length (user_file f))) char32 [] 0 f =
      (Some (r, n, l), f1))
  /\ (forall r c f' es,
        attr_read_chlist size f = ((r, c), f') ->
        entries c = Some es ->
        StronglySorted name_le es)
  /\ (forall cs rest,
        (forall k n, malloc_ok k n = true) ->
        Forall raw_channel_wf cs -> cs <> [] ->
        Z.of_nat (length cs) < 2 ^ 31 ->
        user_file f = chlist_payload cs ++ rest ->
        attr_read_chlist size f =
        ((1, {| num_channels := Z.of_nat (length cs);
                entries := Some (sorted_channels cs) |}),
         upd rest (Z.of_nat (length (chlist_payload cs))) []
           (replicate (length cs) sizeof_tmp_ch_list
              ++ [Z.of_nat (length cs) * sizeof_chlist_entry]) f)
        /\ Permutation (map entry_of_raw cs) (sorted_channels cs)
        /\ StronglySorted name_le (sorted_channels cs)
        /\ (map rc_name cs = map bytes_of ["G"; "R"; "B"; "A"]%string ->
            map name (sorted_channels cs)
            = map bytes_of ["A"; "B"; "G"; "R"]%string)).
Proof.
  pose proof (attr_read_chlist_loop_fuel (S (length (user_file f)))
                char32 [] 0 f ltac:(lia)) as Hfuel.
  destruct (attr_read_chlist_loop (S (length (user_file f))) char32 [] 0 f)
    as [[[[r0 n0] l0]|] f1] eqn:E; [|exfalso; now apply Hfuel].
  split; [now eexists _, _, _, _|]. split.
  - intros r c f' es H Hes.
    assert (Hsorted : StronglySorted name_le l0).
    { apply Sorted_StronglySorted; [apply name_le_trans|].
      eapply attr_read_chlist_loop_sorted; [exact E|constructor]. }
    unfold attr_read_chlist in H. rewrite bind_unfold, E in H.
    cbv beta iota in H. destruct (n0 >? 0).
    + rewrite bind_unfold in H. destruct (malloc _ f1) as [ok f2].
      destruct ok; cbn [negb] in H; cbv iota in H.
      * inversion H; subst. simpl in Hes. inversion Hes; subst.
        now apply StronglySorted_take.
      * rewrite bind_unfold in H. simpl in H. inversion H; subst.
        discriminate.
    + inversion H; subst. discriminate.
  - intros cs rest Hok Hwf Hne Hmax Hf.
    pose proof (sorted_channels_Permutation cs []) as Hperm.
    rewrite app_nil_r in Hperm. fold (sorted_channels cs) in Hperm.
    split; [|split; [exact Hperm|split]].
    + pose proof (chlist_payload_length cs) as Hlen.
      rewrite (attr_read_chlist_loop_payload cs Hok _ char32 [] 0 f rest)
        in E; [|exact Hwf|reflexivity|rewrite Hf, length_app; lia|lia|lia
               |exact Hf].
      inversion E; subst r0 n0 l0 f1. clear E.
      unfold attr_read_chlist. rewrite bind_unfold.
      rewrite (attr_read_chlist_loop_payload cs Hok _ char32 [] 0 f rest);
        [|exact Hwf|reflexivity|rewrite Hf, length_app; lia|lia|lia|exact Hf].
      cbv beta iota. rewrite !Z.add_0_l.
      destruct (Z.gtb_spec (Z.of_nat (length cs)) 0) as [Hpos|Hpos];
        [|destruct cs; [contradiction|simpl in Hpos; lia]].
      erewrite bind_run by apply malloc_upd. rewrite Hok.
      cbn [negb]. cbv iota. unfold mret, M_ret.
      rewrite upd_upd, user_file_upd, Nat2Z.id.
      fold (sorted_channels cs).
      rewrite take_ge
        by (rewrite <- (Permutation_length Hperm), length_map; lia).
      assert (to_size_t (to_size_t (Z.of_nat (length cs)) * sizeof_chlist_entry)
              = Z.of_nat (length cs) * sizeof_chlist_entry) as ->.
      { unfold to_size_t, sizeof_chlist_entry.
        rewrite (Z.mod_small (Z.of_nat (length cs))) by lia.
        apply Z.mod_small. lia. }
      apply pair_equal_spec. split; [reflexivity|].
      f_equal. lia.
    + apply Sorted_StronglySorted; [apply name_le_trans|].
      apply sorted_channels_Sorted. constructor.
    + intros Hnames.
      destruct cs as [|g [|r [|b [|a [|]]]]]; try discriminate.
      cbn [map] in Hnames. injection Hnames as Hg Hr Hb Ha.
      destruct g, r, b, a. cbn [rc_name] in Hg, Hr, Hb, Ha. subst.
      reflexivity.
Qed.

(** ** The required attributes (C2) *)

Lemma check_attr_mask_run v m s f :
  check_attr_mask v m s f =
  (if Z.land v m =? 0 then 1 else 0,
   upd (user_file f) 0
     (if Z.land v m =? 0 then [MissingRequiredAttribute s] else []) [] f).
Proof.
  unfold check_attr_mask. destruct (Z.land v m =? 0).
  - erewrite bind_run by apply print_error_upd. reflexivity.
  - unfold mret, M_ret. now rewrite upd_id.
Qed.

Lemma filter_cons_if {A} (p : A -> bool) a l :
  List.filter p (a :: l) = (if p a then [a] else []) ++ List.filter p l.
Proof. simpl. now destruct (p a). Qed.

Lemma map_if_singleton {A B} (g : A -> B) (c : bool) a :
  map g (if c then [a] else []) = if c then [g a] else [].
Proof. now destruct c. Qed.

Lemma length_if_singleton {A} (c : bool) (a : A) :
  Z.of_nat (length (if c then [a] else [])) = if c then 1 else 0.
Proof. now destruct c. Qed.

Lemma report_missing_attributes_spec (v : Z) (f : file_data) :
  let missing := missing_attributes (storage_mode (user_data f)) v in
  report_missing_attributes v f =
  (Z.of_nat (length missing),
   upd (user_file f) 0 (map MissingRequiredAttribute missing) [] f).
Proof.
  unfold report_missing_attributes.
  do 8 (erewrite bind_run by apply check_attr_mask_run; cbv beta zeta;
        rewrite ?upd_upd, ?user_file_upd).
  erewrite bind_run by reflexivity. cbn [user_data upd].
  unfold missing_attributes, required_attributes.
  destruct (storage_mode (user_data f)).
  - cbn [app]. rewrite !filter_cons_if. cbn [List.filter fst snd].
    rewrite !map_app, !map_if_singleton, !length_app, !Nat2Z.inj_add.
    rewrite !length_if_singleton. cbn [fst snd map length Z.of_nat].
    unfold mret, M_ret. apply pair_equal_spec. split; [lia|].
    rewrite !app_nil_r, <- !app_assoc. reflexivity.
  - cbn [app]. rewrite !filter_cons_if. cbn [List.filter fst snd].
    erewrite bind_run by apply check_attr_mask_run. cbv beta zeta.
    rewrite ?upd_upd, ?user_file_upd.
    rewrite !map_app, !map_if_singleton, !length_app, !Nat2Z.inj_add.
    rewrite !length_if_singleton. cbn [fst snd map length Z.of_nat].
    unfold mret, M_ret. apply pair_equal_spec. split; [lia|].
    rewrite !app_nil_r, <- !app_assoc. reflexivity.
Qed.

Lemma add_attribute_to_mask p buf attr :
  mask_within (storage_mode p) (fst (add_attribute_to p buf attr)).
Proof.
  unfold add_attribute_to, mask_within.
  repeat match goal with
         | |- context [if ?b then _ else _] => destruct b
         end;
    destruct (storage_mode p); reflexivity.
Qed.

Lemma add_attribute_to_bit p buf attr :
  fst (add_attribute_to p buf attr)
  = required_bit (storage_mode p) (c_str buf).
Proof.
  unfold add_attribute_to, required_bit, required_attributes, name_is.
  destruct (storage_mode p); cbn [app List.find fst snd];
    repeat match goal with
           | |- context [strcmp ?a ?b =? 0] => destruct (strcmp a b =? 0)
           end; reflexivity.
Qed.

Lemma add_attribute_bit buf attr f :
  fst (add_attribute buf attr f)
  = required_bit (storage_mode (user_data f)) (c_str buf).
Proof.
  unfold add_attribute.
  pose proof (add_attribute_to_bit (user_data f) buf attr) as H.
  destruct (add_attribute_to (user_data f) buf attr) as [m p].
  simpl in H. now destruct (m =? 0).
Qed.

Lemma add_attribute_mask buf attr f :
  mask_within (storage_mode (user_data f)) (fst (add_attribute buf attr f)).
Proof.
  unfold add_attribute.
  pose proof (add_attribute_to_mask (user_data f) buf attr) as H.
  destruct (add_attribute_to (user_data f) buf attr) as [m p].
  simpl in H. now destruct (m =? 0).
Qed.

Lemma mask_within_lor mode m b :
  mask_within mode m -> mask_within mode b ->
  mask_within mode (to_uint16 (Z.lor m b)).
Proof.
  unfold mask_within, to_uint16. intros Hm Hb.
  assert (H : Z.land (Z.lor m b) (full_mask mode) = Z.lor m b).
  { now rewrite Z.land_lor_distr_l, Hm, Hb. }
  rewrite <- Z.land_ones by lia.
  assert (H16 : Z.land (Z.lor m b) (Z.ones 16) = Z.lor m b).
  { rewrite <- H at 1. rewrite <- Z.land_assoc.
    replace (Z.land (full_mask mode) (Z.ones 16)) with (full_mask mode)
      by (destruct mode; reflexivity).
    exact H. }
  now rewrite H16.
Qed.

Lemma read_header_loop_mask fuel :
  forall buf m f rda m' f',
    read_header_loop fuel buf m f = (Some (rda, m'), f') ->
    mask_within (storage_mode (user_data f)) m ->
    mask_within (storage_mode (user_data f)) m' /\ rda <> 1.
Proof.
  induction fuel as [|fuel IH]; intros buf m f rda m' f' H Hm;
    cbn [read_header_loop] in H; [discriminate|].
  rewrite bind_unfold in H.
  pose proof (framed_read_attribute buf f) as [Hs1 _].
  destruct (read_attribute buf f) as [[[r b1] attr] f1].
  cbv beta iota in H. simpl in Hs1.
  destruct (Z.eqb_spec r 1) as [Hr|Hr].
  - rewrite bind_unfold in H.
    pose proof (framed_add_attribute b1 attr f1) as [Hs2 _].
    pose proof (add_attribute_mask b1 attr f1) as Hb.
    destruct (add_attribute b1 attr f1) as [b f2]. simpl in Hs2, Hb.
    apply IH in H.
    + now rewrite Hs2, Hs1 in H.
    + rewrite Hs2. apply mask_within_lor; rewrite Hs1; auto.
      now rewrite <- Hs1.
  - inversion H; subst. now split.
Qed.

Lemma land_single_bit (m k : Z) :
  0 <= k -> Z.land m (2 ^ k) <> 0 -> Z.land m (2 ^ k) = 2 ^ k.
Proof.
  intros Hk Hne. destruct (Z.testbit m k) eqn:E.
  - apply Z.bits_inj'. intros n Hn.
    rewrite Z.land_spec, Z.pow2_bits_eqb by lia.
    destruct (Z.eqb_spec k n) as [->|]; [now rewrite E|apply andb_false_r].
  - exfalso. apply Hne. apply Z.bits_inj'. intros n Hn.
    rewrite Z.land_spec, Z.pow2_bits_eqb, Z.bits_0 by lia.
    destruct (Z.eqb_spec k n) as [<-|]; [now rewrite E|apply andb_false_r].
Qed.

(** Within the mode's bits, nothing is missing exactly when the mask is
    the full mask. *)
Lemma missing_attributes_nil mode m :
  mask_within mode m ->
  (missing_attributes mode m = [] <-> m = full_mask mode).
Proof.
  intros Hm. split.
  - unfold missing_attributes, required_attributes. intros H.
    apply map_eq_nil in H.
    assert (Hbit : forall k, 0 <= k ->
              (Z.land m (2 ^ k) =? 0) = false -> Z.land m (2 ^ k) = 2 ^ k).
    { intros k Hk E. apply land_single_bit; [exact Hk|].
      now apply Z.eqb_neq. }
    unfold mask_within in Hm. rewrite <- Hm.
    destruct mode; cbn [app] in H;
      repeat (rewrite filter_cons_if in H; apply app_eq_nil in H;
              destruct H as [?Hb H]; cbn [fst] in *);
      repeat match goal with
             | Hb : (if ?c then _ else _) = [] |- _ =>
                 destruct c eqn:?E; [discriminate|clear Hb]
             end.
    + change (full_mask ACES_STORAGE_SCANLINE)
        with (Z.lor (2 ^ 0) (Z.lor (2 ^ 1) (Z.lor (2 ^ 2) (Z.lor (2 ^ 3)
               (Z.lor (2 ^ 4) (Z.lor (2 ^ 5) (Z.lor (2 ^ 6) (2 ^ 7)))))))).
      rewrite !Z.land_lor_distr_r.
      rewrite !Hbit by (first [lia|assumption]). reflexivity.
    + change (full_mask ACES_STORAGE_TILED)
        with (Z.lor (2 ^ 0) (Z.lor (2 ^ 1) (Z.lor (2 ^ 2) (Z.lor (2 ^ 3)
               (Z.lor (2 ^ 4) (Z.lor (2 ^ 5) (Z.lor (2 ^ 6)
               (Z.lor (2 ^ 7) (2 ^ 8))))))))).
      rewrite !Z.land_lor_distr_r.
      rewrite !Hbit by (first [lia|assumption]). reflexivity.
  - intros ->. destruct mode; reflexivity.
Qed.

Lemma read_header_words_inv f r f' :
  read_header f = (r, f') -> 0 <= r ->
  exists w rest mode, user_file f = w ++ rest /\ header_words w = Some mode.
Proof.
  intros H Hr.
  exists (take 8 (user_file f)), (drop 8 (user_file f)).
  rewrite take_drop.
  unfold read_header in H. rewrite bind_unfold in H.
  unfold readfn at 1 in H. change (Z.to_nat (4 * 2)) with 8%nat in H.
  cbv beta iota in H.
  set (w := take 8 (user_file f)) in *.
  unfold header_words.
  destruct (Z.eqb_spec (to_size_t (Z.of_nat (length w))) (4 * 2)) as [E|E];
    cbn [negb] in H; cbv iota in H.
  2: { rewrite bind_unfold in H. simpl in H. inversion H; lia. }
  assert (Hl : length w = 8%nat).
  { unfold to_size_t in E. rewrite Z.mod_small in E; [lia|].
    subst w. rewrite length_take. lia. }
  rewrite Hl. cbn [Nat.eqb andb].
  rewrite bind_unfold in H. cbv beta iota in H.
  destruct (advance (4 * 2) _) as [[] f1].
  destruct (Z.eqb_spec (int32_of w) 20000630) as [Em|Em];
    cbn [negb andb] in H |- *; cbv iota in H.
  2: { rewrite bind_unfold in H. simpl in H. inversion H; lia. }
  unfold version_mode.
  destruct (Z.eqb_spec (int32_of (drop 4 w)) 0x202) as [E2|E2];
    [eauto|].
  destruct (Z.eqb_spec (int32_of (drop 4 w)) 0x2) as [E3|E3]; [eauto|].
  cbn [negb andb] in H. cbv iota in H.
  rewrite bind_unfold in H. simpl in H. inversion H; lia.
Qed.


(** * Further properties of the reader *)

(** ** read_string at its limits *)

(** Over a stream that holds the characters [s] and no terminator among
    them, [length s] turns of the loop take them all; the loop then ends
    the array at index 31 and reports the name as too long. *)
Lemma read_string_loop_full (s : list byte) :
  forall (pos : nat) (buf : list byte) (kind : string) f rest,
    no_nul s -> user_file f = s ++ rest ->
    read_string_loop (length s) pos buf kind f =
    ((-1, <[31%nat := NUL]> (fill pos s buf)),
     upd rest (Z.of_nat (length s))
       [NameTooLong kind (c_str (<[31%nat := NUL]> (fill pos s buf)))] [] f).
Proof.
  induction s as [|b s IH]; intros pos buf kind f rest Hs Hf;
    cbn [length read_string_loop fill].
  - erewrite bind_run by apply print_error_upd.
    unfold mret, M_ret. simpl in Hf. now rewrite Hf.
  - erewrite bind_run
      by (apply (readfn_app 1 [b] (s ++ rest)); [exact Hf|reflexivity]).
    cbv beta iota. erewrite bind_run by apply advance_upd.
    inversion Hs as [|? ? Hb Hs']; subst.
    replace (negb (1 =? 1)) with false by reflexivity. cbv iota.
    cbn [head from_option id].
    destruct (Z.eqb_spec (uchar b) 0); [contradiction|].
    rewrite (IH (S pos) _ kind _ rest Hs') by reflexivity.
    rewrite !upd_upd. cbn [app].
    apply pair_equal_spec. split; [reflexivity|]. f_equal. lia.
Qed.

(** Over a stream that ends inside the name, the loop fails at the read
    after the last character, which it has counted in the position. *)
Lemma read_string_loop_eof (s : list byte) :
  forall (n pos : nat) (buf : list byte) (kind : string) f,
    no_nul s -> (length s < n)%nat -> user_file f = s ->
    read_string_loop n pos buf kind f =
    ((-1, fill pos s buf),
     upd [] (Z.of_nat (length s) + 1) [EofInName kind (fill pos s buf)] [] f).
Proof.
  induction s as [|b s IH]; intros n pos buf kind f Hs Hn Hf;
    (destruct n as [|n]; [simpl in Hn; lia|]); cbn [read_string_loop fill].
  - erewrite bind_run by (apply readfn_short; rewrite Hf; simpl; lia).
    rewrite Hf. cbv beta iota. erewrite bind_run by apply advance_upd.
    replace (negb (Z.of_nat (length (@nil byte)) =? 1)) with true
      by reflexivity.
    cbv iota. erewrite bind_run by apply print_error_upd.
    unfold mret, M_ret. rewrite !upd_upd, !user_file_upd. reflexivity.
  - erewrite bind_run
      by (apply (readfn_app 1 [b] s); [exact Hf|reflexivity]).
    cbv beta iota. erewrite bind_run by apply advance_upd.
    inversion Hs as [|? ? Hb Hs']; subst.
    replace (negb (1 =? 1)) with false by reflexivity. cbv iota.
    cbn [head from_option id].
    destruct (Z.eqb_spec (uchar b) 0); [contradiction|].
    rewrite (IH n (S pos) _ kind _ Hs') by (simpl in Hn; try lia; reflexivity).
    rewrite !upd_upd. cbn [app length].
    apply pair_equal_spec. split; [reflexivity|]. f_equal. lia.
Qed.

Lemma c_str_truncated (s : list byte) :
  no_nul s -> length s = 32%nat ->
  <[31%nat := NUL]> s = take 31 s ++ [NUL]
  /\ c_str (<[31%nat := NUL]> s) = take 31 s.
Proof.
  intros Hs Hl.
  assert (E : <[31%nat := NUL]> s = take 31 s ++ [NUL]).
  { rewrite insert_take_drop by lia. now rewrite drop_ge by lia. }
  split; [exact E|]. rewrite E. apply c_str_app_nul.
  now apply Forall_take.
Qed.

(** X1.  [read_string] on a name of at most 31 characters followed by its
    terminator returns the length of the name and leaves the stream after
    the terminator; the array holds the name and the terminator, and the
    rest of the array is as it was; the position has advanced by the
    length of the name plus one, and nothing is reported. *)
Theorem read_string_round_trip (s buf : list byte) (kind : string) f rest :
  no_nul s -> (length s <= 31)%nat -> length buf = 32%nat ->
  user_file f = s ++ NUL :: rest ->
  read_string buf kind f =
  ((Z.of_nat (length s), s ++ NUL :: drop (S (length s)) buf),
   upd rest (Z.of_nat (length s) + 1) [] [] f)
  /\ c_str (s ++ NUL :: drop (S (length s)) buf) = s.
Proof.
  intros Hs Hl Hb Hf. split; [|now apply c_str_app_nul].
  unfold read_string.
  rewrite (read_string_loop_ok s 32 0 buf kind f rest) by (auto; lia).
  rewrite fill_take_drop by (rewrite length_app; simpl; lia).
  rewrite take_0, length_app. cbn [length app]. rewrite <- app_assoc.
  cbn [app]. replace (length s + 1)%nat with (S (length s)) by lia.
  reflexivity.
Qed.

Lemma read_string_full (s buf : list byte) (kind : string) f rest :
  no_nul s -> length s = 32%nat -> length buf = 32%nat ->
  user_file f = s ++ rest ->
  read_string buf kind f =
  ((-1, take 31 s ++ [NUL]),
   upd rest 32 [NameTooLong kind (take 31 s)] [] f).
Proof.
  intros Hs Hl Hb Hf. unfold read_string.
  replace 32%nat with (length s) at 1.
  rewrite (read_string_loop_full s 0 buf kind f rest Hs Hf).
  assert (fill 0 s buf = s) as ->.
  { rewrite fill_take_drop by lia. rewrite drop_ge by lia.
    rewrite take_0. apply app_nil_r. }
  destruct (c_str_truncated s Hs Hl) as [-> ->]. now rewrite Hl.
Qed.

(** X2.  [read_string] on 32 characters without a terminator fails with
    -1.  It has taken exactly those 32 characters from the stream, keeps
    the first 31 of them, terminated, in the array, and reports the name
    as too long, quoting those 31. *)
Theorem read_string_too_long (s buf : list byte) (kind : string) f rest :
  no_nul s -> length s = 32%nat -> length buf = 32%nat ->
  user_file f = s ++ rest ->
  read_string buf kind f =
  ((-1, take 31 s ++ [NUL]),
   upd rest 32 [NameTooLong kind (take 31 s)] [] f)
  /\ c_str (take 31 s ++ [NUL]) = take 31 s.
Proof.
  intros Hs Hl Hb Hf. split; [now apply read_string_full|].
  apply c_str_app_nul. now apply Forall_take.
Qed.

(** X3.  [read_string] on a stream that ends before a terminator, after
    fewer than 32 characters, fails with -1 and reports the missing end
    of the name.  The position is advanced for the failed read too: it
    counts one byte more than the stream held. *)
Theorem read_string_eof (s buf : list byte) (kind : string) f :
  no_nul s -> (length s <= 31)%nat -> length buf = 32%nat ->
  user_file f = s ->
  let attrname := s ++ drop (length s) buf in
  read_string buf kind f =
  ((-1, attrname),
   upd [] (Z.of_nat (length s) + 1) [EofInName kind attrname] [] f)
  /\ cur_file_pos (snd (read_string buf kind f))
     = cur_file_pos f + Z.of_nat (length (user_file f)) + 1.
Proof.
  intros Hs Hl Hb Hf attrname.
  assert (E : read_string buf kind f =
              ((-1, attrname),
               upd [] (Z.of_nat (length s) + 1) [EofInName kind attrname] [] f)).
  { unfold read_string.
    rewrite (read_string_loop_eof s 32 0 buf kind f Hs) by (auto; lia).
    rewrite fill_take_drop by lia. reflexivity. }
  split; [exact E|]. rewrite E, Hf. simpl. lia.
Qed.

(** ** The table of type names *)

Lemma uchar_inj (x y : byte) : uchar x = uchar y -> x = y.
Proof.
  unfold uchar. intros H. apply N2Z.inj in H.
  pose proof (Byte.of_to_N x) as Hx. rewrite H, Byte.of_to_N in Hx.
  now inversion Hx.
Qed.

(** On strings without a terminator inside, [strcmp] returns 0 for equal
    strings only. *)
Lemma strcmp_eq (a b : list byte) :
  no_nul a -> no_nul b -> strcmp a b = 0 -> a = b.
Proof.
  intros Ha. revert b. induction Ha as [|x a Hx Ha IH];
    intros b Hb; destruct Hb as [|y b Hy Hb]; simpl; intros H.
  - reflexivity.
  - lia.
  - lia.
  - destruct (Z.eqb_spec (uchar x) (uchar y)) as [E|E]; [|lia].
    destruct (Z.eqb_spec (uchar x) 0); [contradiction|].
    f_equal; [now apply uchar_inj|now apply IH].
Qed.

Lemma attr_name_lookup_user table idx t :
  (forall s, s ∈ table -> strcmp (bytes_of s) t <> 0) ->
  attr_name_lookup table idx t = ACES_ATTR_USER.
Proof.
  revert idx. induction table as [|s table IH]; intros idx H; simpl;
    [reflexivity|].
  destruct (Z.eqb_spec (strcmp (bytes_of s) t) 0) as [E|E].
  - exfalso. apply (H s); [left|exact E].
  - apply IH. intros s' Hs'. apply H. now right.
Qed.

Lemma the_predefined_attr_typenames_no_nul :
  Forall (fun s => no_nul (bytes_of s)) the_predefined_attr_typenames.
Proof.
  unfold the_predefined_attr_typenames.
  repeat (apply List.Forall_cons; [apply no_nulb_spec; reflexivity|]).
  apply List.Forall_nil.
Qed.

(** X4.  [attr_name_to_type] is the inverse of the table of predefined
    type names: the name at index [i] resolves to the enumerator of value
    [i + 1]; a name that is not in the table resolves to [ACES_ATTR_USER];
    and [ACES_ATTR_UNKNOWN] is the answer for the empty name only. *)
Theorem attr_name_to_type_table :
  (forall i s, the_predefined_attr_typenames !! i = Some s ->
      attr_name_to_type (bytes_of s) = attribute_type_of_nat (S i))
  /\ (forall t, no_nul t -> t <> [] ->
        (forall s, s ∈ the_predefined_attr_typenames -> bytes_of s <> t) ->
        attr_name_to_type t = ACES_ATTR_USER)
  /\ (forall t, no_nul t ->
        (attr_name_to_type t = ACES_ATTR_UNKNOWN <-> t = [])).
Proof.
  split; [|split].
  - intros i s H.
    do 23 (destruct i as [|i]; [injection H as <-; reflexivity|]).
    discriminate.
  - intros t Ht Hne Hout. destruct t as [|c t]; [contradiction|].
    cbn [attr_name_to_type]. apply attr_name_lookup_user.
    intros s Hs E. apply (Hout s Hs).
    apply strcmp_eq; [|exact Ht|exact E].
    pose proof the_predefined_attr_typenames_no_nul as Hall.
    rewrite List.Forall_forall in Hall. apply Hall.
    now apply list_elem_of_In.
  - intros t _. split; [|intros ->; reflexivity].
    destruct t as [|c t]; [reflexivity|].
    unfold attr_name_to_type, the_predefined_attr_typenames.
    cbn [attr_name_lookup].
    repeat match goal with
           | |- context [if ?b then _ else _] => destruct b
           end; discriminate.
Qed.

(** ** A type the switch has no case for *)

(** X5.  The table knows the type name [stringvector], but the [switch]
    of [read_attribute] has no case for its enumerator: a record of that
    type, whatever its size and payload, ends in the default case.
    [read_attribute] reports an unknown type and fails, the payload
    unread, and an open of a file with such a record returns no handle. *)
Theorem stringvector_attribute_rejected (buf aname sz rest : list byte) :
  no_nul aname -> aname <> [] -> (length aname <= 31)%nat ->
  length sz = 4%nat -> length buf = 32%nat ->
  let tname := bytes_of "stringvector" in
  let record := aname ++ NUL :: tname ++ NUL :: sz ++ rest in
  let failed f :=
    upd rest (Z.of_nat (length aname) + 18)
      [UnknownAttrType aname tname] [] f in
  attr_name_to_type tname = ACES_ATTR_STRING_VECTOR
  /\ (forall f, user_file f = record ->
        exists buf' attr,
          read_attribute buf f = ((-1, buf', attr), failed f)
          /\ type attr = ACES_ATTR_STRING_VECTOR)
  /\ (forall filename fd0 w mode,
        filename <> [] -> malloc_ok 0 sizeof_file_data = true ->
        header_words w = Some mode ->
        os_open filename = Some (fd0, w ++ record) ->
        aces_start_read (Some filename) =
        {| handle := None; reported := [UnknownAttrType aname tname] |}).
Proof.
  intros Ha Hne Hla Hsz Hb tname record failed.
  assert (Hread : forall b f, length b = 32%nat -> user_file f = record ->
                    exists buf' attr,
                      read_attribute b f = ((-1, buf', attr), failed f)
                      /\ type attr = ACES_ATTR_STRING_VECTOR).
  { intros b f Hlb Hf.
    destruct (read_attribute_record b f aname tname sz rest)
      as (buf' & _ & _ & E); auto;
      [apply no_nulb_spec; reflexivity|simpl; lia|].
    rewrite E. unfold read_attribute_value.
    change (attr_name_to_type tname) with ACES_ATTR_STRING_VECTOR. cbv iota.
    erewrite bind_run by apply print_error_upd.
    unfold mret, M_ret. rewrite upd_upd, user_file_upd.
    eexists _, _. split.
    - unfold failed. f_equal. f_equal. simpl. lia.
    - reflexivity. }
  split; [reflexivity|split].
  - intros f Hf. now apply Hread.
  - intros filename fd0 w mode Hn Hm Hw Ho.
    edestruct (Hread char32) as (b' & attr & E & _);
      [reflexivity| |
       erewrite failing_attribute_aborts_open; eauto; [reflexivity|lia]].
    reflexivity.
Qed.

(** ** Fixed-size attributes that are read *)

Lemma uchar_byte_of_Z (x : Z) : uchar (byte_of_Z x) = x mod 256.
Proof.
  unfold byte_of_Z. pose proof (Z.mod_pos_bound x 256 ltac:(lia)) as Hx.
  destruct (Byte.of_N (Z.to_N (x mod 256))) as [b|] eqn:E.
  - simpl. unfold uchar. rewrite (Byte.to_of_N _ E). lia.
  - apply Byte.of_N_None_iff in E. lia.
Qed.

Lemma length_le_encode n x : length (le_encode n x) = n.
Proof. revert x. induction n as [|n IH]; intros x; simpl; auto. Qed.

(** [le_encode] writes the low [n] bytes of a number, and [le_bytes]
    reads them back. *)
Lemma le_bytes_le_encode n x :
  le_bytes (le_encode n x) = x mod 256 ^ Z.of_nat n.
Proof.
  revert x. induction n as [|n IH]; intros x.
  - simpl. now rewrite Z.mod_1_r.
  - cbn [le_encode le_bytes]. rewrite IH, uchar_byte_of_Z.
    rewrite Nat2Z.inj_succ, Z.pow_succ_r by lia.
    rewrite Z.rem_mul_r by lia. reflexivity.
Qed.

Lemma int32_of_le_encode x r :
  - 2 ^ 31 <= x < 2 ^ 31 -> int32_of (le_encode 4 x ++ r) = x.
Proof.
  intros Hx. unfold int32_of.
  rewrite take_app_length' by (now rewrite length_le_encode).
  rewrite le_bytes_le_encode. change (256 ^ Z.of_nat 4) with (2 ^ 32).
  unfold wrap32. destruct (Z_lt_le_dec x 0).
  - replace (x mod 2 ^ 32) with (x + 2 ^ 32).
    + replace (x + 2 ^ 32 + 2 ^ 31) with (x + 2 ^ 31 + 1 * 2 ^ 32) by lia.
      rewrite Z.mod_add by lia. rewrite Z.mod_small; lia.
    + replace x with (x + 2 ^ 32 + (-1) * 2 ^ 32) at 2 by lia.
      rewrite Z.mod_add by lia. rewrite Z.mod_small; lia.
  - rewrite (Z.mod_small x) by lia. rewrite Z.mod_small; lia.
Qed.

(** A size-checked read over a stream that ends inside the data takes
    what is left and fails. *)
Lemma attr_check_size_and_read_short given n t f :
  to_size_t given = n -> Z.of_nat (length (user_file f)) < n ->
  attr_check_size_and_read given n t f =
  ((-1, user_file f),
   upd [] (Z.of_nat (length (user_file f))) [AttrDataEof t] [] f).
Proof.
  intros Hg Hn. unfold attr_check_size_and_read.
  rewrite Hg, Z.eqb_refl. cbn [negb]. cbv iota.
  erewrite bind_run by (apply readfn_short; lia).
  cbv beta iota. erewrite bind_run by apply advance_upd.
  destruct (Z.eqb_spec (to_size_t (Z.of_nat (length (user_file f)))) n)
    as [E|E].
  { unfold to_size_t in *.
    pose proof (Z.mod_pos_bound given (2 ^ 64) ltac:(lia)).
    rewrite Z.mod_small in E by lia. lia. }
  cbn [negb]. cbv iota. erewrite bind_run by apply print_error_upd.
  unfold mret, M_ret. rewrite !upd_upd, !user_file_upd. cbn [app].
  do 2 f_equal. lia.
Qed.

Lemma to_size_t_native given n :
  0 < n < 2 ^ 31 -> given = n -> to_size_t given = n.
Proof. intros Hn ->. unfold to_size_t. apply Z.mod_small. lia. Qed.

(** X6.  A record of a fixed-size type whose declared size is the native
    size of the type.  When the stream holds the payload, [read_attribute]
    returns 1 with an attribute of that type whose union holds exactly the
    bytes of the payload, and the stream and the position are just after
    them.  When the stream ends inside the payload, [read_attribute] takes
    what is left, reports the end of file and fails. *)
Theorem fixed_attribute_read_verbatim
  (buf aname tname sz : list byte) (native : Z) :
  no_nul aname -> aname <> [] -> (length aname <= 31)%nat ->
  no_nul tname -> (length tname <= 31)%nat ->
  length sz = 4%nat -> length buf = 32%nat ->
  native_size (attr_name_to_type tname) = Some native ->
  int32_of sz = native ->
  let start := Z.of_nat (length aname + length tname) + 6 in
  let attr payload :=
    {| type_name := None; type := attr_name_to_type tname;
       u := u_raw payload |} in
  (forall f payload rest,
      Z.of_nat (length payload) = native ->
      user_file f = aname ++ NUL :: tname ++ NUL :: sz ++ payload ++ rest ->
      exists buf',
        c_str buf' = aname
        /\ read_attribute buf f =
           ((1, buf', attr payload), upd rest (start + native) [] [] f))
  /\ (forall f payload,
        Z.of_nat (length payload) < native ->
        user_file f = aname ++ NUL :: tname ++ NUL :: sz ++ payload ->
        exists buf',
          read_attribute buf f =
          ((-1, buf', attr payload),
           upd [] (start + Z.of_nat (length payload)) [AttrDataEof tname] []
             f)).
Proof.
  intros Ha Hne Hla Ht Hlt Hsz Hb Hnat Hsize start attr.
  pose proof (native_size_range _ _ Hnat) as Hrange.
  pose proof (to_size_t_native _ _ Hrange Hsize) as Hg.
  split.
  - intros f payload rest Hl Hf.
    destruct (read_attribute_record buf f aname tname sz (payload ++ rest))
      as (buf' & Hc & _ & E); auto.
    exists buf'. split; [exact Hc|].
    rewrite E, (read_attribute_value_fixed _ _ _ native Hnat).
    unfold read_fixed.
    erewrite bind_run
      by (apply (attr_check_size_and_read_ok _ _ _ _ payload rest);
          [exact Hg|apply user_file_upd|exact Hl]).
    cbv beta iota. unfold mret, M_ret. rewrite upd_upd. reflexivity.
  - intros f payload Hl Hf.
    destruct (read_attribute_record buf f aname tname sz payload)
      as (buf' & Hc & _ & E); auto.
    exists buf'.
    rewrite E, (read_attribute_value_fixed _ _ _ native Hnat).
    unfold read_fixed.
    erewrite bind_run
      by (apply attr_check_size_and_read_short;
          [exact Hg|rewrite user_file_upd; lia]).
    cbv beta iota. unfold mret, M_ret.
    rewrite !upd_upd, !user_file_upd. reflexivity.
Qed.

(** ** One turn of the header loop *)

Lemma read_attribute_fixed_ok (buf aname tname sz payload rest : list byte)
  (native : Z) f :
  no_nul aname -> aname <> [] -> (length aname <= 31)%nat ->
  no_nul tname -> (length tname <= 31)%nat ->
  length sz = 4%nat -> length buf = 32%nat ->
  native_size (attr_name_to_type tname) = Some native ->
  int32_of sz = native -> Z.of_nat (length payload) = native ->
  user_file f = aname ++ NUL :: tname ++ NUL :: sz ++ payload ++ rest ->
  exists buf',
    c_str buf' = aname
    /\ read_attribute buf f =
       ((1, buf', {| type_name := None; type := attr_name_to_type tname;
                     u := u_raw payload |}),
        upd rest (Z.of_nat (length aname + length tname) + 6 + native) [] []
          f).
Proof.
  intros Ha Hne Hla Ht Hlt Hsz Hb Hnat Hsize Hl Hf.
  pose proof (native_size_range _ _ Hnat) as Hrange.
  pose proof (to_size_t_native _ _ Hrange Hsize) as Hg.
  destruct (read_attribute_record buf f aname tname sz (payload ++ rest))
    as (buf' & Hc & _ & E); auto.
  exists buf'. split; [exact Hc|].
  rewrite E, (read_attribute_value_fixed _ _ _ native Hnat).
  unfold read_fixed.
  erewrite bind_run
    by (apply (attr_check_size_and_read_ok _ _ _ _ payload rest);
        [exact Hg|apply user_file_upd|exact Hl]).
  cbv beta iota. unfold mret, M_ret. rewrite upd_upd. reflexivity.
Qed.

Lemma attr_box2i_bytes tn ty (w : aces_attr_box2i) :
  int32_range (x_min w) -> int32_range (y_min w) ->
  int32_range (x_max w) -> int32_range (y_max w) ->
  attr_box2i {| type_name := tn; type := ty; u := u_raw (box2i_bytes w) |}
  = w.
Proof.
  intros H1 H2 H3 H4. destruct w as [x0 y0 x1 y1].
  cbn [x_min y_min x_max y_max] in *.
  unfold attr_box2i, box2i_bytes. cbn [u union_image x_min y_min x_max y_max].
  change 12%nat with (4 + (4 + 4))%nat. change 8%nat with (4 + 4)%nat.
  rewrite <- !drop_drop.
  rewrite !(drop_app_length' (le_encode 4 _)) by now rewrite length_le_encode.
  rewrite <- (app_nil_r (le_encode 4 y1)).
  now rewrite !int32_of_le_encode.
Qed.

Ltac name_tests :=
  repeat match goal with
         | |- context [strcmp ?a ?b =? 0] =>
             let v := eval vm_compute in (strcmp a b =? 0) in
             change (strcmp a b =? 0) with v
         end.

(** X7.  A [dataWindow] record of type [box2i], with the four integers
    of a box as its 16 bytes of payload, is one turn of the header loop:
    the box in the header is then the box of the record, whatever the
    header held before (of two such records the later one stays), the bit
    of the attribute is in the mask, and nothing else has changed but the
    stream and the position, which are after the 37 bytes of the
    record. *)
Theorem data_window_round_trip (buf sz rest : list byte)
  (w : aces_attr_box2i) f fuel mask :
  length buf = 32%nat -> length sz = 4%nat -> int32_of sz = 16 ->
  int32_range (x_min w) -> int32_range (y_min w) ->
  int32_range (x_max w) -> int32_range (y_max w) ->
  user_file f = bytes_of "dataWindow" ++ NUL :: bytes_of "box2i" ++ NUL ::
                sz ++ box2i_bytes w ++ rest ->
  exists buf',
    c_str buf' = bytes_of "dataWindow"
    /\ read_header_loop (S fuel) buf mask f =
       read_header_loop fuel buf' (to_uint16 (Z.lor mask REQ_DATA_MASK))
         (set_user_data (with_data_window w (user_data f))
            (upd rest 37 [] [] f)).
Proof.
  intros Hb Hsz Hsize H1 H2 H3 H4 Hf.
  destruct (read_attribute_fixed_ok buf (bytes_of "dataWindow")
              (bytes_of "box2i") sz (box2i_bytes w) rest 16 f)
    as (buf' & Hc & E); auto;
    try (apply no_nulb_spec; reflexivity); try (simpl; lia);
    try discriminate; try reflexivity.
  exists buf'. split; [exact Hc|].
  eapply read_header_loop_step; [exact E|].
  unfold add_attribute, add_attribute_to, name_is. rewrite Hc.
  unfold REQ_CHANNELS_STR, REQ_COMP_STR, REQ_DATA_STR. name_tests.
  cbv iota. change (REQ_DATA_MASK =? 0) with false. cbv iota.
  rewrite attr_box2i_bytes by assumption. reflexivity.
Qed.

Lemma add_attribute_to_user p buf attr :
  required_bit (storage_mode p) (c_str buf) = 0 ->
  add_attribute_to p buf attr
  = (0, append_user_attribute (c_str buf) attr p).
Proof.
  unfold add_attribute_to, required_bit, required_attributes, name_is,
    append_user_attribute.
  destruct (storage_mode p); cbn [app List.find fst snd];
    repeat match goal with
           | |- context [strcmp ?a ?b =? 0] => destruct (strcmp a b =? 0)
           end; intros H; try discriminate H; reflexivity.
Qed.

Lemma add_attribute_user buf attr f :
  required_bit (storage_mode (user_data f)) (c_str buf) = 0 ->
  add_attribute buf attr f =
  (0, set_user_data (append_user_attribute (c_str buf) attr (user_data f))
        (upd (user_file f) 0 [] [sizeof_user_attribute] f)).
Proof.
  intros H. unfold add_attribute. rewrite (add_attribute_to_user _ _ _ H).
  cbn [Z.eqb]. rewrite malloc_upd. reflexivity.
Qed.

Lemma to_size_t_small x : 0 <= x < 2 ^ 31 -> to_size_t x = x.
Proof. intros H. unfold to_size_t. apply Z.mod_small. lia. Qed.

Lemma attr_read_userdata_ok size f payload rest :
  0 <= size < 2 ^ 31 ->
  malloc_ok (length (mallocs f)) size = true ->
  user_file f = payload ++ rest -> Z.of_nat (length payload) = size ->
  attr_read_userdata size f =
  ((1, {| size_ := size; data := Some payload |}),
   upd rest size [] [size] f).
Proof.
  intros Hsz Hok Hf Hl. unfold attr_read_userdata.
  rewrite (to_size_t_small size Hsz), Z.mul_1_r, (to_size_t_small size Hsz).
  erewrite bind_run by apply malloc_upd. rewrite Hok. cbn [negb]. cbv iota.
  erewrite bind_run
    by (apply (readfn_app size payload rest); [rewrite user_file_upd|]; eauto).
  cbv beta iota. erewrite bind_run by apply advance_upd.
  rewrite Z.eqb_refl. cbn [negb]. cbv iota.
  unfold mret, M_ret. rewrite !upd_upd, !user_file_upd. reflexivity.
Qed.

(** X8.  A record whose type name is not a predefined one and whose name
    is not a mandatory attribute of the file: [read_attribute] keeps the
    type name and exactly the declared number of payload bytes as a user
    attribute, and the turn of the header loop appends it, under its
    name, at the end of the list of user attributes; the rest of the
    header and the mask stay as they were.  Three blocks are requested:
    the copy of the type name, the payload and the list node. *)
Theorem user_attribute_round_trip
  (buf aname tname sz payload rest : list byte) f fuel mask :
  (forall k n, malloc_ok k n = true) ->
  no_nul aname -> aname <> [] -> (length aname <= 31)%nat ->
  no_nul tname -> (length tname <= 31)%nat ->
  attr_name_to_type tname = ACES_ATTR_USER ->
  required_bit (storage_mode (user_data f)) aname = 0 ->
  length sz = 4%nat -> length buf = 32%nat ->
  int32_of sz = Z.of_nat (length payload) ->
  user_file f = aname ++ NUL :: tname ++ NUL :: sz ++ payload ++ rest ->
  let attr :=
    {| type_name := Some tname; type := ACES_ATTR_USER;
       u := u_userdata {| size_ := Z.of_nat (length payload);
                          data := Some payload |} |} in
  let total :=
    Z.of_nat (length aname + length tname + length payload) + 6 in
  let requested :=
    [Z.of_nat (length tname) + 1; Z.of_nat (length payload)] in
  exists buf',
    c_str buf' = aname
    /\ read_attribute buf f =
       ((1, buf', attr), upd rest total [] requested f)
    /\ read_header_loop (S fuel) buf mask f =
       read_header_loop fuel buf' (to_uint16 (Z.lor mask 0))
         (set_user_data (append_user_attribute aname attr (user_data f))
            (upd rest total [] (requested ++ [sizeof_user_attribute]) f)).
Proof.
  intros Hok Ha Hne Hla Ht Hlt Hty Hreq Hsz Hb Hsize Hf attr total requested.
  pose proof (int32_of_range sz) as Hrange. rewrite Hsize in Hrange.
  destruct (read_attribute_record buf f aname tname sz (payload ++ rest))
    as (buf' & Hc & _ & E); auto.
  assert (Hread : read_attribute buf f =
                  ((1, buf', attr), upd rest total [] requested f)).
  { rewrite E. unfold read_attribute_value. rewrite Hty. cbv iota.
    erewrite bind_run by apply malloc_upd. rewrite Hok. rewrite Hsize.
    erewrite bind_run
      by (apply (attr_read_userdata_ok _ _ payload rest);
          [lia|apply Hok|now rewrite !user_file_upd|reflexivity]).
    cbv beta iota. unfold mret, M_ret. cbn [negb].
    rewrite !upd_upd. cbn [app].
    apply pair_equal_spec. split; [reflexivity|].
    unfold total. f_equal. lia. }
  exists buf'. split; [exact Hc|]. split; [exact Hread|].
  eapply read_header_loop_step; [exact Hread|].
  rewrite add_attribute_user by (rewrite Hc; exact Hreq).
  rewrite Hc, upd_upd, user_file_upd. cbn [user_data upd].
  apply pair_equal_spec. split; [reflexivity|].
  unfold set_user_data, upd; cbn. f_equal. lia.
Qed.

(** ** Declared sizes the readers do not accept, or do not look at *)

Lemma to_size_t_negative x : - 2 ^ 31 <= x < 0 -> to_size_t x = x + 2 ^ 64.
Proof.
  intros H. unfold to_size_t.
  replace x with (x + 2 ^ 64 + (-1) * 2 ^ 64) at 1 by lia.
  rewrite Z.mod_add by lia. apply Z.mod_small. lia.
Qed.

Lemma attr_read_string_negative size f :
  size < 0 -> fst (fst (attr_read_string size f)) = -1.
Proof.
  intros H. unfold attr_read_string. rewrite bind_unfold.
  destruct (malloc _ f) as [ok f1]. destruct ok; cbn [negb]; cbv iota;
    [|reflexivity].
  rewrite bind_unfold. unfold readfn at 1. cbv beta iota.
  rewrite bind_unfold. cbn [advance].
  destruct (Z.eqb_spec (Z.of_nat (length (take (Z.to_nat (to_size_t size))
                                            (user_file f1)))) size);
    [lia|reflexivity].
Qed.

Lemma attr_read_userdata_negative size f :
  size < 0 -> fst (fst (attr_read_userdata size f)) = -1.
Proof.
  intros H. unfold attr_read_userdata. rewrite bind_unfold.
  destruct (malloc _ f) as [ok f1]. destruct ok; cbn [negb]; cbv iota;
    [|reflexivity].
  rewrite bind_unfold. unfold readfn at 1. cbv beta iota.
  rewrite bind_unfold. cbn [advance].
  destruct (Z.eqb_spec (Z.of_nat (length (take (Z.to_nat (to_size_t size))
                                            (user_file f1)))) size);
    [lia|reflexivity].
Qed.

(** X9.  A negative declared size is accepted for no attribute type but
    one: the fixed-size types fail the size check, [string] and a user
    type fail after their read, which cannot return a negative count,
    [preview] fails its guard, and the types without a case fail anyway.
    The exception is [chlist], whose reader never looks at the declared
    size: its result is the same for every declared size. *)
Theorem negative_declared_size_rejected (aname tname : list byte) :
  (forall asize f,
      - 2 ^ 31 <= asize < 0 ->
      attr_name_to_type tname <> ACES_ATTR_CHLIST ->
      fst (fst (read_attribute_value aname tname asize f)) = -1)
  /\ (forall asize asize',
        attr_name_to_type tname = ACES_ATTR_CHLIST ->
        read_attribute_value aname tname asize
        = read_attribute_value aname tname asize').
Proof.
  split.
  - intros asize f Hneg Hty. unfold read_attribute_value.
    pose proof (to_size_t_negative asize Hneg) as Hbig.
    destruct (attr_name_to_type tname) eqn:E; try contradiction;
      try (unfold read_fixed;
           rewrite bind_unfold, attr_check_size_and_read_mismatch by lia;
           reflexivity);
      try reflexivity.
    + rewrite bind_unfold.
      replace (attr_read_preview asize f)
        with ((-1, {| width := 0; height := 0; rgba := None |}),
              upd (user_file f) 0 [PreviewTooSmall] [] f); [reflexivity|].
      symmetry. apply attr_read_preview_guard. lia.
    + rewrite bind_unfold.
      pose proof (attr_read_string_negative asize f ltac:(lia)) as H.
      destruct (attr_read_string asize f) as [[r s] f1]. exact H.
    + rewrite bind_unfold. destruct (malloc _ f) as [ok f1].
      rewrite bind_unfold.
      pose proof (attr_read_userdata_negative asize f1 ltac:(lia)) as H.
      destruct (attr_read_userdata asize f1) as [[r s] f2]. exact H.
  - intros asize asize' Hty. unfold read_attribute_value. now rewrite Hty.
Qed.

(** X10.  [attr_read_preview] reads by the dimensions it finds, not by
    the declared size: for every declared size above 4 it takes the two
    32-bit dimensions and then [4 * width * height] bytes of pixels,
    that product being computed in 32 bits.  The attribute keeps the
    dimensions as read; when the product passes 32 bits the pixel buffer
    is shorter than the dimensions say. *)
Theorem preview_read_by_dimensions (size : Z) (dims pixels rest : list byte)
  f :
  4 < size -> length dims = 8%nat ->
  let w := uint32_of dims in
  let h := uint32_of (drop 4 dims) in
  let n := (4 * w * h) mod 2 ^ 32 in
  malloc_ok (length (mallocs f)) n = true ->
  user_file f = dims ++ pixels ++ rest -> Z.of_nat (length pixels) = n ->
  attr_read_preview size f =
  ((1, {| width := w; height := h; rgba := Some pixels |}),
   upd rest (8 + n) [] [n] f)
  /\ (2 ^ 32 <= 4 * w * h -> Z.of_nat (length pixels) < 4 * w * h).
Proof.
  intros Hsize Hd w h n Hok Hf Hl.
  pose proof (Z.mod_pos_bound (4 * w * h) (2 ^ 32) ltac:(lia)) as Hn.
  fold n in Hn. split; [|lia].
  unfold attr_read_preview. destruct (Z.leb_spec size 4); [lia|].
  erewrite bind_run
    by (apply (readfn_app (2 * 4) dims (pixels ++ rest)); [exact Hf|lia]).
  cbv beta iota. erewrite bind_run by apply advance_upd.
  replace (negb (to_size_t (2 * 4) =? 2 * 4)) with false by reflexivity.
  cbv iota. rewrite upd_upd, user_file_upd. fold w h.
  assert (to_size_t (to_uint32 (to_uint32 (4 * w) * h) * 1) = n) as ->.
  { unfold to_uint32. rewrite Z.mul_mod_idemp_l, Z.mul_1_r by lia.
    fold n. unfold to_size_t. apply Z.mod_small. lia. }
  erewrite bind_run by apply malloc_upd.
  cbn [mallocs upd]. rewrite app_nil_r, Hok. cbn [negb]. cbv iota.
  erewrite bind_run
    by (apply (readfn_app n pixels rest); [reflexivity|exact Hl]).
  cbv beta iota. erewrite bind_run by apply advance_upd.
  assert (to_size_t n = n) as ->
      by (unfold to_size_t; apply Z.mod_small; lia).
  rewrite Z.eqb_refl. cbn [negb]. cbv iota.
  unfold mret, M_ret. rewrite !upd_upd, user_file_upd. reflexivity.
Qed.

(** ** Channel lists: a name that is too long, and channels of one name *)

(** X11.  The loop of [attr_read_chlist] goes on while [read_string]
    returns a value that is not 0, so also on its failure value -1.  A
    channel whose name has 32 characters is therefore reported as too
    long and then read all the same: its name is cut to 31 characters,
    the 16 bytes after the 32 characters are taken as its fields, and the
    channel list is accepted with result 1. *)
Theorem long_channel_name_accepted (size : Z)
  (s pt pl rs xs ys rest : list byte) f :
  (forall k n, malloc_ok k n = true) ->
  no_nul s -> length s = 32%nat ->
  length pt = 4%nat -> length pl = 1%nat -> length rs = 3%nat ->
  length xs = 4%nat -> length ys = 4%nat ->
  user_file f = s ++ pt ++ pl ++ rs ++ xs ++ ys ++ NUL :: rest ->
  attr_read_chlist size f =
  ((1, {| num_channels := 1;
          entries := Some [ {| name := take 31 s;
                               pixel_type := int32_of pt;
                               p_linear := uint8_of pl; reserved := rs;
                               x_sampling := int32_of xs;
                               y_sampling := int32_of ys |} ] |}),
   upd rest 49 [NameTooLong "channel" (take 31 s)]
     [sizeof_tmp_ch_list; sizeof_chlist_entry] f).
Proof.
  intros Hok Hs Hl H1 H2 H3 H4 H5 Hf.
  unfold attr_read_chlist. rewrite bind_unfold.
  assert (Hfuel : exists fuel, length (user_file f) = S fuel).
  { rewrite Hf, length_app, Hl. simpl. eauto. }
  destruct Hfuel as [fuel ->]. cbn [attr_read_chlist_loop].
  erewrite bind_run
    by (apply (read_string_full s char32); [exact Hs|exact Hl|reflexivity|
                                             exact Hf]).
  cbv beta iota. change (-1 =? 0) with false. cbv iota.
  erewrite bind_run by apply malloc_upd. rewrite Hok. cbn [negb]. cbv iota.
  erewrite bind_run
    by (eapply read_chlist_fields_ok;
        [exact H1|exact H2|exact H3|exact H4|exact H5|
          rewrite !user_file_upd; reflexivity]).
  cbv beta iota. rewrite c_str_app_nul by now apply Forall_take.
  cbn [attr_read_chlist_loop].
  match goal with
  | |- context [(read_string ?b "channel" ≫= _) ?st] =>
      destruct (read_string_ok [] b "channel" st rest) as (b1 & E1 & _ & _);
        [constructor|simpl; lia| |rewrite !user_file_upd; reflexivity|]
  end.
  { rewrite length_app, length_take, Hl. reflexivity. }
  rewrite (bind_run _ _ _ _ _ E1). cbv beta iota.
  change (Z.of_nat (length (@nil byte)) =? 0) with true. cbv iota.
  unfold mret at 1, M_ret at 1. cbv beta iota.
  cbn [insert_sorted]. change (wrap32 (0 + 1) >? 0) with true. cbv iota.
  erewrite bind_run by apply malloc_upd. rewrite Hok. cbn [negb]. cbv iota.
  unfold mret, M_ret. rewrite !upd_upd, !user_file_upd. reflexivity.
Qed.

Lemma strcmp_lt_le_trans (a b c : list byte) :
  strcmp a b < 0 -> strcmp b c <= 0 -> strcmp a c < 0.
Proof.
  intros Hab Hbc. destruct (Z_lt_le_dec (strcmp a c) 0) as [|Hac]; [assumption|].
  assert (strcmp c a <= 0) by (rewrite strcmp_antisym; lia).
  pose proof (strcmp_le_trans b c a Hbc ltac:(assumption)) as Hba.
  rewrite strcmp_antisym in Hba. lia.
Qed.

Lemma same_name_strcmp nm a b :
  same_name nm a = true -> same_name nm b = true ->
  strcmp (name a) (name b) = 0.
Proof.
  unfold same_name. intros Ha Hb.
  apply Z.eqb_eq in Ha. apply Z.eqb_eq in Hb.
  assert (Hnb : strcmp nm (name b) <= 0) by (rewrite strcmp_antisym; lia).
  assert (Hna : strcmp nm (name a) <= 0) by (rewrite strcmp_antisym; lia).
  pose proof (strcmp_le_trans (name a) nm (name b) ltac:(lia) Hnb).
  pose proof (strcmp_le_trans (name b) nm (name a) ltac:(lia) Hna) as Hba.
  rewrite strcmp_antisym in Hba. lia.
Qed.

Lemma filter_none {A} (p : A -> bool) (l : list A) :
  (forall x, In x l -> p x = false) -> List.filter p l = [].
Proof.
  induction l as [|a l IH]; intros H; simpl; [reflexivity|].
  rewrite (H a) by now left. apply IH. intros x Hx. apply H. now right.
Qed.

(** The insertion puts a channel behind the channels of the same name. *)
Lemma filter_insert_sorted nm x l :
  StronglySorted name_le l ->
  List.filter (same_name nm) (insert_sorted x l)
  = List.filter (same_name nm) l
      ++ (if same_name nm x then [x] else []).
Proof.
  induction 1 as [|a l Hs IH Hall]; cbn [insert_sorted List.filter].
  - reflexivity.
  - destruct (Z.ltb_spec (strcmp (name x) (name a)) 0) as [Hlt|Hge].
    + cbn [List.filter].
      destruct (same_name nm x) eqn:Ex; [|now rewrite app_nil_r].
      assert (Hnone : List.filter (same_name nm) (a :: l) = []).
      { apply filter_none. intros b Hb. destruct (same_name nm b) eqn:Eb; [|reflexivity].
        exfalso.
        pose proof (same_name_strcmp nm x b Ex Eb) as E0.
        assert (strcmp (name x) (name b) < 0); [|lia].
        destruct Hb as [<-|Hb]; [exact Hlt|].
        apply (strcmp_lt_le_trans _ (name a)); [exact Hlt|].
        rewrite List.Forall_forall in Hall. now apply Hall. }
      cbn [List.filter] in Hnone. rewrite Hnone. reflexivity.
    + cbn [List.filter]. rewrite IH.
      destruct (same_name nm a); reflexivity.
Qed.

Lemma filter_sorted_channels nm cs :
  forall l,
    Sorted name_le l ->
    List.filter (same_name nm)
      (fold_left (fun l c => insert_sorted (entry_of_raw c) l) cs l)
    = List.filter (same_name nm) l
        ++ List.filter (same_name nm) (map entry_of_raw cs).
Proof.
  induction cs as [|c cs IH]; intros l Hl; cbn [fold_left map List.filter].
  - now rewrite app_nil_r.
  - rewrite IH by now apply insert_sorted_Sorted.
    rewrite filter_insert_sorted
      by (apply Sorted_StronglySorted; [apply name_le_trans|exact Hl]).
    rewrite <- app_assoc. destruct (same_name nm (entry_of_raw c)); reflexivity.
Qed.

Lemma attr_read_chlist_run size f cs rest :
  (forall k n, malloc_ok k n = true) ->
  Forall raw_channel_wf cs -> cs <> [] ->
  Z.of_nat (length cs) < 2 ^ 31 ->
  user_file f = chlist_payload cs ++ rest ->
  attr_read_chlist size f =
  ((1, {| num_channels := Z.of_nat (length cs);
          entries := Some (sorted_channels cs) |}),
   upd rest (Z.of_nat (length (chlist_payload cs))) []
     (replicate (length cs) sizeof_tmp_ch_list
        ++ [Z.of_nat (length cs) * sizeof_chlist_entry]) f).
Proof.
  intros Hok Hwf Hne Hmax Hf.
  pose proof (sorted_channels_Permutation cs []) as Hperm.
  rewrite app_nil_r in Hperm. fold (sorted_channels cs) in Hperm.
  pose proof (chlist_payload_length cs) as Hlen.
  unfold attr_read_chlist. rewrite bind_unfold.
  rewrite (attr_read_chlist_loop_payload cs Hok _ char32 [] 0 f rest);
    [|exact Hwf|reflexivity|rewrite Hf, length_app; lia|lia|lia|exact Hf].
  cbv beta iota. rewrite !Z.add_0_l.
  destruct (Z.gtb_spec (Z.of_nat (length cs)) 0) as [Hpos|Hpos];
    [|destruct cs; [contradiction|simpl in Hpos; lia]].
  erewrite bind_run by apply malloc_upd. rewrite Hok.
  cbn [negb]. cbv iota. unfold mret, M_ret.
  rewrite upd_upd, user_file_upd, Nat2Z.id.
  fold (sorted_channels cs).
  rewrite take_ge
    by (rewrite <- (Permutation_length Hperm), length_map; lia).
  assert (to_size_t (to_size_t (Z.of_nat (length cs)) * sizeof_chlist_entry)
          = Z.of_nat (length cs) * sizeof_chlist_entry) as ->.
  { unfold to_size_t, sizeof_chlist_entry.
    rewrite (Z.mod_small (Z.of_nat (length cs))) by lia.
    apply Z.mod_small. lia. }
  apply pair_equal_spec. split; [reflexivity|].
  f_equal. lia.
Qed.

(** X12.  The sorted insertion is stable, and it drops nothing: in the
    array [attr_read_chlist] builds from a well-formed payload, the
    channels of any one name are all the channels of that name in the
    file, in the order the file has them. *)
Theorem channel_sort_is_stable (size : Z) (f : file_data)
  (cs : list raw_channel) (rest : list byte) :
  (forall k n, malloc_ok k n = true) ->
  Forall raw_channel_wf cs -> cs <> [] ->
  Z.of_nat (length cs) < 2 ^ 31 ->
  user_file f = chlist_payload cs ++ rest ->
  exists es f',
    attr_read_chlist size f =
    ((1, {| num_channels := Z.of_nat (length cs); entries := Some es |}), f')
    /\ forall nm,
        List.filter (same_name nm) es
        = List.filter (same_name nm) (map entry_of_raw cs).
Proof.
  intros Hok Hwf Hne Hmax Hf.
  eexists _, _.
  split; [apply (attr_read_chlist_run size f cs rest); assumption|].
  intros nm. unfold sorted_channels.
  rewrite filter_sorted_channels by constructor. reflexivity.
Qed.

(** ** Block geometry: the other compression values *)


(** ** No failure without a message *)

Lemma loud_ret {A} (fail : A -> bool) (a : A) :
  fail a = false -> loud fail (mret a).
Proof.
  intros H f. exists []. simpl. rewrite app_nil_r. split; [reflexivity|].
  congruence.
Qed.

Lemma loud_bind {A B} (failA : A -> bool) (failB : B -> bool)
  (c : M A) (k : A -> M B) :
  loud failA c ->
  (forall a, loud (fun b => failB b && negb (failA a)) (k a)) ->
  loud failB (c ≫= k).
Proof.
  intros Hc Hk f. rewrite bind_unfold.
  destruct (Hc f) as (new1 & E1 & H1). destruct (c f) as [a f1].
  destruct (Hk a f1) as (new2 & E2 & H2). simpl in *.
  exists (new1 ++ new2). rewrite E2, E1, app_assoc. split; [reflexivity|].
  intros Hb. destruct (failA a).
  - specialize (H1 eq_refl). destruct new1; [contradiction|discriminate].
  - rewrite Hb in H2. specialize (H2 eq_refl).
    destruct new1; [exact H2|discriminate].
Qed.

Lemma loud_weaken {A} (P Q : A -> bool) (c : M A) :
  loud P c -> (forall a, Q a = true -> P a = true) -> loud Q c.
Proof.
  intros Hc H f. destruct (Hc f) as (new & E & Hn).
  exists new. split; [exact E|]. intros Hq. apply Hn. now apply H.
Qed.

Lemma loud_readfn n : loud (fun _ => false) (readfn n).
Proof. intros f. exists []. simpl. now rewrite app_nil_r. Qed.

Lemma loud_advance n : loud (fun _ => false) (advance n).
Proof. intros f. exists []. simpl. now rewrite app_nil_r. Qed.

Lemma loud_malloc n : loud (fun _ => false) (malloc n).
Proof. intros f. exists []. simpl. now rewrite app_nil_r. Qed.

Lemma loud_get_user_data : loud (fun _ => false) get_user_data.
Proof. intros f. exists []. simpl. now rewrite app_nil_r. Qed.

Lemma loud_print_error e : loud (fun _ => true) (print_error e).
Proof. intros f. exists [e]. simpl. split; [reflexivity|discriminate]. Qed.

Create HintDb loud.
#[local] Hint Resolve loud_readfn loud_advance loud_malloc loud_get_user_data
  loud_print_error : loud.

(** The side condition of a return: the result is no failure, or a
    failure that an earlier step has reported. *)
Ltac loud_side :=
  unfold negative, no_entry, failed_loop, failed_header_loop;
  cbn [fst snd negb andb];
  repeat match goal with
         | H : ?x = _ |- context [?x] => rewrite H
         end;
  cbn [fst snd negb andb];
  rewrite ?andb_false_r, ?andb_true_r;
  try reflexivity;
  repeat match goal with
         | |- context [?a <? ?b] => destruct (Z.ltb_spec a b)
         end;
  first [reflexivity|exfalso; lia].

Ltac loud :=
  repeat first
    [ apply loud_ret; loud_side
    | eapply loud_bind; [solve [eauto with loud]|intros]
    | match goal with
      | |- loud _ (let '(_, _) := ?x in _) => destruct x
      | |- loud _ (if ?b then _ else _) => destruct b eqn:?
      | |- loud _ (match ?x with _ => _ end) => destruct x eqn:?
      end ].

(** A call whose failures are its caller's. *)
Ltac loud_call lemma :=
  eapply loud_weaken;
  [apply lemma
  |let H := fresh in
   intros ? H; repeat (apply andb_prop in H as [H _]); exact H].

Lemma loud_read_string_loop n :
  forall pos buf kind, loud negative (read_string_loop n pos buf kind).
Proof.
  induction n as [|n IH]; intros; cbn [read_string_loop]; loud.
  loud_call IH.
Qed.

Lemma loud_read_string buf kind : loud negative (read_string buf kind).
Proof. apply loud_read_string_loop. Qed.

Lemma loud_attr_check_size_and_read g n t :
  loud negative (attr_check_size_and_read g n t).
Proof. unfold attr_check_size_and_read. loud. Qed.

#[local] Hint Resolve loud_read_string loud_attr_check_size_and_read : loud.

Lemma loud_attr_read_string n : loud negative (attr_read_string n).
Proof. unfold attr_read_string. loud. Qed.

Lemma loud_attr_read_userdata n : loud negative (attr_read_userdata n).
Proof. unfold attr_read_userdata. loud. Qed.

Lemma loud_attr_read_preview n : loud negative (attr_read_preview n).
Proof. unfold attr_read_preview. loud. Qed.

Lemma loud_read_chlist_fields buf : loud no_entry (read_chlist_fields buf).
Proof. unfold read_chlist_fields. loud. Qed.

#[local] Hint Resolve loud_attr_read_string loud_attr_read_userdata
  loud_attr_read_preview loud_read_chlist_fields : loud.

Lemma loud_attr_read_chlist_loop fuel :
  forall buf l n, loud failed_loop (attr_read_chlist_loop fuel buf l n).
Proof.
  induction fuel as [|fuel IH]; intros; cbn [attr_read_chlist_loop]; loud.
  loud_call IH.
Qed.

Lemma loud_attr_read_chlist size : loud negative (attr_read_chlist size).
Proof.
  intros f. unfold attr_read_chlist. rewrite bind_unfold.
  destruct (loud_attr_read_chlist_loop (S (length (user_file f))) char32 [] 0
              f) as (new1 & E1 & H1).
  pose proof (attr_read_chlist_loop_fuel (S (length (user_file f)))
                char32 [] 0 f ltac:(lia)) as Hfuel.
  destruct (attr_read_chlist_loop _ char32 [] 0 f) as [[[[ret n] l]|] f1];
    [|exfalso; now apply Hfuel].
  cbn [fst snd failed_loop] in E1, H1. cbv beta iota.
  destruct (n >? 0).
  - rewrite bind_unfold. rewrite malloc_upd.
    destruct (malloc_ok _ _); cbn [negb]; cbv iota.
    + exists new1. split; [simpl; now rewrite E1, app_nil_r|exact H1].
    + exists (new1 ++ [ChlistAllocFailed n]).
      split; [simpl; now rewrite E1, !app_nil_r, app_assoc|].
      intros _. destruct new1; discriminate.
  - exists new1. split; [exact E1|exact H1].
Qed.

#[local] Hint Resolve loud_attr_read_chlist : loud.

Lemma loud_read_fixed ty a n t : loud negative (read_fixed ty a n t).
Proof. unfold read_fixed. loud. Qed.

#[local] Hint Resolve loud_read_fixed : loud.

Lemma loud_read_attribute_value a t n :
  loud negative (read_attribute_value a t n).
Proof.
  unfold read_attribute_value.
  destruct (attr_name_to_type t); try apply loud_read_fixed; loud.
Qed.

#[local] Hint Resolve loud_read_attribute_value : loud.

Lemma loud_read_attribute buf :
  loud (fun x => negative (fst x)) (read_attribute buf).
Proof. unfold read_attribute. loud. Qed.

Lemma loud_add_attribute buf attr :
  loud (fun _ => false) (add_attribute buf attr).
Proof.
  intros f. exists []. rewrite app_nil_r. split; [|discriminate].
  unfold add_attribute. destruct (add_attribute_to _ _ _) as [m p].
  destruct (m =? 0); reflexivity.
Qed.

#[local] Hint Resolve loud_read_attribute loud_add_attribute : loud.

Lemma loud_read_header_loop fuel :
  forall buf m, loud failed_header_loop (read_header_loop fuel buf m).
Proof.
  induction fuel as [|fuel IH]; intros; cbn [read_header_loop]; loud.
  loud_call IH.
Qed.

Lemma loud_report_missing_attributes v :
  loud (fun n => negb (n =? 0)) (report_missing_attributes v).
Proof.
  intros f. rewrite report_missing_attributes_spec. cbn [fst snd].
  eexists. split; [reflexivity|].
  destruct (missing_attributes _ v); [discriminate|discriminate].
Qed.

Lemma loud_set_storage_mode m : loud (fun _ => false) (set_storage_mode m).
Proof. intros f. exists []. simpl. now rewrite app_nil_r. Qed.

#[local] Hint Resolve loud_set_storage_mode : loud.

(** The part of [read_header] after the two words: its result is 0 or
    -1, and -1 comes with a message. *)
Lemma read_header_tail_reports f :
  let c : M Z :=
    r ← read_header_attributes;
    match r with
    | None => mret (-1)
    | Some (rda, reqMask) => read_header_exit rda reqMask
    end in
  exists new,
    errors (snd (c f)) = errors f ++ new
    /\ (fst (c f) = 0 \/ fst (c f) = -1)
    /\ ((fst (c f) <? 0) = true -> new <> []).
Proof.
  intros c. unfold c. rewrite bind_unfold.
  destruct (read_header_attributes_total f) as (rda & m & f1 & E).
  rewrite E.
  destruct (loud_read_header_loop (S (length (user_file f))) char32 0 f)
    as (new1 & E1 & H1).
  unfold read_header_attributes in E. rewrite E in E1, H1.
  apply read_header_loop_result in E.
  cbn [fst snd failed_header_loop] in E1, H1.
  unfold read_header_exit. destruct (rda <? 0) eqn:Hneg.
  - exists new1. split; [exact E1|]. split; [simpl; lia|]. intros _. auto.
  - rewrite bind_unfold.
    destruct (loud_report_missing_attributes m f1) as (new2 & E2 & H2).
    destruct (report_missing_attributes m f1) as [n f2].
    cbn [fst snd] in E2, H2.
    exists (new1 ++ new2).
    destruct (negb (n =? 0)); cbn [mret M_ret fst snd];
      rewrite E2, E1, app_assoc; (split; [reflexivity|]);
      (split; [lia|]).
    + intros _. specialize (H2 eq_refl). destruct new1; [exact H2|discriminate].
    + discriminate.
Qed.

Lemma read_header_reports f :
  exists new,
    errors (snd (read_header f)) = errors f ++ new
    /\ (fst (read_header f) = 0 \/ fst (read_header f) = -1)
    /\ (fst (read_header f) = -1 -> new <> []).
Proof.
  destruct (read_header f) as [r f'] eqn:E. cbn [fst snd].
  unfold read_header in E. rewrite bind_unfold in E.
  unfold readfn at 1 in E. cbv beta iota in E.
  match type of E with
  | context [set_user_file ?s f] => set (f0 := set_user_file s f) in E
  end.
  assert (E0 : errors f0 = errors f) by reflexivity.
  match type of E with
  | context [(if ?b then _ else _) f0] => destruct b
  end.
  { simpl in E. injection E as <- <-. exists [MagicVersionEof].
    split; [reflexivity|]. split; [lia|]. discriminate. }
  rewrite bind_unfold in E. cbn [advance] in E.
  match type of E with
  | context [set_cur_file_pos ?p f0] =>
      set (f1 := set_cur_file_pos p f0) in E
  end.
  assert (E1 : errors f1 = errors f) by reflexivity.
  match type of E with
  | context [(if ?b then _ else _) f1] => destruct b
  end.
  { simpl in E. injection E as <- <-. eexists [_].
    split; [reflexivity|]. split; [lia|]. discriminate. }
  match type of E with
  | context [(if ?b then _ else _) f1] => destruct b
  end.
  { simpl in E. injection E as <- <-. eexists [_].
    split; [reflexivity|]. split; [lia|]. discriminate. }
  rewrite bind_unfold in E.
  match type of E with
  | context [set_storage_mode ?m f1] =>
      assert (E2 : errors (snd (set_storage_mode m f1)) = errors f)
        by reflexivity;
      destruct (set_storage_mode m f1) as [[] f2]
  end.
  cbn [snd] in E2.
  destruct (read_header_tail_reports f2) as (new & En & Hr & Hn).
  cbv zeta in En, Hr, Hn. rewrite E in En, Hr, Hn. cbn [fst snd] in *.
  exists new. rewrite En, E2. split; [reflexivity|]. split; [exact Hr|].
  intros H. apply Hn. rewrite H. reflexivity.
Qed.

(** X14.  [read_header] never fails in silence.  Its result is 0 or -1;
    it only appends to what the error callback has received; and when it
    returns -1 it has appended at least one message.  So has
    [aces_start_read] whenever it returns a null handle. *)
Theorem failure_is_reported :
  (forall f, exists new,
      errors (snd (read_header f)) = errors f ++ new
      /\ (fst (read_header f) = 0 \/ fst (read_header f) = -1)
      /\ (fst (read_header f) = -1 -> new <> []))
  /\ (forall filename,
        handle (aces_start_read filename) = None ->
        reported (aces_start_read filename) <> []).
Proof.
  split; [exact read_header_reports|].
  intros filename. unfold aces_start_read.
  destruct filename as [[|c filename]|]; try discriminate.
  destruct (negb (malloc_ok 0 sizeof_file_data)); [discriminate|].
  destruct (os_open (c :: filename)) as [[fd0 contents]|]; [|discriminate].
  destruct (read_header_reports (opened_file_data (c :: filename) fd0 contents))
    as (new & En & Hr & Hn).
  destruct (read_header _) as [r ret]. cbn [fst snd] in *.
  destruct (Z.ltb_spec r 0); [|discriminate].
  intros _. cbn [reported]. rewrite En. cbn [errors opened_file_data app].
  apply Hn. lia.
Qed.

(** ** The handle of a successful open *)

Lemma keeps_file_ret {A} (a : A) : keeps_file (mret a : M A).
Proof. intros f. split; reflexivity. Qed.

Lemma keeps_file_bind {A B} (c : M A) (k : A -> M B) :
  keeps_file c -> (forall a, keeps_file (k a)) -> keeps_file (c ≫= k).
Proof.
  intros Hc Hk f. rewrite bind_unfold. specialize (Hc f).
  destruct (c f) as [a f1]. destruct Hc as [H1 H2].
  destruct (Hk a f1) as [H3 H4]. split; simpl in *; congruence.
Qed.

Lemma keeps_file_readfn n : keeps_file (readfn n).
Proof. intros f. split; reflexivity. Qed.

Lemma keeps_file_advance n : keeps_file (advance n).
Proof. intros f. split; reflexivity. Qed.

Lemma keeps_file_print_error e : keeps_file (print_error e).
Proof. intros f. split; reflexivity. Qed.

Lemma keeps_file_malloc n : keeps_file (malloc n).
Proof. intros f. split; reflexivity. Qed.

Lemma keeps_file_get_user_data : keeps_file get_user_data.
Proof. intros f. split; reflexivity. Qed.

Lemma keeps_file_set_storage_mode m : keeps_file (set_storage_mode m).
Proof. intros f. split; reflexivity. Qed.

Lemma keeps_file_add_attribute buf attr : keeps_file (add_attribute buf attr).
Proof.
  intros f. unfold add_attribute.
  destruct (add_attribute_to (user_data f) buf attr) as [m p].
  destruct (m =? 0); split; reflexivity.
Qed.

Create HintDb keeps_file.
#[local] Hint Resolve keeps_file_readfn keeps_file_advance
  keeps_file_print_error keeps_file_malloc keeps_file_get_user_data
  keeps_file_set_storage_mode keeps_file_add_attribute : keeps_file.

Ltac keeps_file :=
  repeat first
    [ apply keeps_file_ret
    | solve [auto with keeps_file]
    | apply keeps_file_bind; [|intros]
    | match goal with
      | |- keeps_file (let '(_, _) := ?x in _) => destruct x
      | |- keeps_file (if ?b then _ else _) => destruct b
      | |- keeps_file (match ?x with _ => _ end) => destruct x
      end ].

Lemma keeps_file_read_string_loop n :
  forall pos buf kind, keeps_file (read_string_loop n pos buf kind).
Proof.
  induction n as [|n IH]; intros; cbn [read_string_loop]; keeps_file;
    apply IH.
Qed.

Lemma keeps_file_read_string buf kind : keeps_file (read_string buf kind).
Proof. apply keeps_file_read_string_loop. Qed.

Lemma keeps_file_attr_check_size_and_read g n t :
  keeps_file (attr_check_size_and_read g n t).
Proof. unfold attr_check_size_and_read. keeps_file. Qed.

#[local] Hint Resolve keeps_file_read_string
  keeps_file_attr_check_size_and_read : keeps_file.

Lemma keeps_file_attr_read_chlist_loop fuel :
  forall buf l n, keeps_file (attr_read_chlist_loop fuel buf l n).
Proof.
  induction fuel as [|fuel IH]; intros; cbn [attr_read_chlist_loop];
    unfold read_chlist_fields; keeps_file; apply IH.
Qed.

Lemma keeps_file_attr_read_chlist n : keeps_file (attr_read_chlist n).
Proof.
  intros f. unfold attr_read_chlist.
  match goal with |- same_file f (snd (?c f)) => assert (keeps_file c) as H end;
    [|apply H].
  pose proof keeps_file_attr_read_chlist_loop. keeps_file.
Qed.

#[local] Hint Resolve keeps_file_attr_read_chlist : keeps_file.

Lemma keeps_file_read_attribute buf : keeps_file (read_attribute buf).
Proof.
  unfold read_attribute, read_attribute_value, read_fixed, attr_read_string,
    attr_read_userdata, attr_read_preview.
  keeps_file.
Qed.

#[local] Hint Resolve keeps_file_read_attribute : keeps_file.

Lemma keeps_file_read_header_loop fuel :
  forall buf m, keeps_file (read_header_loop fuel buf m).
Proof.
  induction fuel as [|fuel IH]; intros; cbn [read_header_loop]; keeps_file;
    apply IH.
Qed.

Lemma keeps_file_read_header : keeps_file read_header.
Proof.
  assert (keeps_file read_header_attributes)
    by (intros f; apply keeps_file_read_header_loop).
  unfold read_header, read_header_exit, report_missing_attributes,
    check_attr_mask.
  keeps_file.
Qed.

(** X15.  [aces_start_read] returns a handle exactly when the name is not
    empty, the file structure is allocated, the file opens and
    [read_header] returns 0 on it.  The handle is then the structure as
    [read_header] left it: it carries the descriptor that [open]
    returned and the first 255 characters of the name, and the messages
    reported are those of the header. *)
Theorem aces_start_read_handle (filename : option (list byte))
  (h : file_data) :
  handle (aces_start_read filename) = Some h <->
  exists name fd0 contents,
    filename = Some name /\ name <> []
    /\ malloc_ok 0 sizeof_file_data = true
    /\ os_open name = Some (fd0, contents)
    /\ read_header (opened_file_data name fd0 contents) = (0, h)
    /\ fd h = fd0 /\ given_filename h = take 255 name
    /\ reported (aces_start_read filename) = errors h.
Proof.
  split.
  - unfold aces_start_read.
    destruct filename as [[|c name]|]; try discriminate.
    destruct (malloc_ok 0 sizeof_file_data) eqn:Hm; [|discriminate].
    cbn [negb]. cbv iota.
    destruct (os_open (c :: name)) as [[fd0 contents]|] eqn:Ho;
      [|discriminate].
    pose proof (keeps_file_read_header
                  (opened_file_data (c :: name) fd0 contents)) as [Hfd Hname].
    destruct (read_header_reports (opened_file_data (c :: name) fd0 contents))
      as (new & _ & Hr & _).
    destruct (read_header _) as [r ret] eqn:E. cbn [fst snd] in *.
    destruct (Z.ltb_spec r 0); [discriminate|].
    intros Hh. injection Hh as <-.
    exists (c :: name), fd0, contents.
    assert (r = 0) as -> by lia.
    repeat split; auto.
  - intros (name & fd0 & contents & -> & Hne & Hm & Ho & E & _).
    rewrite (aces_start_read_opened name fd0 contents Hne Hm Ho), E.
    reflexivity.
Qed.

(** ** The functions that read the image *)

Lemma compression_supported c :
  (c =? ACES_COMPRESSION_NONE) || (c =? ACES_COMPRESSION_RLE)
  || (c =? ACES_COMPRESSION_ZIPS) || (c =? ACES_COMPRESSION_ZIP)
  || (c =? ACES_COMPRESSION_PIZ) = true <-> 0 <= c <= 4.
Proof.
  unfold ACES_COMPRESSION_NONE, ACES_COMPRESSION_RLE, ACES_COMPRESSION_ZIPS,
    ACES_COMPRESSION_ZIP, ACES_COMPRESSION_PIZ.
  rewrite !orb_true_iff, !Z.eqb_eq. lia.
Qed.

Lemma read_check_argument_compression h readfn_set writefn_set dst_set :
  fst (read_check_argument (Some h) readfn_set writefn_set dst_set) = 0 ->
  0 <= compression (user_data h) <= 7.
Proof.
  unfold read_check_argument. cbv zeta.
  destruct (negb readfn_set && writefn_set); [discriminate|].
  destruct dst_set; [|discriminate]. cbn [negb].
  pose proof (compression_supported (compression (user_data h))) as Hc.
  destruct (_ || _) eqn:Ec.
  - intros _. assert (0 <= compression (user_data h) <= 4) by now apply Hc.
    lia.
  - destruct (_ =? ACES_COMPRESSION_PXR24);
      [|destruct (_ =? ACES_COMPRESSION_B44);
        [|destruct (_ =? ACES_COMPRESSION_B44A)]]; discriminate.
Qed.

(** X16.  [read_check_argument] returns 0, with no message, or -1, with
    exactly one.  It returns 0 exactly for a handle that is not null and
    not one opened for writing, with a destination, whose compression is
    one of none, rle, zips, zip and piz, whose tiles, if the file is
    tiled, have a single level, and whose line order is increasing or
    decreasing. *)
Theorem read_check_argument_accepts (f : option file_data)
  (readfn_set writefn_set dst_set : bool) :
  let r := fst (read_check_argument f readfn_set writefn_set dst_set) in
  let msgs := snd (read_check_argument f readfn_set writefn_set dst_set) in
  (r = 0 /\ msgs = [] \/ r = -1 /\ length msgs = 1%nat)
  /\ (r = 0 <->
      exists h, f = Some h
        /\ (readfn_set = true \/ writefn_set = false) /\ dst_set = true
        /\ 0 <= compression (user_data h) <= 4
        /\ (storage_mode (user_data h) = ACES_STORAGE_TILED ->
            level_type (tile_info (user_data h)) = ACES_TILE_ONE_LEVEL)
        /\ (line_order (user_data h) = ACES_LINEORDER_INCREASING_Y
            \/ line_order (user_data h) = ACES_LINEORDER_DECREASING_Y)).
Proof.
  cbv zeta. unfold read_check_argument.
  destruct f as [h|].
  2:{ simpl. split; [right; auto|]. split; [discriminate|].
      intros (h & H & _). discriminate. }
  cbv zeta.
  assert (Hno : forall (m : image_message) (P : Prop),
             (fst (-1, [m]) = 0 /\ snd (-1, [m]) = []
              \/ fst (-1, [m]) = -1 /\ length (snd (-1, [m])) = 1%nat)
             /\ (fst (-1, [m]) = 0 -> P))
    by (intros m P; split; [right; split; reflexivity|discriminate]).
  assert (Hrefuse : forall (m : image_message) (P : Prop),
             ~ P ->
             (fst (-1, [m]) = 0 /\ snd (-1, [m]) = []
              \/ fst (-1, [m]) = -1 /\ length (snd (-1, [m])) = 1%nat)
             /\ (fst (-1, [m]) = 0 <-> P)).
  { intros m P HP. split; [apply Hno; exact True|].
    split; [discriminate|contradiction]. }
  destruct (negb readfn_set && writefn_set) eqn:E1.
  { apply Hrefuse. intros (h' & _ & [-> | ->] & _); [discriminate|].
    now rewrite andb_false_r in E1. }
  destruct dst_set.
  2:{ apply Hrefuse. intros (h' & _ & _ & Hd & _). discriminate. }
  cbn [negb].
  pose proof (compression_supported (compression (user_data h))) as Hc.
  destruct (_ || _) eqn:Ec.
  2:{ assert (Hout : ~ 0 <= compression (user_data h) <= 4)
        by (intros H; apply Hc in H; discriminate).
      destruct (_ =? ACES_COMPRESSION_PXR24);
        [|destruct (_ =? ACES_COMPRESSION_B44);
          [|destruct (_ =? ACES_COMPRESSION_B44A)]];
        apply Hrefuse; intros (h' & Hh & _ & _ & H & _);
        injection Hh as <-; contradiction. }
  assert (Hin : 0 <= compression (user_data h) <= 4) by now apply Hc.
  unfold ACES_TILE_ONE_LEVEL, ACES_LINEORDER_RANDOM_Y,
    ACES_LINEORDER_INCREASING_Y, ACES_LINEORDER_DECREASING_Y.
  destruct (match storage_mode (user_data h) with
            | ACES_STORAGE_SCANLINE => false
            | ACES_STORAGE_TILED => _
            end) eqn:Et.
  { apply Hrefuse. intros (h' & Hh & _ & _ & _ & Ht & _).
    injection Hh as <-. destruct (storage_mode (user_data h)); [discriminate|].
    rewrite (Ht eq_refl) in Et. discriminate. }
  destruct (Z.eqb_spec (line_order (user_data h)) 2) as [E2|E2].
  { apply Hrefuse. intros (h' & Hh & _ & _ & _ & _ & Hlo).
    injection Hh as <-. lia. }
  destruct (Z.eqb_spec (line_order (user_data h)) 0) as [E0|E0];
    destruct (Z.eqb_spec (line_order (user_data h)) 1) as [E3|E3];
    cbn [negb andb];
    try (apply Hrefuse; intros (h' & Hh & _ & _ & _ & _ & Hlo);
         injection Hh as <-; lia);
    (split; [left; split; reflexivity|]);
    (split; [intros _|reflexivity]);
    exists h; (split; [reflexivity|]);
    (split; [destruct readfn_set, writefn_set; auto; discriminate|]);
    (split; [reflexivity|]); (split; [exact Hin|]);
    (split; [|auto]);
    intros Hs; rewrite Hs in Et; now destruct (Z.eqb_spec
      (level_type (tile_info (user_data h))) 0).
Qed.

Lemma compute_scanline_block_info_state f :
  0 <= compression (user_data f) <= 7 ->
  snd (compute_scanline_block_info f) = f.
Proof.
  intros Hc. unfold compute_scanline_block_info.
  rewrite bind_unfold. unfold get_user_data at 1. cbv beta iota.
  rewrite bind_unfold.
  unfold ACES_COMPRESSION_NONE, ACES_COMPRESSION_RLE, ACES_COMPRESSION_ZIPS,
    ACES_COMPRESSION_ZIP, ACES_COMPRESSION_PIZ, ACES_COMPRESSION_PXR24,
    ACES_COMPRESSION_B44, ACES_COMPRESSION_B44A.
  repeat match goal with
         | |- context [?a =? ?b] => destruct (Z.eqb_spec a b); try lia
         end; reflexivity.
Qed.

(** X17.  What [aces_get_image] (and [aces_get_image_rgba]) does for a
    handle that passes [read_check_argument].  For a tiled file it fails.
    For a scanline file it computes the number of blocks, requests and
    reads an offset table of four bytes per block, and returns 0 when the
    stream held the table: the stream is then just after the table, so
    no byte of pixel data has been read.  [aces_get_plane] fails for
    every handle. *)
Theorem aces_get_image_reads_the_offset_table (h : file_data)
  (readfn_set writefn_set dst_set : bool) :
  read_check_argument (Some h) readfn_set writefn_set dst_set = (0, []) ->
  let nb := snd (fst (compute_scanline_block_info h)) in
  (storage_mode (user_data h) = ACES_STORAGE_TILED ->
   aces_get_image (Some h) readfn_set writefn_set dst_set
   = (-1, [TileReadingNotSupported], Some h))
  /\ (storage_mode (user_data h) = ACES_STORAGE_SCANLINE ->
      0 <= nb < 2 ^ 31 ->
      malloc_ok (length (mallocs h)) (4 * nb) = true ->
      forall table rest,
        user_file h = table ++ rest -> Z.of_nat (length table) = 4 * nb ->
        aces_get_image (Some h) readfn_set writefn_set dst_set
        = (0, [], Some (upd rest (4 * nb) [] [4 * nb] h)))
  /\ (forall f r w d, fst (fst (aces_get_plane f r w d)) = -1).
Proof.
  intros Hcheck nb.
  assert (Hc : 0 <= compression (user_data h) <= 7).
  { apply (read_check_argument_compression h readfn_set writefn_set dst_set).
    now rewrite Hcheck. }
  split; [|split].
  - intros Ht. unfold aces_get_image. rewrite Hcheck, Ht. reflexivity.
  - intros Hs Hnb Hok table rest Hf Hl.
    unfold aces_get_image. rewrite Hcheck, Hs. cbn [negb Z.eqb]. cbv iota.
    unfold read_scanlines_interleaved. rewrite bind_unfold.
    pose proof (compute_scanline_block_info_state h Hc) as Hstate.
    subst nb. destruct (compute_scanline_block_info h) as [[lpb nb] h'].
    cbn [fst snd] in *. subst h'.
    unfold read_offset_table.
    assert (to_size_t (4 * to_size_t nb) = 4 * nb) as ->.
    { unfold to_size_t. rewrite (Z.mod_small nb) by lia.
      apply Z.mod_small. lia. }
    rewrite bind_unfold.
    erewrite bind_run by apply malloc_upd. rewrite Hok. cbn [negb]. cbv iota.
    erewrite bind_run
      by (apply (readfn_app (4 * nb) table rest);
          [rewrite user_file_upd; exact Hf|exact Hl]).
    cbv beta iota. erewrite bind_run by apply advance_upd.
    assert (to_size_t (4 * nb) = 4 * nb) as ->
        by (unfold to_size_t; apply Z.mod_small; lia).
    rewrite Z.eqb_refl. cbn [negb]. cbv iota.
    unfold mret, M_ret. cbn [fst snd].
    rewrite !upd_upd, !user_file_upd. reflexivity.
  - intros f r w d. unfold aces_get_plane.
    destruct (read_check_argument f r w d) as [rc msgs].
    destruct (negb (rc =? 0)); [reflexivity|].
    destruct f as [f|]; [|reflexivity].
    destruct (storage_mode (user_data f)); reflexivity.
Qed.

(** ** Writing *)

(** X18.  Nothing is ever written.  [aces_start_write] returns a null
    handle for all arguments, so [aces_write_image] returns -1 without
    reaching [aces_set_image_rgba]; at most one message is reported, for
    an empty file name or for a zero width, height or channel count. *)
Theorem writing_is_not_implemented
  (filename : option (list byte)) (compression w h channels datatype : Z) :
  fst (aces_start_write w h channels compression filename) = None
  /\ aces_write_image filename compression w h channels datatype
     = (-1, snd (aces_start_write w h channels compression filename))
  /\ (snd (aces_start_write w h channels compression filename)
      = [WriteEmptyFilename]
      <-> filename = None \/ filename = Some [])
  /\ (snd (aces_start_write w h channels compression filename)
      = [ZeroSizedImage]
      <-> (exists c s, filename = Some (c :: s))
          /\ (w = 0 \/ h = 0 \/ channels = 0)).
Proof.
  assert (Hnull : fst (aces_start_write w h channels compression filename)
                  = None).
  { unfold aces_start_write. destruct filename as [[|c s]|]; try reflexivity.
    destruct (_ || _); reflexivity. }
  split; [exact Hnull|]. split.
  - unfold aces_write_image.
    destruct (aces_start_write w h channels compression filename) as [e msgs].
    simpl in Hnull. now subst e.
  - unfold aces_start_write. destruct filename as [[|c s]|]; cbn [snd].
    + split; (split; [|reflexivity || (intros [(c & s & H) _]; discriminate)]);
        [intros _; now right|discriminate].
    + destruct (Z.eqb_spec w 0); [|destruct (Z.eqb_spec h 0);
                                   [|destruct (Z.eqb_spec channels 0)]];
        cbn [orb snd];
        (split;
         [split; [discriminate|intros [H|H]; discriminate]
         |split; [intros H; try discriminate H; split; eauto
                 |intros [_ H]; try reflexivity; lia]]).
    + split; (split; [|reflexivity || (intros [(c & s & H) _]; discriminate)]);
        [intros _; now left|discriminate].
Qed.

(** ** acesinfo *)


(** ** The position and the stream *)

Lemma in_step_refl f : in_step f f.
Proof. exists []. split; [reflexivity|simpl; lia]. Qed.

Lemma in_step_trans f1 f2 f3 : in_step f1 f2 -> in_step f2 f3 -> in_step f1 f3.
Proof.
  intros (s1 & E1 & P1) (s2 & E2 & P2). exists (s1 ++ s2).
  rewrite E1, E2, <- app_assoc, length_app. split; [reflexivity|lia].
Qed.

Lemma in_step_same f f' :
  user_file f' = user_file f -> cur_file_pos f' = cur_file_pos f ->
  in_step f f'.
Proof. intros E P. exists []. rewrite E, P. split; [reflexivity|simpl; lia]. Qed.

Lemma steady_ret {A} (a : A) : steady (mret a : M A).
Proof. intros f. apply in_step_refl. Qed.

Lemma steady_bind {A B} (c : M A) (k : A -> M B) :
  steady c -> (forall a, steady (k a)) -> steady (c ≫= k).
Proof.
  intros Hc Hk f. rewrite bind_unfold. specialize (Hc f).
  destruct (c f) as [a f1]. eapply in_step_trans; [exact Hc|apply Hk].
Qed.

(** A read followed by the advance of the position by its result. *)
Lemma steady_read {B} (n : Z) (k : Z -> list byte -> M B) :
  (forall nr got, steady (k nr got)) ->
  steady ('(nr, got) ← readfn n; advance nr;; k nr got).
Proof.
  intros Hk f. rewrite bind_unfold. unfold readfn at 1. cbv beta iota.
  rewrite bind_unfold. cbn [advance].
  eapply in_step_trans; [|apply Hk].
  exists (take (Z.to_nat n) (user_file f)). simpl.
  split; [now rewrite take_drop|reflexivity].
Qed.

Lemma steady_print_error e : steady (print_error e).
Proof. intros f. now apply in_step_same. Qed.

Lemma steady_malloc n : steady (malloc n).
Proof. intros f. now apply in_step_same. Qed.

Lemma steady_get_user_data : steady get_user_data.
Proof. intros f. apply in_step_refl. Qed.

Lemma steady_set_storage_mode m : steady (set_storage_mode m).
Proof. intros f. now apply in_step_same. Qed.

Lemma steady_add_attribute buf attr : steady (add_attribute buf attr).
Proof.
  intros f. unfold add_attribute.
  destruct (add_attribute_to (user_data f) buf attr) as [m p].
  destruct (m =? 0); now apply in_step_same.
Qed.

Create HintDb steady.
#[local] Hint Resolve steady_print_error steady_malloc steady_get_user_data
  steady_set_storage_mode steady_add_attribute : steady.

Ltac steady :=
  repeat first
    [ apply steady_ret
    | solve [auto with steady]
    | apply steady_read; intros
    | apply steady_bind; [|intros]
    | match goal with
      | |- steady (let '(_, _) := ?x in _) => destruct x
      | |- steady (if ?b then _ else _) => destruct b
      | |- steady (match ?x with _ => _ end) => destruct x
      end ].

Lemma steady_attr_check_size_and_read g n t :
  steady (attr_check_size_and_read g n t).
Proof. unfold attr_check_size_and_read. steady. Qed.

#[local] Hint Resolve steady_attr_check_size_and_read : steady.

Lemma steady_attr_read_string n : steady (attr_read_string n).
Proof. unfold attr_read_string. steady. Qed.

Lemma steady_attr_read_userdata n : steady (attr_read_userdata n).
Proof. unfold attr_read_userdata. steady. Qed.

Lemma steady_attr_read_preview n : steady (attr_read_preview n).
Proof. unfold attr_read_preview. steady. Qed.

Lemma steady_read_chlist_fields buf : steady (read_chlist_fields buf).
Proof. unfold read_chlist_fields. steady. Qed.

Lemma steady_read_fixed ty a n t : steady (read_fixed ty a n t).
Proof. unfold read_fixed. steady. Qed.

#[local] Hint Resolve steady_attr_read_string steady_attr_read_userdata
  steady_attr_read_preview steady_read_chlist_fields steady_read_fixed
  : steady.

Lemma steady_report_missing_attributes v :
  steady (report_missing_attributes v).
Proof. unfold report_missing_attributes, check_attr_mask. steady. Qed.

(** [read_string] keeps the position in step, but for the read that meets
    the end of the stream. *)
Lemma read_string_loop_in_step n :
  forall pos buf kind f,
    in_step f (snd (read_string_loop n pos buf kind f))
    \/ (fst (fst (read_string_loop n pos buf kind f)) = -1
        /\ user_file (snd (read_string_loop n pos buf kind f)) = []).
Proof.
  induction n as [|n IH]; intros pos buf kind f; cbn [read_string_loop].
  - left. rewrite bind_unfold. simpl. now apply in_step_same.
  - destruct (user_file f) as [|x s] eqn:Hs.
    + right.
      erewrite bind_run by (apply readfn_short; rewrite Hs; simpl; lia).
      rewrite Hs. cbv beta iota. erewrite bind_run by apply advance_upd.
      split; reflexivity.
    + erewrite bind_run
        by (apply (readfn_app 1 [x] s); [exact Hs|reflexivity]).
      cbv beta iota. erewrite bind_run by apply advance_upd.
      replace (negb (1 =? 1)) with false by reflexivity. cbv iota.
      cbn [head from_option id].
      assert (Hstep : in_step f (upd (user_file (upd s 0 [] [] f)) 1 [] []
                                   (upd s 0 [] [] f))).
      { exists [x]. simpl. split; [exact Hs|lia]. }
      destruct (uchar x =? 0); [left; exact Hstep|].
      match goal with
      | |- context [read_string_loop n ?p ?b kind ?f1] =>
          destruct (IH p b kind f1) as [H|H]
      end.
      * left. eapply in_step_trans; [exact Hstep|exact H].
      * right. exact H.
Qed.

Lemma read_chlist_fields_eof buf f :
  user_file f = [] -> fst (read_chlist_fields buf f) = None.
Proof.
  intros Hf. unfold read_chlist_fields.
  erewrite bind_run
    by (apply attr_check_size_and_read_short;
        [reflexivity|rewrite Hf; simpl; lia]).
  reflexivity.
Qed.

Lemma attr_read_chlist_loop_in_step fuel :
  forall buf l n f r n' l',
    fst (attr_read_chlist_loop fuel buf l n f) = Some (r, n', l') ->
    0 <= r ->
    in_step f (snd (attr_read_chlist_loop fuel buf l n f)).
Proof.
  induction fuel as [|fuel IH]; intros buf l n f r n' l';
    cbn [attr_read_chlist_loop]; [discriminate|].
  rewrite bind_unfold.
  pose proof (read_string_loop_in_step 32 0 buf "channel" f) as Hname.
  fold (read_string buf "channel") in Hname.
  destruct (read_string buf "channel" f) as [[rs b1] f1].
  cbn [fst snd] in Hname. cbv beta iota.
  destruct (Z.eqb_spec rs 0) as [Hz|Hz].
  { intros _ _. destruct Hname as [H|[H _]]; [exact H|lia]. }
  rewrite bind_unfold.
  pose proof (steady_malloc sizeof_tmp_ch_list f1) as Hm.
  assert (Hu : user_file (snd (malloc sizeof_tmp_ch_list f1)) = user_file f1)
    by reflexivity.
  destruct (malloc sizeof_tmp_ch_list f1) as [ok f2]. cbn [snd] in Hm, Hu.
  destruct ok; cbn [negb]; cbv iota.
  2:{ simpl. intros H. injection H as <- _ _. lia. }
  rewrite bind_unfold.
  pose proof (steady_read_chlist_fields b1 f2) as Hfields.
  pose proof (read_chlist_fields_eof b1 f2) as Heof.
  destruct (read_chlist_fields b1 f2) as [[e|] f3]; cbn [fst snd] in *.
  2:{ intros H. injection H as <- _ _. lia. }
  intros H Hr. destruct Hname as [Hname|[_ Hend]].
  - eapply in_step_trans; [exact Hname|].
    eapply in_step_trans; [exact Hm|].
    eapply in_step_trans; [exact Hfields|].
    eapply IH; eauto.
  - assert (Some e = None) by (apply Heof; now rewrite Hu). discriminate.
Qed.

Lemma attr_read_chlist_in_step size f :
  0 <= fst (fst (attr_read_chlist size f)) ->
  in_step f (snd (attr_read_chlist size f)).
Proof.
  unfold attr_read_chlist. rewrite bind_unfold.
  pose proof (attr_read_chlist_loop_in_step (S (length (user_file f)))
                char32 [] 0 f) as Hloop.
  destruct (attr_read_chlist_loop _ char32 [] 0 f) as [[[[ret n] l]|] f1];
    cbn [fst snd] in *; [|simpl; lia].
  destruct (n >? 0).
  - rewrite bind_unfold.
    pose proof (steady_malloc (to_size_t (to_size_t n * sizeof_chlist_entry))
                  f1) as Hm.
    destruct (malloc _ f1) as [ok f2]. cbn [snd] in Hm.
    destruct ok; cbn [negb]; cbv iota.
    + simpl. intros Hr. eapply in_step_trans; [|exact Hm]. eapply Hloop; eauto.
    + simpl. lia.
  - simpl. intros Hr. eapply Hloop; eauto.
Qed.

Lemma read_attribute_value_in_step a t n f :
  0 <= fst (fst (read_attribute_value a t n f)) ->
  in_step f (snd (read_attribute_value a t n f)).
Proof.
  unfold read_attribute_value.
  destruct (attr_name_to_type t);
    try (intros _;
         match goal with
         | |- in_step f (snd (?c f)) =>
             assert (steady c) as H by steady; exact (H f)
         end).
  rewrite bind_unfold.
  pose proof (attr_read_chlist_in_step n f) as H.
  destruct (attr_read_chlist n f) as [[r c] f1]. exact H.
Qed.

Lemma read_attribute_in_step buf f r b attr f' :
  read_attribute buf f = ((r, b, attr), f') -> 0 <= r -> in_step f f'.
Proof.
  intros H Hr. unfold read_attribute in H. rewrite bind_unfold in H.
  pose proof (read_string_loop_in_step 32 0 buf "attribute" f) as H1.
  fold (read_string buf "attribute") in H1.
  destruct (read_string buf "attribute" f) as [[pos b1] f1].
  cbn [fst snd] in H1. cbv beta iota in H.
  destruct (Z.leb_spec pos 0) as [Hp|Hp].
  { injection H as <- <- <- <-. destruct H1 as [H1|[H1 _]]; [exact H1|lia]. }
  destruct H1 as [H1|[H1 _]]; [|lia].
  rewrite bind_unfold in H.
  pose proof (read_string_loop_in_step 32 0 char32 "type" f1) as H2.
  fold (read_string char32 "type") in H2.
  destruct (read_string char32 "type" f1) as [[pos2 tb] f2].
  cbn [fst snd] in H2. cbv beta iota in H.
  destruct (Z.ltb_spec pos2 0) as [Hp2|Hp2];
    [injection H as <- <- <- <-; lia|].
  destruct H2 as [H2|[H2 _]]; [|lia].
  eapply in_step_trans; [exact H1|]. eapply in_step_trans; [exact H2|].
  rewrite bind_unfold in H. unfold readfn at 1 in H. cbv beta iota in H.
  rewrite bind_unfold in H. cbn [advance] in H.
  match type of H with
  | context [set_cur_file_pos ?p (set_user_file ?s f2)] =>
      set (f3 := set_cur_file_pos p (set_user_file s f2)) in H;
      assert (H3 : in_step f2 f3)
        by (exists (take (Z.to_nat 4) (user_file f2)); simpl;
            split; [now rewrite take_drop|reflexivity])
  end.
  eapply in_step_trans; [exact H3|].
  match type of H with
  | context [(if ?c then _ else _) f3] => destruct c
  end.
  { simpl in H. injection H as <- <- <- <-. lia. }
  rewrite bind_unfold in H.
  match type of H with
  | context [read_attribute_value ?a ?t ?n f3] =>
      pose proof (read_attribute_value_in_step a t n f3) as H4;
      destruct (read_attribute_value a t n f3) as [[r4 attr4] f4]
  end.
  cbn [fst snd] in H4. injection H as <- <- <- <-. now apply H4.
Qed.

Lemma read_header_loop_in_step fuel :
  forall buf m f rda m',
    fst (read_header_loop fuel buf m f) = Some (rda, m') -> 0 <= rda ->
    in_step f (snd (read_header_loop fuel buf m f)).
Proof.
  induction fuel as [|fuel IH]; intros buf m f rda m';
    cbn [read_header_loop]; [discriminate|].
  rewrite bind_unfold.
  pose proof (read_attribute_in_step buf f) as Hattr.
  destruct (read_attribute buf f) as [[[r b1] attr] f1].
  specialize (Hattr r b1 attr f1 eq_refl). cbv beta iota.
  destruct (Z.eqb_spec r 1) as [Hr|Hr].
  - rewrite bind_unfold.
    pose proof (steady_add_attribute b1 attr f1) as Hadd.
    destruct (add_attribute b1 attr f1) as [bit f2]. cbn [snd] in Hadd.
    intros H Hrda. eapply in_step_trans; [apply Hattr; lia|].
    eapply in_step_trans; [exact Hadd|]. eapply IH; eauto.
  - simpl. intros H Hrda. injection H as <- _. now apply Hattr.
Qed.

Lemma read_header_in_step f f' :
  read_header f = (0, f') -> in_step f f'.
Proof.
  unfold read_header. rewrite bind_unfold. unfold readfn at 1.
  cbv beta iota.
  match goal with
  | |- context [set_user_file ?s f] => set (f0 := set_user_file s f)
  end.
  destruct (Z.eqb_spec
              (to_size_t (Z.of_nat (length (take (Z.to_nat (4 * 2))
                                              (user_file f))))) (4 * 2))
    as [E|E]; cbn [negb]; cbv iota.
  2:{ simpl. discriminate. }
  rewrite bind_unfold. cbn [advance].
  match goal with
  | |- context [set_cur_file_pos ?p f0] => set (f1 := set_cur_file_pos p f0)
  end.
  assert (H1 : in_step f f1).
  { exists (take (Z.to_nat (4 * 2)) (user_file f)). simpl.
    split; [now rewrite take_drop|].
    unfold to_size_t in E. rewrite Z.mod_small in E; [lia|].
    rewrite length_take. lia. }
  destruct (negb _).
  { simpl. discriminate. }
  destruct (negb _ && negb _).
  { simpl. discriminate. }
  rewrite bind_unfold.
  match goal with
  | |- context [set_storage_mode ?m f1] =>
      pose proof (steady_set_storage_mode m f1) as H2;
      destruct (set_storage_mode m f1) as [[] f2]
  end.
  cbn [snd] in H2. rewrite bind_unfold.
  pose proof (read_header_loop_in_step (S (length (user_file f2))) char32 0
                f2) as H3.
  unfold read_header_attributes.
  destruct (read_header_loop _ char32 0 f2) as [[[rda m]|] f3];
    [|simpl; discriminate].
  cbn [fst snd] in H3. unfold read_header_exit.
  destruct (Z.ltb_spec rda 0) as [Hneg|Hpos].
  { simpl. intros H. injection H as -> _. lia. }
  rewrite bind_unfold.
  pose proof (steady_report_missing_attributes m f3) as H4.
  destruct (report_missing_attributes m f3) as [nm f4]. cbn [snd] in H4.
  destruct (negb (nm =? 0)); simpl; intros H; [discriminate|].
  injection H as <-.
  eapply in_step_trans; [exact H1|]. eapply in_step_trans; [exact H2|].
  eapply in_step_trans; [|exact H4]. eapply H3; eauto.
Qed.

(** X20.  After a successful [read_header] the position counts exactly
    the bytes the reader has taken: the stream it leaves is the stream
    it was given without a front part, and the position has advanced by
    the length of that part.  So the handle of a successful open has its
    position at the length of the header, and its stream is what follows
    the header in the file. *)
Theorem position_tracks_the_stream :
  (forall f f',
      read_header f = (0, f') ->
      exists s, user_file f = s ++ user_file f'
                /\ cur_file_pos f' = cur_file_pos f + Z.of_nat (length s))
  /\ (forall filename h,
        handle (aces_start_read filename) = Some h ->
        exists name fd0 header,
          filename = Some name
          /\ os_open name = Some (fd0, header ++ user_file h)
          /\ cur_file_pos h = Z.of_nat (length header)).
Proof.
  split; [exact read_header_in_step|].
  intros filename h. unfold aces_start_read.
  destruct filename as [[|c name]|]; try discriminate.
  destruct (negb (malloc_ok 0 sizeof_file_data)); [discriminate|].
  destruct (os_open (c :: name)) as [[fd0 contents]|] eqn:Ho; [|discriminate].
  pose proof (read_header_in_step (opened_file_data (c :: name) fd0 contents))
    as Hstep.
  destruct (read_header_reports (opened_file_data (c :: name) fd0 contents))
    as (new & _ & Hr & _).
  destruct (read_header _) as [r ret]. cbn [fst snd] in *.
  destruct (Z.ltb_spec r 0); [discriminate|].
  intros Hh. injection Hh as <-.
  assert (r = 0) as -> by lia.
  destruct (Hstep ret eq_refl) as (s & Hs & Hp). simpl in Hs, Hp.
  exists (c :: name), fd0, s. rewrite <- Hs. auto.
Qed.

(** ** The channel array of a handle *)

Lemma wrap32_le x : - 2 ^ 31 <= x -> wrap32 x <= x.
Proof.
  intros H. unfold wrap32.
  pose proof (Z.mod_le (x + 2 ^ 31) (2 ^ 32)). lia.
Qed.

Lemma insert_sorted_length x l :
  length (insert_sorted x l) = S (length l).
Proof.
  now rewrite <- (Permutation_length (insert_sorted_Permutation x l)).
Qed.

(** The count of the loop never passes the length of the temporary list. *)
Lemma returns_attr_read_chlist_loop_count fuel :
  forall buf l n,
    - 2 ^ 31 <= n <= Z.of_nat (length l) ->
    returns (fun r => match r with
                      | Some (_, n', l') => n' <= Z.of_nat (length l')
                      | None => True
                      end)
      (attr_read_chlist_loop fuel buf l n).
Proof.
  induction fuel as [|fuel IH]; intros buf l n Hn;
    cbn [attr_read_chlist_loop].
  - now apply returns_ret.
  - eapply (returns_bind (fun _ => True)); [apply returns_any|intros [rs b1] _].
    destruct (rs =? 0); [apply returns_ret; lia|].
    eapply (returns_bind (fun _ => True)); [apply returns_any|intros ok _].
    destruct (negb ok).
    { eapply (returns_bind (fun _ => True)); [apply returns_any|intros ? _].
      apply returns_ret. lia. }
    eapply (returns_bind (fun _ => True)); [apply returns_any|intros [e|] _].
    + apply IH. rewrite insert_sorted_length.
      pose proof (wrap32_range (n + 1)). pose proof (wrap32_le (n + 1)). lia.
    + apply returns_ret. lia.
Qed.

Lemma attr_read_chlist_array size f :
  channel_array (snd (fst (attr_read_chlist size f))).
Proof.
  unfold attr_read_chlist. rewrite bind_unfold.
  pose proof (returns_attr_read_chlist_loop_count (S (length (user_file f)))
                char32 [] 0 ltac:(simpl; lia) f) as Hcount.
  destruct (attr_read_chlist_loop (S (length (user_file f))) char32 [] 0 f)
    as [[[[r n] l]|] f1] eqn:E; cbn [fst] in Hcount;
    [|intros es H; discriminate].
  assert (Hs : StronglySorted name_le l).
  { apply Sorted_StronglySorted; [apply name_le_trans|].
    eapply attr_read_chlist_loop_sorted; [exact E|constructor]. }
  cbv beta iota. destruct (Z.gtb_spec n 0) as [Hpos|Hpos].
  - rewrite bind_unfold. destruct (malloc _ f1) as [ok f2].
    destruct ok; cbn [negb]; cbv iota.
    + intros es Hes. injection Hes as <-. simpl.
      rewrite length_take. split; [lia|]. split.
      * intros Hnil. apply (f_equal length) in Hnil.
        rewrite length_take in Hnil. simpl in Hnil. lia.
      * now apply StronglySorted_take.
    + rewrite bind_unfold. simpl. intros es H. discriminate.
  - intros es H. discriminate.
Qed.

Lemma returns_read_attribute_value_array a t n :
  returns (fun x => channel_array (attr_chlist (snd x)))
    (read_attribute_value a t n).
Proof.
  unfold read_attribute_value, read_fixed.
  destruct (attr_name_to_type t);
    try (returns; intros es H; discriminate).
  eapply (returns_bind (fun x => channel_array (snd x)));
    [intros f; apply attr_read_chlist_array|].
  intros [r c] H. apply returns_ret. exact H.
Qed.

Lemma returns_read_attribute_array buf :
  returns (fun x => channel_array (attr_chlist (snd x))) (read_attribute buf).
Proof.
  unfold read_attribute.
  eapply (returns_bind (fun _ => True)); [apply returns_any|intros [pos b] _].
  destruct (pos <=? 0); [apply returns_ret; intros es H; discriminate|].
  eapply (returns_bind (fun _ => True)); [apply returns_any|intros [pos2 tb] _].
  destruct (pos2 <? 0); [apply returns_ret; intros es H; discriminate|].
  eapply (returns_bind (fun _ => True)); [apply returns_any|intros [rc got] _].
  eapply (returns_bind (fun _ => True)); [apply returns_any|intros ? _].
  destruct (negb (rc =? 4)).
  { eapply (returns_bind (fun _ => True)); [apply returns_any|intros ? _].
    apply returns_ret. intros es H. discriminate. }
  eapply returns_bind; [apply returns_read_attribute_value_array|].
  intros [r attr] H. apply returns_ret. exact H.
Qed.

Lemma keeps_header_ret {A} (a : A) : keeps_header (mret a : M A).
Proof. intros f. reflexivity. Qed.

Lemma keeps_header_bind {A B} (c : M A) (k : A -> M B) :
  keeps_header c -> (forall a, keeps_header (k a)) -> keeps_header (c ≫= k).
Proof.
  intros Hc Hk f. rewrite bind_unfold. specialize (Hc f).
  destruct (c f) as [a f1]. simpl in Hc. rewrite <- Hc. apply Hk.
Qed.

Lemma keeps_header_readfn n : keeps_header (readfn n).
Proof. intros f. reflexivity. Qed.

Lemma keeps_header_advance n : keeps_header (advance n).
Proof. intros f. reflexivity. Qed.

Lemma keeps_header_print_error e : keeps_header (print_error e).
Proof. intros f. reflexivity. Qed.

Lemma keeps_header_malloc n : keeps_header (malloc n).
Proof. intros f. reflexivity. Qed.

Lemma keeps_header_get_user_data : keeps_header get_user_data.
Proof. intros f. reflexivity. Qed.

Create HintDb keeps_header.
#[local] Hint Resolve keeps_header_readfn keeps_header_advance
  keeps_header_print_error keeps_header_malloc keeps_header_get_user_data
  : keeps_header.

Ltac keeps_header :=
  repeat first
    [ apply keeps_header_ret
    | solve [auto with keeps_header]
    | apply keeps_header_bind; [|intros]
    | match goal with
      | |- keeps_header (let '(_, _) := ?x in _) => destruct x
      | |- keeps_header (if ?b then _ else _) => destruct b
      | |- keeps_header (match ?x with _ => _ end) => destruct x
      end ].

Lemma keeps_header_read_string_loop n :
  forall pos buf kind, keeps_header (read_string_loop n pos buf kind).
Proof.
  induction n as [|n IH]; intros; cbn [read_string_loop]; keeps_header;
    apply IH.
Qed.

Lemma keeps_header_read_string buf kind : keeps_header (read_string buf kind).
Proof. apply keeps_header_read_string_loop. Qed.

Lemma keeps_header_attr_check_size_and_read g n t :
  keeps_header (attr_check_size_and_read g n t).
Proof. unfold attr_check_size_and_read. keeps_header. Qed.

#[local] Hint Resolve keeps_header_read_string
  keeps_header_attr_check_size_and_read : keeps_header.

Lemma keeps_header_attr_read_chlist_loop fuel :
  forall buf l n, keeps_header (attr_read_chlist_loop fuel buf l n).
Proof.
  induction fuel as [|fuel IH]; intros; cbn [attr_read_chlist_loop];
    unfold read_chlist_fields; keeps_header; apply IH.
Qed.

Lemma keeps_header_attr_read_chlist n : keeps_header (attr_read_chlist n).
Proof.
  intros f. unfold attr_read_chlist.
  match goal with
  | |- user_data (snd (?c f)) = _ => assert (keeps_header c) as H
  end; [|apply H].
  pose proof keeps_header_attr_read_chlist_loop. keeps_header.
Qed.

#[local] Hint Resolve keeps_header_attr_read_chlist : keeps_header.

(** The attribute readers take bytes and report; none of them stores
    into the header. *)
Lemma keeps_header_read_attribute buf : keeps_header (read_attribute buf).
Proof.
  unfold read_attribute, read_attribute_value, read_fixed, attr_read_string,
    attr_read_userdata, attr_read_preview.
  keeps_header.
Qed.

Lemma keeps_header_report_missing_attributes v :
  keeps_header (report_missing_attributes v).
Proof. unfold report_missing_attributes, check_attr_mask. keeps_header. Qed.

Lemma keeps_header_read_header_exit rda m :
  keeps_header (read_header_exit rda m).
Proof.
  unfold read_header_exit.
  pose proof keeps_header_report_missing_attributes. keeps_header.
Qed.

Lemma keeps_channel_array_bind {A B} (c : M A) (k : A -> M B) :
  keeps_channel_array c -> (forall a, keeps_channel_array (k a)) ->
  keeps_channel_array (c ≫= k).
Proof.
  intros Hc Hk f H. rewrite bind_unfold. specialize (Hc f H).
  destruct (c f) as [a f1]. now apply Hk.
Qed.

Lemma keeps_header_channel_array {A} (c : M A) :
  keeps_header c -> keeps_channel_array c.
Proof. intros Hc f H. now rewrite Hc. Qed.

Lemma channels_add_attribute_to p buf attr :
  channels (snd (add_attribute_to p buf attr)) = attr_chlist attr
  \/ channels (snd (add_attribute_to p buf attr)) = channels p.
Proof.
  unfold add_attribute_to.
  repeat match goal with
         | |- context [if ?b then _ else _] => destruct b
         | |- context [match storage_mode ?x with _ => _ end] =>
             destruct (storage_mode x) eqn:?
         end; simpl; auto.
Qed.

Lemma add_attribute_channel_array buf attr f :
  channel_array (attr_chlist attr) ->
  channel_array (channels (user_data f)) ->
  channel_array (channels (user_data (snd (add_attribute buf attr f)))).
Proof.
  intros Ha Hf. unfold add_attribute.
  pose proof (channels_add_attribute_to (user_data f) buf attr) as H.
  destruct (add_attribute_to (user_data f) buf attr) as [m p].
  simpl in H. destruct (m =? 0); simpl; destruct H as [-> | ->]; assumption.
Qed.

Lemma keeps_channel_array_read_header_loop fuel :
  forall buf m, keeps_channel_array (read_header_loop fuel buf m).
Proof.
  induction fuel as [|fuel IH]; intros buf m f Hf; cbn [read_header_loop];
    [exact Hf|].
  rewrite bind_unfold.
  pose proof (keeps_header_read_attribute buf f) as Hkeep.
  pose proof (returns_read_attribute_array buf f) as Hattr.
  destruct (read_attribute buf f) as [[[rda b] attr] f1].
  cbn [fst snd] in Hkeep, Hattr. cbv beta iota.
  destruct (rda =? 1).
  - rewrite bind_unfold.
    pose proof (add_attribute_channel_array b attr f1 Hattr) as Hadd.
    destruct (add_attribute b attr f1) as [m1 f2]. apply IH.
    apply Hadd. now rewrite Hkeep.
  - simpl. now rewrite Hkeep.
Qed.

Lemma keeps_channel_array_read_header : keeps_channel_array read_header.
Proof.
  assert (Hloop : keeps_channel_array read_header_attributes)
    by (intros f; apply keeps_channel_array_read_header_loop).
  assert (Hmode : forall m, keeps_channel_array (set_storage_mode m))
    by (intros m f H; exact H).
  unfold read_header.
  apply keeps_channel_array_bind;
    [apply keeps_header_channel_array, keeps_header_readfn|intros [nr mv]].
  destruct (negb (to_size_t nr =? 4 * 2));
    [apply keeps_header_channel_array; keeps_header|].
  apply keeps_channel_array_bind;
    [apply keeps_header_channel_array, keeps_header_advance|intros _].
  cbv zeta.
  destruct (negb (int32_of mv =? 20000630));
    [apply keeps_header_channel_array; keeps_header|].
  destruct (negb (int32_of (drop 4 mv) =? 2)
            && negb (int32_of (drop 4 mv) =? 514));
    [apply keeps_header_channel_array; keeps_header|].
  apply keeps_channel_array_bind; [apply Hmode|intros _].
  apply keeps_channel_array_bind; [exact Hloop|intros [[rda m]|]].
  - apply keeps_header_channel_array, keeps_header_read_header_exit.
  - apply keeps_header_channel_array. keeps_header.
Qed.

Lemma aces_start_read_handle_header filename h :
  handle (aces_start_read filename) = Some h ->
  exists name fd0 contents,
    filename = Some name /\ os_open name = Some (fd0, contents)
    /\ read_header (opened_file_data name fd0 contents) = (0, h).
Proof.
  unfold aces_start_read.
  destruct filename as [[|c name]|]; try discriminate.
  destruct (negb (malloc_ok 0 sizeof_file_data)); [discriminate|].
  destruct (os_open (c :: name)) as [[fd0 contents]|] eqn:Ho; [|discriminate].
  destruct (read_header_reports (opened_file_data (c :: name) fd0 contents))
    as (new & _ & Hr & _).
  destruct (read_header _) as [r ret] eqn:E. cbn [fst snd] in *.
  destruct (Z.ltb_spec r 0); [discriminate|].
  intros Hh. injection Hh as <-.
  assert (r = 0) as -> by lia.
  exists (c :: name), fd0, contents. auto.
Qed.

Lemma handle_channel_array_shape filename h :
  handle (aces_start_read filename) = Some h ->
  channel_array (channels (user_data h)).
Proof.
  intros Hh.
  destruct (aces_start_read_handle_header filename h Hh)
    as (name & fd0 & contents & _ & _ & Hr).
  pose proof (keeps_channel_array_read_header
                (opened_file_data name fd0 contents)) as Hshape.
  rewrite Hr in Hshape. apply Hshape. intros es' H. discriminate.
Qed.


(** X24.  [add_attribute] stores a record named [channels] as the channel
    list whatever its type is.  A record of type [int] is read as four
    bytes, its value becomes the channel count and the array pointer is
    the null pointer of the cleared attribute: a turn of the header loop
    accepts the record and sets the bit of the mandatory attribute. *)
Theorem channels_attribute_type_not_checked (buf sz val rest : list byte)
  f fuel mask :
  length buf = 32%nat -> length sz = 4%nat -> int32_of sz = 4 ->
  length val = 4%nat ->
  user_file f = bytes_of "channels" ++ NUL :: bytes_of "int" ++ NUL ::
                sz ++ val ++ rest ->
  exists buf',
    c_str buf' = bytes_of "channels"
    /\ read_header_loop (S fuel) buf mask f =
       read_header_loop fuel buf' (to_uint16 (Z.lor mask REQ_CHANNELS_MASK))
         (set_user_data
            (with_channels {| num_channels := int32_of val; entries := None |}
               (user_data f))
            (upd rest 21 [] [] f)).
Proof.
  intros Hb Hsz Hsize Hval Hf.
  destruct (read_attribute_fixed_ok buf (bytes_of "channels")
              (bytes_of "int") sz val rest 4 f)
    as (buf' & Hc & E); auto;
    try (apply no_nulb_spec; reflexivity); try (simpl; lia);
    try discriminate; try reflexivity.
  exists buf'. split; [exact Hc|].
  eapply read_header_loop_step; [exact E|].
  unfold add_attribute, add_attribute_to, name_is. rewrite Hc.
  unfold REQ_CHANNELS_STR. name_tests.
  cbv iota. change (REQ_CHANNELS_MASK =? 0) with false. cbv iota.
  reflexivity.
Qed.

(** ** The size functions *)

Lemma aces_get_plane_bytes_loop_find es p ch :
  entries ch = Some es ->
  forall n c,
    (c + n = length es)%nat ->
    aces_get_plane_bytes_loop n c ch p
    = Some (match List.find (same_name p) (drop c es) with
            | Some e => aces_get_data_size (pixel_type e)
            | None => (0, [])
            end).
Proof.
  intros Hes. induction n as [|n IH]; intros c Hc;
    cbn [aces_get_plane_bytes_loop].
  - rewrite drop_ge by lia. reflexivity.
  - unfold nth_entry. rewrite Hes.
    destruct (lookup_lt_is_Some_2 es c ltac:(lia)) as [e He].
    rewrite He, (drop_S _ _ _ He). cbn [List.find]. unfold same_name at 1.
    destruct (strcmp (name e) p =? 0); [reflexivity|].
    apply IH. lia.
Qed.

Lemma aces_get_plane_bytes_loop_null p ch n c :
  entries ch = None ->
  aces_get_plane_bytes_loop n c ch p
  = match n with O => Some (0, []) | S _ => None end.
Proof.
  intros Hes. destruct n; cbn [aces_get_plane_bytes_loop]; [reflexivity|].
  unfold nth_entry. now rewrite Hes.
Qed.

Lemma aces_get_data_size_cases (datatype : Z) :
  aces_get_data_size datatype
  = if (0 <=? datatype) && (datatype <=? 2)
    then (if datatype =? ACES_PIXEL_HALF then 2 else 4, [])
    else (0, [UnknownDataType]).
Proof.
  unfold aces_get_data_size, ACES_PIXEL_UINT, ACES_PIXEL_HALF,
    ACES_PIXEL_FLOAT.
  destruct (Z.eqb_spec datatype 0) as [->|]; [reflexivity|].
  destruct (Z.eqb_spec datatype 1) as [->|]; [reflexivity|].
  destruct (Z.eqb_spec datatype 2) as [->|]; [reflexivity|].
  destruct (Z.leb_spec 0 datatype); [|reflexivity].
  destruct (Z.leb_spec datatype 2); [lia|reflexivity].
Qed.


(** ** aces_read_image *)

Lemma read_check_argument_passed h readfn_set writefn_set dst_set msgs :
  read_check_argument (Some h) readfn_set writefn_set dst_set = (0, msgs) ->
  dst_set = true /\ msgs = [] /\ 0 <= compression (user_data h) <= 7.
Proof.
  intros H.
  pose proof (read_check_argument_compression h readfn_set writefn_set
                dst_set) as Hc.
  rewrite H in Hc. specialize (Hc eq_refl).
  revert H. unfold read_check_argument. cbv zeta.
  destruct (negb readfn_set && writefn_set); [discriminate|].
  destruct dst_set; [|discriminate]. cbn [negb].
  destruct (_ || _).
  - destruct (match storage_mode (user_data h) with
              | ACES_STORAGE_SCANLINE => false
              | ACES_STORAGE_TILED => _
              end); [discriminate|].
    destruct (_ =? ACES_LINEORDER_RANDOM_Y); [discriminate|].
    destruct (_ && _); [discriminate|].
    intros H. injection H as <-. auto.
  - destruct (_ =? ACES_COMPRESSION_PXR24);
      [|destruct (_ =? ACES_COMPRESSION_B44);
        [|destruct (_ =? ACES_COMPRESSION_B44A)]]; discriminate.
Qed.

(** What [aces_get_image] has done when it returns 0: it has taken the
    offset table of a scanline file from the stream, and nothing else. *)
Lemma aces_get_image_success f readfn_set writefn_set dst_set msgs f' :
  aces_get_image (Some f) readfn_set writefn_set dst_set = (0, msgs, f') ->
  dst_set = true /\ msgs = []
  /\ storage_mode (user_data f) = ACES_STORAGE_SCANLINE
  /\ exists table f2,
      f' = Some f2 /\ user_file f = table ++ user_file f2
      /\ Z.of_nat (length table)
         = to_size_t
             (4 * to_size_t (snd (fst (compute_scanline_block_info f))))
      /\ cur_file_pos f2 = cur_file_pos f + Z.of_nat (length table)
      /\ user_data f2 = user_data f.
Proof.
  unfold aces_get_image.
  destruct (read_check_argument (Some f) readfn_set writefn_set dst_set)
    as [rc m0] eqn:E.
  destruct (Z.eqb_spec rc 0) as [->|Hrc]; cbn [negb]; [|discriminate].
  destruct (read_check_argument_passed _ _ _ _ _ E) as (-> & -> & Hc).
  destruct (storage_mode (user_data f)) eqn:Hmode; [|discriminate].
  unfold read_scanlines_interleaved. rewrite bind_unfold.
  pose proof (compute_scanline_block_info_state f Hc) as Hstate.
  destruct (compute_scanline_block_info f) as [[lpb nb] f0].
  cbn [fst snd] in *. subst f0.
  unfold read_offset_table. rewrite !bind_unfold, malloc_upd.
  destruct (malloc_ok _ _); cbn [negb]; cbv iota; [|discriminate].
  rewrite bind_unfold. unfold readfn at 1. cbv beta iota zeta.
  rewrite bind_unfold. cbn [advance].
  rewrite !user_file_upd.
  set (n := to_size_t (4 * to_size_t nb)).
  assert (Hn : 0 <= n < 2 ^ 64) by (apply Z.mod_pos_bound; lia).
  set (table := take (Z.to_nat n) (user_file f)).
  assert (Hlen : Z.of_nat (length table) <= n)
    by (subst table; rewrite length_take; lia).
  destruct (Z.eqb_spec (to_size_t (Z.of_nat (length table))) n) as [Hnr|Hnr];
    cbn [negb]; cbv iota; [|discriminate].
  unfold to_size_t in Hnr. rewrite Z.mod_small in Hnr by lia.
  intros H. injection H as <- <-.
  split; [reflexivity|]. split; [reflexivity|]. split; [reflexivity|].
  eexists table, _. split; [reflexivity|].
  split; [subst table; simpl; now rewrite take_drop|].
  split; [exact Hnr|]. split; [simpl; lia|reflexivity].
Qed.

Lemma aces_get_image_status f readfn_set writefn_set dst_set :
  fst (fst (aces_get_image f readfn_set writefn_set dst_set)) = 0
  \/ fst (fst (aces_get_image f readfn_set writefn_set dst_set)) = -1.
Proof.
  unfold aces_get_image.
  destruct (read_check_argument f readfn_set writefn_set dst_set) as [rc m0].
  destruct (negb (rc =? 0)); [now right|].
  destruct f as [f|]; [|now right].
  destruct (storage_mode (user_data f)); [|now right].
  unfold read_scanlines_interleaved. rewrite bind_unfold.
  destruct (compute_scanline_block_info f) as [[lpb nb] f0].
  rewrite bind_unfold.
  destruct (read_offset_table nb f0) as [[[t|] m1] f1]; [now left|now right].
Qed.

Lemma compute_scanline_block_info_result f g :
  user_data f = user_data g ->
  fst (compute_scanline_block_info f) = fst (compute_scanline_block_info g).
Proof.
  intros H. unfold compute_scanline_block_info.
  rewrite !bind_unfold. unfold get_user_data. cbv beta iota. rewrite H.
  rewrite !bind_unfold.
  repeat match goal with
         | |- context [if ?b then _ else _] => destruct b
         end; reflexivity.
Qed.


End Reader.

(** ** Releasing a handle (C9) *)

Section Release.
Import Memory.

Lemma free_size l m m' :
  free l m = Done m' -> (S (size (heap m')) = size (heap m))%nat.
Proof.
  unfold free. destruct (heap m !! l) eqn:E; intros H; inversion H; subst.
  simpl. rewrite map_size_delete, E. 
  assert (size (heap m) <> 0%nat)
    by (apply map_size_ne_0_lookup_2 with l; eauto).
  lia.
Qed.

Lemma free_if_set_size p m m' :
  free_if_set p m = Done m' -> (size (heap m') <= size (heap m))%nat.
Proof.
  destruct p as [l|]; simpl; intros H.
  - apply free_size in H. lia.
  - inversion H; subst. lia.
Qed.

Lemma release_attribute_memory_size a m m' :
  release_attribute_memory a m = Done m' ->
  (size (heap m') <= size (heap m))%nat.
Proof.
  unfold release_attribute_memory.
  destruct (ap_type a); try (intros H; inversion H; subst; lia);
    try apply free_if_set_size.
  unfold and_then. destruct (free_if_set (ap_type_name a) m) as [m1| |] eqn:E;
    try discriminate.
  intros H. apply free_if_set_size in E, H. lia.
Qed.

Lemma free_if_set_fuel p m : free_if_set p m <> out_of_fuel.
Proof.
  destruct p as [l|]; simpl; [|discriminate].
  unfold free. destruct (heap m !! l); discriminate.
Qed.

Lemma release_attribute_memory_fuel a m :
  release_attribute_memory a m <> out_of_fuel.
Proof.
  unfold release_attribute_memory.
  destruct (ap_type a); try discriminate; try apply free_if_set_fuel.
  unfold and_then.
  pose proof (free_if_set_fuel (ap_type_name a) m).
  destruct (free_if_set (ap_type_name a) m); try discriminate;
    [apply free_if_set_fuel|contradiction].
Qed.

(** The loop of [aces_close] ends: every turn frees a block. *)
Lemma free_user_attributes_fuel fuel :
  forall cur m,
    (size (heap m) <= fuel)%nat ->
    free_user_attributes fuel cur m <> out_of_fuel.
Proof.
  induction fuel as [|fuel IH]; intros [c|] m Hf; simpl; try discriminate.
  - destruct (heap m !! c) as [b|] eqn:E; [|discriminate].
    assert (size (heap m) <> 0%nat)
      by (apply map_size_ne_0_lookup_2 with c; eauto).
    lia.
  - destruct (heap m !! c) as [[| data nxt |]|] eqn:E; try discriminate.
    unfold and_then.
    pose proof (release_attribute_memory_fuel data m) as Hr.
    destruct (release_attribute_memory data m) as [m1| |] eqn:E1;
      try discriminate; [|contradiction].
    pose proof (free_if_set_fuel (Some c) m1) as Hc. simpl in Hc.
    destruct (free c m1) as [m2| |] eqn:E2; try discriminate;
      [|contradiction].
    apply IH. apply release_attribute_memory_size in E1.
    apply free_size in E2. lia.
Qed.

(** C9 (amended).  Closing a null handle does nothing.  Closing a live
    handle always ends; when it succeeds the file structure is no longer
    allocated, so the handle is dead: a second [aces_close] on it is not
    a no-op but an access to the block the first call freed. *)
Theorem aces_close_releases_once :
  (forall m, aces_close None m = Done m)
  /\ (forall l m, aces_close (Some l) m <> out_of_fuel)
  /\ (forall l m m',
        aces_close (Some l) m = Done m' ->
        heap m' !! l = None
        /\ aces_close (Some l) m' = Fault (dangling l)).
Proof.
  split; [reflexivity|split].
  - intros l m. unfold aces_close.
    destruct (heap m !! l) as [[e ua fd0| |]|]; try discriminate.
    unfold and_then.
    pose proof (free_if_set_fuel e m) as H1.
    destruct (free_if_set e m) as [m1| |]; try discriminate; [|contradiction].
    pose proof (free_user_attributes_fuel (size (heap m1)) ua m1 (le_n _))
      as H2.
    destruct (free_user_attributes _ ua m1) as [m2| |]; try discriminate;
      [|contradiction].
    apply free_if_set_fuel.
  - intros l m m' H. unfold aces_close in H.
    destruct (heap m !! l) as [[e ua fd0| |]|]; try discriminate.
    unfold and_then in H.
    destruct (free_if_set e m) as [m1| |]; try discriminate.
    destruct (free_user_attributes _ ua m1) as [m2| |]; try discriminate.
    unfold free_file_data_struct, free_if_set, free in H.
    assert (Hm' : heap m' !! l = None).
    { destruct (0 <=? fd0); simpl in H; rewrite lookup_insert_eq in H;
        inversion H; subst; simpl; apply lookup_delete_eq. }
    split; [exact Hm'|]. unfold aces_close. now rewrite Hm'.
Qed.

(** ** What closing a handle releases *)

#[local] Set Warnings "-clear-no-such-hyp".

Lemma released_nil m : released [] m m.
Proof. intros k. reflexivity. Qed.

Lemma released_app xs ys m m1 m2 :
  released xs m m1 -> released ys m1 m2 -> released (xs ++ ys) m m2.
Proof.
  intros H1 H2 k. rewrite H2, H1.
  repeat case_bool_decide; try reflexivity; set_solver.
Qed.

Lemma free_released l m :
  is_Some (heap m !! l) ->
  exists m', free l m = Done m' /\ released [l] m m' /\ closed m' = closed m.
Proof.
  intros [b Hb]. unfold free. rewrite Hb. eexists. split; [reflexivity|].
  split; [|reflexivity]. intros k. simpl.
  case_bool_decide as Hk.
  - apply list_elem_of_singleton in Hk as ->. apply lookup_delete_eq.
  - apply lookup_delete_ne. set_solver.
Qed.

Lemma free_if_set_released p m :
  (forall b, b ∈ option_list p -> is_Some (heap m !! b)) ->
  exists m', free_if_set p m = Done m'
             /\ released (option_list p) m m' /\ closed m' = closed m.
Proof.
  destruct p as [l|]; simpl; intros H.
  - apply free_released. apply H. set_solver.
  - exists m. split; [reflexivity|]. split; [apply released_nil|reflexivity].
Qed.

Lemma release_attribute_memory_released a m :
  NoDup (attr_blocks a) ->
  (forall b, b ∈ attr_blocks a -> is_Some (heap m !! b)) ->
  exists m', release_attribute_memory a m = Done m'
             /\ released (attr_blocks a) m m' /\ closed m' = closed m.
Proof.
  unfold release_attribute_memory, attr_blocks.
  destruct (ap_type a); intros Hnd Hall;
    try (exists m; split; [reflexivity|];
         split; [apply released_nil|reflexivity]);
    try (now apply free_if_set_released).
  apply NoDup_app in Hnd as (_ & Hdis & _).
  destruct (free_if_set_released (ap_type_name a) m) as (m1 & E1 & R1 & C1);
    [intros b Hb; apply Hall; set_solver|].
  destruct (free_if_set_released (ap_buffer a) m1) as (m2 & E2 & R2 & C2).
  { intros b Hb. rewrite R1. case_bool_decide as Hk.
    - exfalso. exact (Hdis b Hk Hb).
    - apply Hall. set_solver. }
  exists m2. rewrite E1. simpl. split; [exact E2|].
  split; [eapply released_app; eauto|congruence].
Qed.

Lemma free_user_attributes_None fuel m :
  free_user_attributes fuel None m = Done m.
Proof. destruct fuel; reflexivity. Qed.

Lemma node_blocks_node n nodes : n ∈ nodes -> fst n ∈ node_blocks nodes.
Proof.
  unfold node_blocks. induction 1 as [n nodes|n n' nodes _ IH]; simpl;
    set_solver.
Qed.

Lemma user_attribute_list_released nodes :
  forall cur ls m m',
    user_attribute_list (heap m) cur nodes -> released ls m m' ->
    (forall b, b ∈ node_blocks nodes -> b ∉ ls) ->
    user_attribute_list (heap m') cur nodes.
Proof.
  induction nodes as [|[c a] nodes IH]; intros cur ls m m' H R Hdis;
    simpl in *; [exact H|].
  destruct H as (-> & next & Hc & Hn). split; [reflexivity|].
  exists next. split.
  - rewrite R. case_bool_decide as Hk; [|exact Hc].
    exfalso. apply (Hdis c); [|exact Hk]. unfold node_blocks. simpl.
    set_solver.
  - eapply IH; [exact Hn|exact R|]. intros b Hb. apply Hdis.
    unfold node_blocks in *. simpl. set_solver.
Qed.

Lemma free_user_attributes_released nodes :
  forall fuel cur m,
    user_attribute_list (heap m) cur nodes ->
    NoDup (node_blocks nodes) ->
    (forall b, b ∈ node_blocks nodes -> is_Some (heap m !! b)) ->
    free_user_attributes fuel cur m = out_of_fuel
    \/ exists m', free_user_attributes fuel cur m = Done m'
                  /\ released (node_blocks nodes) m m'
                  /\ closed m' = closed m.
Proof.
  induction nodes as [|[c a] nodes IH]; intros fuel cur m H Hnd Hall.
  - simpl in H. subst cur. right. exists m.
    rewrite free_user_attributes_None. split; [reflexivity|].
    split; [apply released_nil|reflexivity].
  - destruct H as (-> & next & Hc & Hn).
    change (node_blocks ((c, a) :: nodes))
      with ((attr_blocks a ++ [c]) ++ node_blocks nodes) in *.
    apply NoDup_app in Hnd as (Hnd1 & Hdis & Hnd2).
    apply NoDup_app in Hnd1 as (Hnda & Hdisa & _).
    destruct fuel as [|fuel]; simpl; rewrite Hc; [now left|].
    destruct (release_attribute_memory_released a m Hnda)
      as (m1 & E1 & R1 & C1); [intros b Hb; apply Hall; set_solver|].
    rewrite E1. simpl.
    destruct (free_released c m1) as (m2 & E2 & R2 & C2).
    { rewrite R1. case_bool_decide as Hk; [|eauto].
      exfalso. apply (Hdisa c Hk). set_solver. }
    rewrite E2. simpl.
    pose proof (released_app _ _ _ _ _ R1 R2) as R12.
    destruct (IH fuel next m2) as [E3|(m3 & E3 & R3 & C3)].
    + eapply user_attribute_list_released; [exact Hn|exact R12|].
      intros b Hb Hk. exact (Hdis b Hk Hb).
    + exact Hnd2.
    + intros b Hb. rewrite R12. case_bool_decide as Hk.
      * exfalso. exact (Hdis b Hk Hb).
      * apply Hall. set_solver.
    + now left.
    + right. exists m3. split; [exact E3|].
      split; [eapply released_app; eauto|congruence].
Qed.

(** X21.  [aces_close] on a well-formed handle -- a file structure, its
    channel array, and a list of user attributes whose nodes and buffers
    are all allocated and all distinct -- succeeds and releases exactly
    those blocks: none of them stays allocated and no other block is
    touched.  The descriptor of the handle is given to [close] once when
    it is 0 or more (so also when it is 0), and not at all when it is
    negative. *)
Theorem aces_close_releases_all (l : loc) (m : memory)
  (entries user_attributes : option loc) (fd : Z)
  (nodes : list (loc * attr_pointers)) :
  heap m !! l = Some (file_block entries user_attributes fd) ->
  user_attribute_list (heap m) user_attributes nodes ->
  NoDup (handle_blocks l entries nodes) ->
  (forall b, b ∈ handle_blocks l entries nodes -> is_Some (heap m !! b)) ->
  exists m',
    aces_close (Some l) m = Done m'
    /\ released (handle_blocks l entries nodes) m m'
    /\ closed m' = closed m ++ (if 0 <=? fd then [fd] else []).
Proof.
  intros Hl Hlist Hnd Hall. unfold handle_blocks in *.
  apply NoDup_app in Hnd as (_ & Hdis1 & Hnd).
  apply NoDup_app in Hnd as (Hndn & Hdis2 & _).
  unfold aces_close. rewrite Hl.
  destruct (free_if_set_released entries m) as (m1 & E1 & R1 & C1);
    [intros b Hb; apply Hall; set_solver|].
  rewrite E1. simpl.
  pose proof (free_user_attributes_fuel (size (heap m1)) user_attributes m1
                (le_n _)) as Hfuel.
  destruct (free_user_attributes_released nodes (size (heap m1))
              user_attributes m1) as [E2|(m2 & E2 & R2 & C2)];
    [| | |contradiction|].
  { eapply user_attribute_list_released; [exact Hlist|exact R1|].
    intros b Hb Hk. apply (Hdis1 b Hk). set_solver. }
  { exact Hndn. }
  { intros b Hb. rewrite R1. case_bool_decide as Hk.
    - exfalso. apply (Hdis1 b Hk). set_solver.
    - apply Hall. set_solver. }
  rewrite E2. simpl.
  pose proof (released_app _ _ _ _ _ R1 R2) as R12.
  unfold free_file_data_struct, free_if_set, free.
  destruct (0 <=? fd); simpl; rewrite lookup_insert_eq;
    (eexists; split; [reflexivity|]); simpl;
    (split; [|rewrite ?app_nil_r; congruence]);
    rewrite app_assoc; (eapply released_app; [exact R12|]);
    intros k; simpl; rewrite delete_insert_eq;
    (case_bool_decide as Hk;
     [apply list_elem_of_singleton in Hk as ->; apply lookup_delete_eq
     |apply lookup_delete_ne; set_solver]).
Qed.

Lemma aces_close_cleared l m :
  aces_close (Some l)
    {| heap := <[l := file_block None None 0]> (heap m); closed := closed m |}
  = Done {| heap := delete l (heap m); closed := closed m ++ [0] |}.
Proof.
  unfold aces_close. simpl. rewrite lookup_insert_eq. simpl.
  rewrite free_user_attributes_None. simpl.
  unfold free_file_data_struct, free_if_set, free. simpl.
  rewrite lookup_insert_eq. now rewrite !delete_insert_eq.
Qed.

(** X22.  When [open] fails, [aces_start_read] releases the file
    structure it has just allocated by [aces_close].  The structure was
    cleared, so its descriptor is 0, not -1: the call gives descriptor 0
    to [close].  The heap is left as it was and no handle is returned. *)
Theorem failed_open_closes_descriptor_0
  (read_header : loc -> memory -> Z * memory)
  (filename : list byte) (l : loc) (m : memory) :
  filename <> [] -> heap m !! l = None ->
  aces_start_read read_header (Some filename) (Some l) None m
  = (None, Done {| heap := heap m; closed := closed m ++ [0] |}).
Proof.
  intros Hne Hl. unfold aces_start_read.
  destruct filename as [|c filename]; [contradiction|].
  cbn [alloc_file_data_struct]. rewrite aces_close_cleared.
  now rewrite delete_id.
Qed.

End Release.

(** * Worked examples *)

(** An allocator that never fails, and a file system with one file. *)
Definition malloc_always : nat -> Z -> bool := fun _ _ => true.

Definition disk_with (contents : list byte)
  : list byte -> option (Z * list byte) :=
  fun _ => Some (3, contents).

Definition cstring (s : string) : list byte := bytes_of s ++ [NUL].

(** The file structure of an open of [contents], before [read_header]. *)
Definition opened (contents : list byte) : file_data :=
  opened_file_data (bytes_of "example.exr") 3 contents.

Definition scanline_words : list byte := le_encode 4 20000630 ++ le_encode 4 2.

(** A header whose compression is zip and whose data window has
    [y_min = 0] and [y_max = 100]. *)
Definition zip_100_lines : file_data :=
  set_user_data
    {| storage_mode := ACES_STORAGE_SCANLINE;
       channels := {| num_channels := 0; entries := None |};
       compression := ACES_COMPRESSION_ZIP;
       data_window := {| x_min := 0; y_min := 0; x_max := 99; y_max := 100 |};
       display_window := {| x_min := 0; y_min := 0; x_max := 99; y_max := 99 |};
       line_order := 0; pixel_aspect_ratio := 0;
       screen_window_center := {| v2f_x := 0; v2f_y := 0 |};
       screen_window_width := 0;
       tile_info := {| x_size := 0; y_size := 0; level_type := 0;
                       round_mode := 0 |};
       user_attributes := [] |}
    (opened []).


(** A scanline file with no attribute, and one with the eight mandatory
    attributes of a scanline file. *)
Definition empty_header_file : list byte := scanline_words ++ [NUL].

Definition raw (nm : string) : raw_channel :=
  {| rc_name := bytes_of nm; rc_pixel_type := le_encode 4 1;
     rc_p_linear := [NUL]; rc_reserved := [NUL; NUL; NUL];
     rc_x_sampling := le_encode 4 1; rc_y_sampling := le_encode 4 1 |}.

Definition grba : list raw_channel := map raw ["G"; "R"; "B"; "A"]%string.

Definition attribute_record (nm ty : string) (payload : list byte)
  : list byte :=
  cstring nm ++ cstring ty ++ le_encode 4 (Z.of_nat (length payload))
    ++ payload.

Definition complete_scanline_file : list byte :=
  scanline_words
    ++ attribute_record "channels" "chlist" (chlist_payload grba)
    ++ attribute_record "compression" "compression" (le_encode 1 3)
    ++ attribute_record "dataWindow" "box2i"
         (le_encode 4 0 ++ le_encode 4 0 ++ le_encode 4 99 ++ le_encode 4 100)
    ++ attribute_record "displayWindow" "box2i"
         (le_encode 4 0 ++ le_encode 4 0 ++ le_encode 4 99 ++ le_encode 4 100)
    ++ attribute_record "lineOrder" "lineOrder" (le_encode 1 0)
    ++ attribute_record "pixelAspectRatio" "float" (le_encode 4 0x3F800000)
    ++ attribute_record "screenWindowCenter" "v2f"
         (le_encode 4 0 ++ le_encode 4 0)
    ++ attribute_record "screenWindowWidth" "float" (le_encode 4 0x3F800000)
    ++ [NUL].


Ltac channels_wf :=
  unfold grba; cbn [map];
  repeat (apply List.Forall_cons;
          [unfold raw_channel_wf;
           split; [apply no_nulb_spec; reflexivity|];
           split; [discriminate|];
           split; [simpl; lia|];
           repeat split; reflexivity|]);
  apply List.Forall_nil.

Lemma channel_list_sorted_witness :
  attr_read_chlist malloc_always 73 (opened (chlist_payload grba ++ [NUL]))
  = ((1, {| num_channels := 4; entries := Some (sorted_channels grba) |}),
     upd [NUL] 73 [] [56; 56; 56; 56; 192]
       (opened (chlist_payload grba ++ [NUL])))
  /\ map name (sorted_channels grba)
     = map bytes_of ["A"; "B"; "G"; "R"]%string
  /\ StronglySorted name_le (sorted_channels grba).
Proof.
  destruct (channel_list_sorted malloc_always 73
              (opened (chlist_payload grba ++ [NUL]))) as (_ & Hsorted & H).
  destruct (H grba [NUL]) as (Hrun & _ & Hs & Hnames);
    [reflexivity|channels_wf|discriminate|simpl; lia|reflexivity|].
  split; [exact Hrun|]. split; [apply Hnames; reflexivity|].
  apply (Hsorted _ _ _ _ Hrun). reflexivity.
Defined.

Lemma string_attribute_is_declared_size_witness :
  attr_read_string malloc_always 5 (opened (bytes_of "hello" ++ [NUL]))
  = ((1, {| length_ := 5; str := Some (bytes_of "hello") |}),
     upd [NUL] 5 [] [5] (opened (bytes_of "hello" ++ [NUL]))).
Proof.
  refine (proj2 (proj2 (proj2
            (string_attribute_is_declared_size malloc_always 5
               (opened (bytes_of "hello" ++ [NUL])) _ eq_refl)))
            eq_refl [NUL] eq_refl).
  lia.
Defined.

(** A [box2i] attribute declared with 15 bytes. *)
Definition short_box2i_rest : list byte := replicate 15 NUL ++ [NUL].

Definition short_box2i_record : list byte :=
  cstring "dataWindow" ++ cstring "box2i" ++ le_encode 4 15
    ++ short_box2i_rest.

Lemma size_mismatch_rejected_witness :
  aces_start_read malloc_always
    (disk_with (scanline_words ++ short_box2i_record))
    (Some (bytes_of "example.exr"))
  = {| handle := None;
       reported := [SizeMismatch 16 (bytes_of "box2i") 15] |}
  /\ (forall f, user_file f = short_box2i_record ->
        exists buf' attr,
          read_attribute malloc_always char32 f
          = ((-1, buf', attr),
             upd short_box2i_rest 21
               [SizeMismatch 16 (bytes_of "box2i") 15] [] f)).
Proof.
  destruct (size_mismatch_rejected malloc_always
              (disk_with (scanline_words ++ short_box2i_record))
              char32 (bytes_of "dataWindow") (bytes_of "box2i")
              (le_encode 4 15) short_box2i_rest 16)
    as (_ & Hread & _ & Hopen);
    [apply no_nulb_spec; reflexivity|discriminate|simpl; lia
    |apply no_nulb_spec; reflexivity|simpl; lia|reflexivity|reflexivity
    |reflexivity|vm_compute; discriminate|].
  split; [|exact Hread].
  apply (Hopen (bytes_of "example.exr") 3 scanline_words
           ACES_STORAGE_SCANLINE); [discriminate|reflexivity..].
Defined.

Definition bad_magic_file : list byte :=
  le_encode 4 12345 ++ le_encode 4 2 ++ [NUL].

Lemma bad_magic_rejected_witness :
  handle (aces_start_read malloc_always (disk_with bad_magic_file)
            (Some (bytes_of "example.exr"))) = None
  /\ reported (aces_start_read malloc_always (disk_with bad_magic_file)
                 (Some (bytes_of "example.exr"))) = [BadMagic 12345]
  /\ read_header malloc_always (opened bad_magic_file)
     = (-1, upd [NUL] 8 [BadMagic 12345] [] (opened bad_magic_file)).
Proof.
  destruct (bad_magic_rejected malloc_always (disk_with bad_magic_file)
              bad_magic_file) as (Hread & _ & Hopen);
    [vm_compute; discriminate|].
  destruct (Hopen (bytes_of "example.exr") 3) as (Hnull & Hmsg);
    [discriminate|reflexivity|reflexivity|].
  split; [exact Hnull|]. split; [apply Hmsg; simpl; lia|].
  apply (Hread (opened bad_magic_file) eq_refl). simpl. lia.
Defined.

Definition tiled_words : list byte := le_encode 4 20000630 ++ le_encode 4 0x202.

Definition version_3_words : list byte := le_encode 4 20000630 ++ le_encode 4 3.

Lemma version_word_selects_storage_mode_witness :
  storage_mode
    (user_data (snd (read_header malloc_always (opened empty_header_file))))
  = ACES_STORAGE_SCANLINE
  /\ storage_mode
       (user_data (snd (read_header malloc_always
                          (opened (tiled_words ++ [NUL])))))
     = ACES_STORAGE_TILED
  /\ aces_start_read malloc_always (disk_with (version_3_words ++ [NUL]))
       (Some (bytes_of "example.exr"))
     = {| handle := None; reported := [UnsupportedVersion 3] |}.
Proof.
  split; [|split].
  - destruct (version_word_selects_storage_mode malloc_always
                (disk_with empty_header_file) scanline_words [NUL]
                eq_refl eq_refl) as (H2 & _ & _).
    destruct (H2 eq_refl) as (Hmode & _).
    apply (Hmode (opened empty_header_file) eq_refl).
  - destruct (version_word_selects_storage_mode malloc_always
                (disk_with (tiled_words ++ [NUL])) tiled_words [NUL]
                eq_refl eq_refl) as (_ & H202 & _).
    destruct (H202 eq_refl) as (Hmode & _).
    apply (Hmode (opened (tiled_words ++ [NUL])) eq_refl).
  - destruct (version_word_selects_storage_mode malloc_always
                (disk_with (version_3_words ++ [NUL])) version_3_words [NUL]
                eq_refl eq_refl) as (_ & _ & H3).
    destruct H3 as (_ & Hopen); [vm_compute; discriminate..|].
    apply (Hopen (bytes_of "example.exr") 3); [discriminate|reflexivity..].
Defined.

(** A record named [comment] with an empty type name. *)
Definition untyped_rest : list byte := bytes_of "abc" ++ [NUL].

Definition untyped_record : list byte :=
  cstring "comment" ++ [NUL] ++ le_encode 4 3 ++ untyped_rest.

Lemma empty_type_name_rejected_witness :
  aces_start_read malloc_always (disk_with (scanline_words ++ untyped_record))
    (Some (bytes_of "example.exr"))
  = {| handle := None;
       reported := [UnknownAttrType (bytes_of "comment") []] |}
  /\ (forall f, user_file f = untyped_record ->
        exists buf' attr,
          read_attribute malloc_always char32 f
          = ((-1, buf', attr),
             upd untyped_rest 13
               [UnknownAttrType (bytes_of "comment") []] [] f)
          /\ type attr = ACES_ATTR_UNKNOWN).
Proof.
  destruct (empty_type_name_rejected malloc_always
              (disk_with (scanline_words ++ untyped_record))
              char32 (bytes_of "comment") (le_encode 4 3) untyped_rest)
    as (_ & Hread & _ & Hopen);
    [apply no_nulb_spec; reflexivity|discriminate|simpl; lia
    |reflexivity|reflexivity|].
  split; [|exact Hread].
  apply (Hopen (bytes_of "example.exr") 3 scanline_words
           ACES_STORAGE_SCANLINE); [discriminate|reflexivity..].
Defined.

(** C8.  A preview attribute declared with 5 bytes, over a stream that
    holds a 1 x 1 preview: the reader does not reject it; it reads the
    width and height and the pixel, twelve bytes, and accepts the
    attribute. *)
Theorem preview_declared_size_5_not_rejected :
  let stream := le_encode 4 1 ++ le_encode 4 1 ++ bytes_of "rgba" ++ [NUL] in
  attr_read_preview malloc_always 5 (opened stream)
  = ((1, {| width := 1; height := 1; rgba := Some (bytes_of "rgba") |}),
     upd [NUL] 12 [] [4] (opened stream)).
Proof. vm_compute. reflexivity. Qed.

(** The memory of a handle with a channel array and one user attribute,
    a string: the file structure at 1, the array at 2, the list node at 3
    and the string at 4. *)
Definition handle_memory : Memory.memory :=
  {| Memory.heap :=
       {[ 1%positive := Memory.file_block (Some 2%positive) (Some 3%positive) 3;
          2%positive := Memory.buffer_block;
          3%positive :=
            Memory.user_attr_block
              {| Memory.ap_type := ACES_ATTR_STRING;
                 Memory.ap_type_name := None;
                 Memory.ap_buffer := Some 4%positive |} None;
          4%positive := Memory.buffer_block ]};
     Memory.closed := [] |}.

Definition released_memory : Memory.memory :=
  {| Memory.heap := ∅; Memory.closed := [3] |}.

Lemma aces_close_first_call :
  Memory.aces_close (Some 1%positive) handle_memory
  = Memory.Done released_memory.
Proof. vm_compute. reflexivity. Qed.

Lemma aces_close_releases_once_witness :
  Memory.heap released_memory !! 1%positive = None
  /\ Memory.aces_close (Some 1%positive) released_memory
     = Memory.Fault (Memory.dangling 1%positive).
Proof.
  exact (proj2 (proj2 aces_close_releases_once) 1%positive handle_memory
           released_memory aces_close_first_call).
Defined.

(** Closing the handle of [handle_memory] a second time is not a no-op:
    the first call succeeds and the second is a use after free. *)
Lemma second_aces_close_is_not_a_no_op :
  Memory.aces_close (Some 1%positive) handle_memory
  = Memory.Done released_memory
  /\ Memory.aces_close (Some 1%positive) released_memory
     <> Memory.Done released_memory.
Proof.
  split; [vm_compute; reflexivity|]. vm_compute. discriminate.
Qed.

(** ** Worked examples of the further properties *)

Definition no_header : file_data -> Z -> list byte := fun _ _ => [].

(** A name of eight characters, then one of 32, then a stream that ends
    inside a name. *)
Definition name_of_32 : list byte :=
  bytes_of "abcdefghijklmnopqrstuvwxyz012345".

Lemma read_string_round_trip_witness :
  read_string char32 "attribute" (opened (cstring "channels" ++ [NUL]))
  = ((8, bytes_of "channels" ++ NUL :: drop 9 char32),
     upd [NUL] 9 [] [] (opened (cstring "channels" ++ [NUL])))
  /\ c_str (bytes_of "channels" ++ NUL :: drop 9 char32)
     = bytes_of "channels".
Proof.
  apply (read_string_round_trip (bytes_of "channels") char32 "attribute"
           (opened (cstring "channels" ++ [NUL])) [NUL]);
    [apply no_nulb_spec; reflexivity|simpl; lia|reflexivity|reflexivity].
Defined.

Lemma read_string_too_long_witness :
  read_string char32 "channel" (opened (name_of_32 ++ [NUL]))
  = ((-1, take 31 name_of_32 ++ [NUL]),
     upd [NUL] 32 [NameTooLong "channel" (take 31 name_of_32)] []
       (opened (name_of_32 ++ [NUL])))
  /\ c_str (take 31 name_of_32 ++ [NUL]) = take 31 name_of_32.
Proof.
  apply (read_string_too_long name_of_32 char32 "channel"
           (opened (name_of_32 ++ [NUL])) [NUL]);
    [apply no_nulb_spec; reflexivity|reflexivity|reflexivity|reflexivity].
Defined.

Lemma read_string_eof_witness :
  read_string char32 "type" (opened (bytes_of "box"))
  = ((-1, bytes_of "box" ++ drop 3 char32),
     upd [] 4 [EofInName "type" (bytes_of "box" ++ drop 3 char32)] []
       (opened (bytes_of "box")))
  /\ cur_file_pos (snd (read_string char32 "type" (opened (bytes_of "box"))))
     = 0 + 3 + 1.
Proof.
  apply (read_string_eof (bytes_of "box") char32 "type"
           (opened (bytes_of "box")));
    [apply no_nulb_spec; reflexivity|simpl; lia|reflexivity|reflexivity].
Defined.

Lemma attr_name_to_type_table_witness :
  attr_name_to_type (bytes_of "box2i") = ACES_ATTR_BOX2I
  /\ attr_name_to_type (bytes_of "myType") = ACES_ATTR_USER
  /\ attr_name_to_type [] = ACES_ATTR_UNKNOWN.
Proof.
  destruct attr_name_to_type_table as (Hin & Hout & Hempty).
  split; [exact (Hin 0%nat "box2i"%string eq_refl)|]. split.
  - apply Hout; [apply no_nulb_spec; reflexivity|discriminate|].
    intros s Hs. unfold the_predefined_attr_typenames in Hs.
    repeat (apply elem_of_cons in Hs as [->|Hs]; [discriminate|]).
    now apply elem_of_nil in Hs.
  - apply (Hempty []); [apply List.Forall_nil|reflexivity].
Defined.

(** A record of type [stringvector], a [float] record, a [dataWindow]
    record and a record of a type of the user's own. *)
Definition stringvector_record : list byte :=
  cstring "names" ++ cstring "stringvector" ++ le_encode 4 0 ++ [NUL].

Lemma stringvector_attribute_rejected_witness :
  aces_start_read malloc_always
    (disk_with (scanline_words ++ stringvector_record))
    (Some (bytes_of "example.exr"))
  = {| handle := None;
       reported :=
         [UnknownAttrType (bytes_of "names") (bytes_of "stringvector")] |}.
Proof.
  destruct (stringvector_attribute_rejected malloc_always
              (disk_with (scanline_words ++ stringvector_record))
              char32 (bytes_of "names") (le_encode 4 0) [NUL])
    as (_ & _ & Hopen);
    [apply no_nulb_spec; reflexivity|discriminate|simpl; lia
    |reflexivity|reflexivity|].
  apply (Hopen (bytes_of "example.exr") 3 scanline_words
           ACES_STORAGE_SCANLINE); [discriminate|reflexivity..].
Defined.

Definition float_record : list byte :=
  attribute_record "pixelAspectRatio" "float" (le_encode 4 0x3F800000).

Lemma fixed_attribute_read_verbatim_witness :
  exists buf',
    c_str buf' = bytes_of "pixelAspectRatio"
    /\ read_attribute malloc_always char32 (opened (float_record ++ [NUL]))
       = ((1, buf',
           {| type_name := None; type := ACES_ATTR_FLOAT;
              u := u_raw (le_encode 4 0x3F800000) |}),
          upd [NUL] 31 [] [] (opened (float_record ++ [NUL]))).
Proof.
  destruct (fixed_attribute_read_verbatim malloc_always char32
              (bytes_of "pixelAspectRatio") (bytes_of "float")
              (le_encode 4 4) 4) as (Hread & _);
    [apply no_nulb_spec; reflexivity|discriminate|simpl; lia
    |apply no_nulb_spec; reflexivity|simpl; lia|reflexivity|reflexivity
    |reflexivity|reflexivity|].
  exact (Hread (opened (float_record ++ [NUL])) (le_encode 4 0x3F800000)
           [NUL] eq_refl eq_refl).
Defined.

Definition window_100 : aces_attr_box2i :=
  {| x_min := 0; y_min := 0; x_max := 99; y_max := 100 |}.

Definition window_record : list byte :=
  attribute_record "dataWindow" "box2i" (box2i_bytes window_100).

Lemma data_window_round_trip_witness :
  exists buf',
    c_str buf' = bytes_of "dataWindow"
    /\ read_header_loop malloc_always 1 char32 0
         (opened (window_record ++ [NUL]))
       = read_header_loop malloc_always 0 buf' REQ_DATA_MASK
           (set_user_data
              (with_data_window window_100
                 (user_data (opened (window_record ++ [NUL]))))
              (upd [NUL] 37 [] [] (opened (window_record ++ [NUL])))).
Proof.
  apply (data_window_round_trip malloc_always char32 (le_encode 4 16) [NUL]
           window_100 (opened (window_record ++ [NUL])) 0%nat 0);
    try reflexivity; unfold int32_range; simpl; lia.
Defined.

Definition owner_record : list byte :=
  attribute_record "owner" "myType" (bytes_of "abc").

Lemma malloc_always_ok (k : nat) (n : Z) : malloc_always k n = true.
Proof. reflexivity. Qed.

Lemma not_a_predefined_type :
  attr_name_to_type (bytes_of "myType") = ACES_ATTR_USER.
Proof. vm_compute. reflexivity. Qed.

Lemma user_attribute_round_trip_witness :
  let attr :=
    {| type_name := Some (bytes_of "myType"); type := ACES_ATTR_USER;
       u := u_userdata {| size_ := 3; data := Some (bytes_of "abc") |} |} in
  let f := opened (owner_record ++ [NUL]) in
  exists buf',
    c_str buf' = bytes_of "owner"
    /\ read_attribute malloc_always char32 f
       = ((1, buf', attr), upd [NUL] 20 [] [7; 3] f)
    /\ read_header_loop malloc_always 1 char32 0 f
       = read_header_loop malloc_always 0 buf' 0
           (set_user_data
              (append_user_attribute (bytes_of "owner") attr (user_data f))
              (upd [NUL] 20 [] [7; 3; sizeof_user_attribute] f)).
Proof.
  apply (user_attribute_round_trip malloc_always char32 (bytes_of "owner")
           (bytes_of "myType") (le_encode 4 3) (bytes_of "abc") [NUL]
           (opened (owner_record ++ [NUL])) 0%nat 0);
    [exact malloc_always_ok|apply no_nulb_spec; reflexivity|discriminate
    |simpl; lia|apply no_nulb_spec; reflexivity|simpl; lia
    |exact not_a_predefined_type|reflexivity..].
Defined.

Lemma negative_declared_size_rejected_witness :
  fst (fst (read_attribute_value malloc_always (bytes_of "comment")
              (bytes_of "string") (-1) (opened (bytes_of "abc")))) = -1
  /\ read_attribute_value malloc_always (bytes_of "channels")
       (bytes_of "chlist") (-1)
     = read_attribute_value malloc_always (bytes_of "channels")
         (bytes_of "chlist") 73.
Proof.
  split.
  - apply (proj1 (negative_declared_size_rejected malloc_always
                    (bytes_of "comment") (bytes_of "string")));
      [lia|vm_compute; discriminate].
  - apply (proj2 (negative_declared_size_rejected malloc_always
                    (bytes_of "channels") (bytes_of "chlist"))).
    vm_compute. reflexivity.
Defined.

(** A preview that declares [2 ^ 30] by 1 pixels. *)
Definition wide_preview : list byte := le_encode 4 (2 ^ 30) ++ le_encode 4 1.

Lemma preview_read_by_dimensions_witness :
  attr_read_preview malloc_always 8 (opened (wide_preview ++ [NUL]))
  = ((1, {| width := 2 ^ 30; height := 1; rgba := Some [] |}),
     upd [NUL] 8 [] [0] (opened (wide_preview ++ [NUL])))
  /\ Z.of_nat (length (@nil byte)) < 4 * 2 ^ 30 * 1.
Proof.
  destruct (preview_read_by_dimensions malloc_always 8 wide_preview [] [NUL]
              (opened (wide_preview ++ [NUL])))
    as (Hread & Hshort); [lia|reflexivity..|].
  split; [exact Hread|]. apply Hshort. vm_compute. discriminate.
Defined.

(** A channel list whose only channel has a name of 32 characters. *)
Definition long_name_chlist : list byte :=
  name_of_32 ++ le_encode 4 1 ++ [NUL] ++ [NUL; NUL; NUL] ++ le_encode 4 1
    ++ le_encode 4 1 ++ [NUL; NUL].

Lemma long_channel_name_accepted_witness :
  attr_read_chlist malloc_always 50 (opened long_name_chlist)
  = ((1, {| num_channels := 1;
            entries := Some [ {| name := take 31 name_of_32;
                                 pixel_type := 1; p_linear := 0;
                                 reserved := [NUL; NUL; NUL];
                                 x_sampling := 1; y_sampling := 1 |} ] |}),
     upd [NUL] 49 [NameTooLong "channel" (take 31 name_of_32)]
       [sizeof_tmp_ch_list; sizeof_chlist_entry] (opened long_name_chlist)).
Proof.
  apply (long_channel_name_accepted malloc_always 50 name_of_32
           (le_encode 4 1) [NUL] [NUL; NUL; NUL] (le_encode 4 1)
           (le_encode 4 1) [NUL] (opened long_name_chlist));
    [exact malloc_always_ok|apply no_nulb_spec; reflexivity|reflexivity..].
Defined.

(** Two channels named [R], the first sampled by 1 and the second by 2,
    with a channel [G] between them. *)
Definition raw_sampled (nm : string) (sampling : Z) : raw_channel :=
  {| rc_name := bytes_of nm; rc_pixel_type := le_encode 4 1;
     rc_p_linear := [NUL]; rc_reserved := [NUL; NUL; NUL];
     rc_x_sampling := le_encode 4 sampling;
     rc_y_sampling := le_encode 4 sampling |}.

Definition r_g_r : list raw_channel :=
  [raw_sampled "R" 1; raw_sampled "G" 1; raw_sampled "R" 2].

Lemma r_g_r_wf : Forall raw_channel_wf r_g_r.
Proof.
  unfold r_g_r.
  repeat (apply List.Forall_cons;
          [unfold raw_channel_wf;
           split; [apply no_nulb_spec; reflexivity|];
           split; [discriminate|];
           split; [simpl; lia|];
           repeat split; reflexivity|]).
  apply List.Forall_nil.
Qed.

Lemma channel_sort_is_stable_witness :
  exists es f',
    attr_read_chlist malloc_always 55 (opened (chlist_payload r_g_r ++ [NUL]))
    = ((1, {| num_channels := 3; entries := Some es |}), f')
    /\ map x_sampling (List.filter (same_name (bytes_of "R")) es) = [1; 2].
Proof.
  destruct (channel_sort_is_stable malloc_always 55
              (opened (chlist_payload r_g_r ++ [NUL])) r_g_r [NUL])
    as (es & f' & Hrun & Hsame);
    [exact malloc_always_ok|exact r_g_r_wf|discriminate|simpl; lia
    |reflexivity|].
  exists es, f'. split; [exact Hrun|].
  rewrite (Hsame (bytes_of "R")). reflexivity.
Defined.

(** A header whose compression is pxr24, with the data window of
    [zip_100_lines]. *)
Definition pxr24_100_lines : file_data :=
  set_user_data
    {| storage_mode := ACES_STORAGE_SCANLINE;
       channels := {| num_channels := 0; entries := None |};
       compression := ACES_COMPRESSION_PXR24;
       data_window := {| x_min := 0; y_min := 0; x_max := 99; y_max := 100 |};
       display_window := {| x_min := 0; y_min := 0; x_max := 99; y_max := 99 |};
       line_order := 0; pixel_aspect_ratio := 0;
       screen_window_center := {| v2f_x := 0; v2f_y := 0 |};
       screen_window_width := 0;
       tile_info := {| x_size := 0; y_size := 0; level_type := 0;
                       round_mode := 0 |};
       user_attributes := [] |}
    (opened []).


Lemma failure_is_reported_witness :
  reported (aces_start_read malloc_always (disk_with bad_magic_file)
              (Some (bytes_of "example.exr"))) <> [].
Proof.
  apply (proj2 (failure_is_reported malloc_always (disk_with bad_magic_file))).
  vm_compute. reflexivity.
Defined.

Lemma aces_start_read_handle_witness :
  let h := snd (read_header malloc_always (opened complete_scanline_file)) in
  exists name fd0 contents,
    Some (bytes_of "example.exr") = Some name /\ name <> []
    /\ malloc_always 0 sizeof_file_data = true
    /\ disk_with complete_scanline_file name = Some (fd0, contents)
    /\ read_header malloc_always (opened_file_data name fd0 contents) = (0, h)
    /\ fd h = fd0 /\ given_filename h = take 255 name
    /\ reported (aces_start_read malloc_always
                   (disk_with complete_scanline_file)
                   (Some (bytes_of "example.exr"))) = errors h.
Proof.
  apply (proj1 (aces_start_read_handle malloc_always
                  (disk_with complete_scanline_file)
                  (Some (bytes_of "example.exr"))
                  (snd (read_header malloc_always
                          (opened complete_scanline_file))))).
  vm_compute. reflexivity.
Defined.

(** The header of [zip_100_lines] over a stream that holds the offset
    table of its seven blocks and one byte more. *)
Definition zip_100_lines_at_table : file_data :=
  set_user_file (replicate 28 NUL ++ [NUL]) zip_100_lines.

Lemma read_check_argument_accepts_witness :
  fst (read_check_argument (Some zip_100_lines) true false true) = 0.
Proof.
  apply (proj2 (proj2 (read_check_argument_accepts (Some zip_100_lines)
                         true false true))).
  exists zip_100_lines. split; [reflexivity|]. split; [now left|].
  split; [reflexivity|]. split; [vm_compute; split; discriminate|].
  split; [discriminate|now left].
Defined.

Lemma aces_get_image_reads_the_offset_table_witness :
  aces_get_image malloc_always (Some zip_100_lines_at_table) true false true
  = (0, [], Some (upd [NUL] 28 [] [28] zip_100_lines_at_table)).
Proof.
  destruct (aces_get_image_reads_the_offset_table malloc_always
              zip_100_lines_at_table true false true eq_refl)
    as (_ & Hscan & _).
  refine (Hscan eq_refl _ eq_refl (replicate 28 NUL) [NUL] eq_refl eq_refl).
  vm_compute. split; [discriminate|reflexivity].
Defined.

Lemma writing_is_not_implemented_witness :
  aces_write_image (Some (bytes_of "out.exr")) 0 0 1080 3 1
  = (-1, [ZeroSizedImage]).
Proof.
  destruct (writing_is_not_implemented (Some (bytes_of "out.exr")) 0 0 1080
              3 1) as (_ & Hwrite & _ & Hzero).
  rewrite Hwrite. apply pair_equal_spec. split; [reflexivity|].
  apply Hzero. split; [|now left].
  now exists "o"%byte, (bytes_of "ut.exr").
Defined.


Lemma position_tracks_the_stream_witness :
  let f' := snd (read_header malloc_always (opened complete_scanline_file)) in
  exists s,
    user_file (opened complete_scanline_file) = s ++ user_file f'
    /\ cur_file_pos f'
       = cur_file_pos (opened complete_scanline_file) + Z.of_nat (length s).
Proof.
  apply (proj1 (position_tracks_the_stream malloc_always
                  (disk_with complete_scanline_file))).
  vm_compute. reflexivity.
Defined.

Lemma aces_close_releases_all_witness :
  exists m',
    Memory.aces_close (Some 1%positive) handle_memory = Memory.Done m'
    /\ Memory.released [2; 4; 3; 1]%positive handle_memory m'
    /\ Memory.closed m' = [3].
Proof.
  apply (aces_close_releases_all 1%positive handle_memory (Some 2%positive)
           (Some 3%positive) 3
           [(3%positive,
             {| Memory.ap_type := ACES_ATTR_STRING;
                Memory.ap_type_name := None;
                Memory.ap_buffer := Some 4%positive |})]).
  - reflexivity.
  - simpl. split; [reflexivity|]. exists None. split; reflexivity.
  - apply (bool_decide_unpack _). vm_compute. reflexivity.
  - intros b Hb. simpl in Hb.
    repeat (apply elem_of_cons in Hb as [->|Hb]; [now eexists|]).
    now apply elem_of_nil in Hb.
Defined.

Definition empty_memory : Memory.memory :=
  {| Memory.heap := ∅; Memory.closed := [] |}.

Lemma failed_open_closes_descriptor_0_witness :
  Memory.aces_start_read (fun _ m => (0, m))
    (Some (bytes_of "missing.exr")) (Some 1%positive) None empty_memory
  = (None, Memory.Done {| Memory.heap := ∅; Memory.closed := [0] |}).
Proof.
  apply (failed_open_closes_descriptor_0 (fun _ m => (0, m))
           (bytes_of "missing.exr") 1%positive empty_memory);
    [discriminate|reflexivity].
Defined.

(** The handle of [complete_scanline_file]. *)
Definition complete_handle : file_data :=
  snd (read_header malloc_always (opened complete_scanline_file)).

Lemma complete_handle_opened :
  handle (aces_start_read malloc_always (disk_with complete_scanline_file)
            (Some (bytes_of "example.exr"))) = Some complete_handle.
Proof. vm_compute. reflexivity. Qed.


(** A record named [channels] of type [int], with the value 5. *)
Definition int_channels_record : list byte :=
  attribute_record "channels" "int" (le_encode 4 5).

Lemma channels_attribute_type_not_checked_witness :
  exists buf',
    c_str buf' = bytes_of "channels"
    /\ read_header_loop malloc_always 1 char32 0
         (opened (int_channels_record ++ [NUL]))
       = read_header_loop malloc_always 0 buf' REQ_CHANNELS_MASK
           (set_user_data
              (with_channels {| num_channels := 5; entries := None |}
                 (user_data (opened (int_channels_record ++ [NUL]))))
              (upd [NUL] 21 [] [] (opened (int_channels_record ++ [NUL])))).
Proof.
  apply (channels_attribute_type_not_checked malloc_always char32
           (le_encode 4 4) (le_encode 4 5) [NUL]
           (opened (int_channels_record ++ [NUL])) 0%nat 0);
    reflexivity.
Defined.


(** A scanline file with the eight mandatory attributes whose channel
    list is empty. *)
Definition no_channel_file : list byte :=
  scanline_words
    ++ attribute_record "channels" "chlist" [NUL]
    ++ attribute_record "compression" "compression" (le_encode 1 3)
    ++ attribute_record "dataWindow" "box2i"
         (le_encode 4 0 ++ le_encode 4 0 ++ le_encode 4 99 ++ le_encode 4 100)
    ++ attribute_record "displayWindow" "box2i"
         (le_encode 4 0 ++ le_encode 4 0 ++ le_encode 4 99 ++ le_encode 4 100)
    ++ attribute_record "lineOrder" "lineOrder" (le_encode 1 0)
    ++ attribute_record "pixelAspectRatio" "float" (le_encode 4 0x3F800000)
    ++ attribute_record "screenWindowCenter" "v2f"
         (le_encode 4 0 ++ le_encode 4 0)
    ++ attribute_record "screenWindowWidth" "float" (le_encode 4 0x3F800000)
    ++ [NUL].

